(** * WasmDebug: source map queries and debug-trap patching

    A shallow embedding of [js/src/wasm/WasmDebug.cpp] (SpiderMonkey, as
    vendored by spidernode): [GeneratedSourceMap::searchLineByOffset] and
    the [DebugState] methods.

    Conventions.
    - [uint32_t] values are integers of [Z]; where the source computes with
      them the wrap-around modulo [2^32] is written out ([u32]).
    - [size_t] indices into vectors are [nat].
    - [Vector::operator[]] out of range and [MOZ_ASSERT] failures end the
      call with [AssertionFailure] (a debug build, which is also the build
      in which the [#if DEBUG] block of [createText] is compiled).
    - A call that reports an error ([return false] / [return nullptr]) is a
      normal return whose result says so; the state it leaves is kept.
    - Allocation is decided by the [JSContext]: every fallible allocation of
      a call fails exactly when [cx_oom] is set. *)

From Stdlib Require Import ZArith List Bool Lia String.
From Stdlib Require Import Sorting.Sorted Sorting.Permutation.
From stdpp Require Import base option list gmap.

Local Open Scope Z_scope.

(** ** Outcomes of a call *)

Inductive outcome (A : Type) : Type :=
| Returns (a : A)
| AssertionFailure.
Arguments Returns {A} a.
Arguments AssertionFailure {A}.

#[global] Instance outcome_bind : MBind outcome := fun A B k m =>
  match m with
  | Returns a => k a
  | AssertionFailure => AssertionFailure
  end.

(** [MOZ_ASSERT(c)] followed by the rest of the body. *)
Definition MOZ_ASSERT {A} (c : bool) (k : outcome A) : outcome A :=
  if c then k else AssertionFailure.

(** [v[i]] on a [mozilla::Vector]: asserts [i < v.length()]. *)
Definition vec_at {A B} (v : list A) (i : nat) (k : A -> outcome B) : outcome B :=
  match v !! i with
  | Some x => k x
  | None => AssertionFailure
  end.

Definition u32 (z : Z) : Z := z mod 2 ^ 32.

Record JSContext := { cx_oom : bool }.

(** ** Data model *)

Record ExprLoc := { loc_offset : Z; loc_lineno : Z; loc_column : Z }.

Record GeneratedSourceMap := {
  exprlocs_ : list ExprLoc;
  sortedByOffsetExprLocIndices_ : option (list nat);
  totalLines_ : Z
}.

(** Modelled from the spec: the [CallSiteDesc::Kind] enumeration is declared
    in WasmTypes.h, which is not among the sources; the spec classifies call
    sites as "ordinary call, Breakpoint-capable, EnterFrame, LeaveFrame". *)
Inductive CallSiteKind := OrdinaryCall | Breakpoint | EnterFrame | LeaveFrame.

#[global] Instance CallSiteKind_eq_dec : EqDecision CallSiteKind.
Proof. solve_decision. Defined.

Record CallSite := {
  kind : CallSiteKind;
  lineOrBytecode : Z;
  returnAddressOffset : Z
}.

(** Modelled from the spec: [CodeRange] (WasmTypes.h) is not among the
    sources; the model keeps what WasmDebug.cpp reads from it: [begin()],
    [end()], [isFunction()] and [funcIndex()]. *)
Record CodeRange := {
  cr_begin : Z;
  cr_end : Z;
  isFunction : bool;
  funcIndex : nat
}.

Record Metadata := {
  debugEnabled : bool;
  codeRanges : list CodeRange;
  debugFuncToCodeRange : list nat;
  callSites : list CallSite;
  debugTrapFarJumpOffsets : list Z
}.

Record WasmBreakpointSite := { site_offset : Z }.

(** The code segment is kept as the set of patched trap sites: a key is the
    offset of a trap (a call site's return address) and its value the offset
    of the far jump that the call there targets; an offset that is not a key
    holds the no-op. *)
Record DebugState := {
  code_ : gmap Z Z;
  metadata_ : Metadata;
  maybeBytecode_ : option (list Z);
  maybeSourceMap_ : option GeneratedSourceMap;
  stepModeCounters_ : option (gmap nat Z);
  breakpointSites_ : option (gmap Z WasmBreakpointSite);
  enterAndLeaveFrameTrapsCounter_ : Z
}.

Definition with_code (ds : DebugState) (c : gmap Z Z) : DebugState :=
  {| code_ := c; metadata_ := metadata_ ds; maybeBytecode_ := maybeBytecode_ ds;
     maybeSourceMap_ := maybeSourceMap_ ds; stepModeCounters_ := stepModeCounters_ ds;
     breakpointSites_ := breakpointSites_ ds;
     enterAndLeaveFrameTrapsCounter_ := enterAndLeaveFrameTrapsCounter_ ds |}.

Definition with_sourceMap (ds : DebugState) (m : option GeneratedSourceMap) : DebugState :=
  {| code_ := code_ ds; metadata_ := metadata_ ds; maybeBytecode_ := maybeBytecode_ ds;
     maybeSourceMap_ := m; stepModeCounters_ := stepModeCounters_ ds;
     breakpointSites_ := breakpointSites_ ds;
     enterAndLeaveFrameTrapsCounter_ := enterAndLeaveFrameTrapsCounter_ ds |}.

Definition with_stepModeCounters (ds : DebugState) (m : option (gmap nat Z)) : DebugState :=
  {| code_ := code_ ds; metadata_ := metadata_ ds; maybeBytecode_ := maybeBytecode_ ds;
     maybeSourceMap_ := maybeSourceMap_ ds; stepModeCounters_ := m;
     breakpointSites_ := breakpointSites_ ds;
     enterAndLeaveFrameTrapsCounter_ := enterAndLeaveFrameTrapsCounter_ ds |}.

Definition with_breakpointSites (ds : DebugState)
    (m : option (gmap Z WasmBreakpointSite)) : DebugState :=
  {| code_ := code_ ds; metadata_ := metadata_ ds; maybeBytecode_ := maybeBytecode_ ds;
     maybeSourceMap_ := maybeSourceMap_ ds; stepModeCounters_ := stepModeCounters_ ds;
     breakpointSites_ := m;
     enterAndLeaveFrameTrapsCounter_ := enterAndLeaveFrameTrapsCounter_ ds |}.

Definition with_frameCounter (ds : DebugState) (n : Z) : DebugState :=
  {| code_ := code_ ds; metadata_ := metadata_ ds; maybeBytecode_ := maybeBytecode_ ds;
     maybeSourceMap_ := maybeSourceMap_ ds; stepModeCounters_ := stepModeCounters_ ds;
     breakpointSites_ := breakpointSites_ ds;
     enterAndLeaveFrameTrapsCounter_ := n |}.

(** [DebugState::DebugState]: the constructor asserts that a module compiled
    for debugging comes with its bytecode. *)
Definition DebugState_new (code : gmap Z Z) (metadata : Metadata)
    (maybeBytecode : option (list Z)) : outcome DebugState :=
  MOZ_ASSERT (implb (debugEnabled metadata) (bool_decide (is_Some maybeBytecode)))
    (Returns {| code_ := code; metadata_ := metadata; maybeBytecode_ := maybeBytecode;
                maybeSourceMap_ := None; stepModeCounters_ := None;
                breakpointSites_ := None; enterAndLeaveFrameTrapsCounter_ := 0 |}).

(** ** Code patcher *)

(** Modelled from the spec: [MacroAssembler::patchNopToCall] and
    [patchCallToNop] (jit/MacroAssembler.h) are not among the sources; the
    spec has them "patch a no-op -> call trampoline transformation at the
    trap site referencing that trampoline" and "reverse this to a no-op". *)
Definition patchNopToCall (trap farJump : Z) (code : gmap Z Z) : gmap Z Z :=
  <[trap := farJump]> code.

Definition patchCallToNop (trap : Z) (code : gmap Z Z) : gmap Z Z :=
  delete trap code.

Definition trapEnabled (code : gmap Z Z) (trap : Z) : bool :=
  bool_decide (is_Some (code !! trap)).

(** The loop [while (i < farJumpOffsets.length() && offset < farJumpOffsets[i]) i++],
    run on the part of the table that starts at index [i]. *)
Fixpoint farJumpScan (offset : Z) (rest : list Z) (i : nat) : nat :=
  match rest with
  | [] => i
  | x :: rest' => if offset <? x then farJumpScan offset rest' (S i) else i
  end.

(** The index that [toggleDebugTrap] settles on when enabling. *)
Definition farJumpIndex (offset : Z) (farJumpOffsets : list Z) : nat :=
  let i := farJumpScan offset farJumpOffsets 0 in
  if (length farJumpOffsets <=? i)%nat
     || ((0 <? i)%nat
         && (u32 (offset - default 0 (farJumpOffsets !! (i - 1)%nat))
             <? u32 (default 0 (farJumpOffsets !! i) - offset)))
  then (i - 1)%nat else i.

Definition toggleDebugTrap (md : Metadata) (code : gmap Z Z) (offset : Z) (enabled : bool)
    : outcome (gmap Z Z) :=
  MOZ_ASSERT (negb (offset =? 0))
    (let farJumpOffsets := debugTrapFarJumpOffsets md in
     if enabled then
       MOZ_ASSERT (0 <? length farJumpOffsets)%nat
         (vec_at farJumpOffsets (farJumpIndex offset farJumpOffsets) (fun farJump =>
            Returns (patchNopToCall offset farJump code)))
     else Returns (patchCallToNop offset code)).

(** ** mozilla::BinarySearchIf and MergeSort *)

(** Modelled from the spec: [mozilla::BinarySearchIf] (mfbt/BinarySearch.h) is
    not among the sources; the spec has its callers "binary-search ... (not
    required to be exact)" with a match-or-insertion-point result that can
    "run past the end".  The loop halves [low, high) until the comparator
    answers 0 at the middle or the interval is empty; [fuel] bounds the
    iterations and [high - low] of them always suffice
    ([BinarySearchIf_loop_fuel]). *)
Fixpoint BinarySearchIf_loop {A} (aContainer : list A) (aCompare : A -> outcome Z)
    (fuel low high : nat) : outcome (bool * nat) :=
  match fuel with
  | O => Returns (false, low)
  | S fuel' =>
    if (high =? low)%nat then Returns (false, low)
    else
      let middle := (low + (high - low) / 2)%nat in
      vec_at aContainer middle (fun x =>
        result ← aCompare x;
        if result =? 0 then Returns (true, middle)
        else if result <? 0 then BinarySearchIf_loop aContainer aCompare fuel' low middle
        else BinarySearchIf_loop aContainer aCompare fuel' (middle + 1)%nat high)
  end.

Definition BinarySearchIf {A} (aContainer : list A) (aBegin aEnd : nat)
    (aCompare : A -> outcome Z) : outcome (bool * nat) :=
  MOZ_ASSERT (aBegin <=? aEnd)%nat
    (BinarySearchIf_loop aContainer aCompare (aEnd - aBegin) aBegin aEnd).

(** Modelled from the spec: [MergeSort] (ds/Sort.h) is not among the sources;
    the spec has it "stable-sort" the index vector "so that dereferencing
    yields ascending instruction offsets", keeping the order of duplicates.
    A stable sort's result is determined by its input: each element, from the
    last to the first, goes before the first element it is [lessOrEqual] to. *)
Fixpoint MergeSort_insert {A} (lessOrEqual : A -> A -> bool) (x : A) (sorted : list A)
    : list A :=
  match sorted with
  | [] => [x]
  | y :: rest => if lessOrEqual x y then x :: y :: rest
                 else y :: MergeSort_insert lessOrEqual x rest
  end.

Fixpoint MergeSort {A} (lessOrEqual : A -> A -> bool) (array : list A) : list A :=
  match array with
  | [] => []
  | x :: rest => MergeSort_insert lessOrEqual x (MergeSort lessOrEqual rest)
  end.

(** The comparison by a key, the shape of [compareExprLocViaIndex]. *)
Definition keyLe {A} (key : A -> Z) (x y : A) : bool := key x <=? key y.

(** ** GeneratedSourceMap::searchLineByOffset *)

(** The offset of [exprlocs_[i]]; the indices the sort compares are those of
    the identity vector, all below [exprlocs_.length()]. *)
Definition offsetAt (exprlocs : list ExprLoc) (i : nat) : Z :=
  default 0 (loc_offset <$> exprlocs !! i).

Definition compareExprLocViaIndex (exprlocs : list ExprLoc) (i j : nat) : bool :=
  offsetAt exprlocs i <=? offsetAt exprlocs j.

Definition lookupFn (exprlocs : list ExprLoc) (offset : Z) (i : nat) : outcome Z :=
  vec_at exprlocs i (fun loc =>
    Returns (if offset =? loc_offset loc then 0
             else if offset <? loc_offset loc then -1 else 1)).

Definition buildSortedIndices (exprlocs : list ExprLoc) : list nat :=
  MergeSort (compareExprLocViaIndex exprlocs) (seq 0 (length exprlocs)).

(** The result is the map (with its index built, if it was) and the value of
    [*exprlocIndex], [None] when the call returns [false]. *)
Definition searchLineByOffset (cx : JSContext) (sm : GeneratedSourceMap) (offset : Z)
    : outcome (GeneratedSourceMap * option nat) :=
  MOZ_ASSERT (negb (bool_decide (exprlocs_ sm = [])))
    (let exprlocsLength := length (exprlocs_ sm) in
     let built :=
       match sortedByOffsetExprLocIndices_ sm with
       | Some _ => Some sm
       | None =>
         if cx_oom cx then None
         else Some {| exprlocs_ := exprlocs_ sm;
                      sortedByOffsetExprLocIndices_ := Some (buildSortedIndices (exprlocs_ sm));
                      totalLines_ := totalLines_ sm |}
       end in
     match built with
     | None => Returns (sm, None)
     | Some sm' =>
       let sorted := default [] (sortedByOffsetExprLocIndices_ sm') in
       r ← BinarySearchIf sorted 0 exprlocsLength (lookupFn (exprlocs_ sm) offset);
       let match_ := if (exprlocsLength <=? r.2)%nat then (exprlocsLength - 1)%nat else r.2 in
       vec_at sorted match_ (fun exprlocIndex => Returns (sm', Some exprlocIndex))
     end).

(** ** DebugState: text and source map *)

Definition newline : string := String (Ascii.ascii_of_nat 10) EmptyString.

Definition enabledMessage : string :=
  "Restart with developer tools open to view WebAssembly source".

Definition tooBigMessage : string :=
  ("Unfortunately, this WebAssembly module is too big to view as text."
   ++ newline ++ "We are working hard to remove this limitation.")%string.

Definition TooBig : Z := 1000000.

(** The [#if DEBUG] loop of [createText]. *)
Fixpoint linesSorted (lastLineno : Z) (exprlocs : list ExprLoc) : bool :=
  match exprlocs with
  | [] => true
  | loc :: rest => (lastLineno <=? loc_lineno loc) && linesSorted (loc_lineno loc) rest
  end.

Definition hasSourceMap (ds : DebugState) : bool :=
  match maybeSourceMap_ ds with Some _ => true | None => false end.

Definition hasBytecode (ds : DebugState) : bool :=
  match maybeBytecode_ ds with Some _ => true | None => false end.

(** What the text renderer leaves behind: whether it succeeded, the text it
    appended to the buffer, and the expression locations and line count it
    stored in the (fresh) source map. *)
Record Rendering := {
  render_ok : bool;
  render_text : string;
  render_exprlocs : list ExprLoc;
  render_totalLines : Z
}.

Section WithRenderer.

(** [BinaryToText] (wasm/WasmBinaryToText.h) is an external collaborator. *)
Variable BinaryToText : JSContext -> list Z -> Rendering.

(** The result is the [JSString*], [None] for [nullptr]. *)
Definition createText (cx : JSContext) (ds : DebugState) : outcome (DebugState * option string) :=
  match maybeBytecode_ ds with
  | None =>
    if cx_oom cx then Returns (ds, None)
    else MOZ_ASSERT (negb (hasSourceMap ds)) (Returns (ds, Some enabledMessage))
  | Some bytes =>
    if TooBig <? Z.of_nat (length bytes) then
      if cx_oom cx then Returns (ds, None)
      else MOZ_ASSERT (negb (hasSourceMap ds)) (Returns (ds, Some tooBigMessage))
    else
      if cx_oom cx then Returns (ds, None)
      else
        let r := BinaryToText cx bytes in
        let ds' := with_sourceMap ds
                     (Some {| exprlocs_ := render_exprlocs r;
                              sortedByOffsetExprLocIndices_ := None;
                              totalLines_ := render_totalLines r |}) in
        if negb (render_ok r) then Returns (ds', None)
        else MOZ_ASSERT (linesSorted 0 (render_exprlocs r))
               (Returns (ds', Some (render_text r)))
  end.

Definition ensureSourceMap (cx : JSContext) (ds : DebugState) : outcome (DebugState * bool) :=
  if hasSourceMap ds || negb (hasBytecode ds) then Returns (ds, true)
  else
    r ← createText cx ds;
    Returns (r.1, bool_decide (is_Some r.2)).

(** [LineComparator]: its constructor narrows the [size_t] line to
    [uint32_t]. *)
Definition LineComparator (lineno : Z) (loc : ExprLoc) : Z :=
  let lineno := u32 lineno in
  if lineno =? loc_lineno loc then 0
  else if lineno <? loc_lineno loc then -1 else 1.

(** [while (match > 0 && exprlocs[match - 1].lineno == lineno) match--]. *)
Fixpoint rewindMatch (exprlocs : list ExprLoc) (lineno : Z) (match_ : nat) : outcome nat :=
  match match_ with
  | O => Returns O
  | S m =>
    vec_at exprlocs m (fun loc =>
      if loc_lineno loc =? lineno then rewindMatch exprlocs lineno m
      else Returns (S m))
  end.

(** [for (i = match; i < exprlocs.length() && exprlocs[i].lineno == lineno; i++)],
    run on the part of [exprlocs] that starts at [i]; the flag is [false]
    when an [append] failed. *)
Fixpoint appendLineOffsets (cx : JSContext) (lineno : Z) (rest : list ExprLoc)
    (offsets : list Z) : bool * list Z :=
  match rest with
  | [] => (true, offsets)
  | loc :: rest' =>
    if loc_lineno loc =? lineno then
      if cx_oom cx then (false, offsets)
      else appendLineOffsets cx lineno rest' (offsets ++ [loc_offset loc])
    else (true, offsets)
  end.

(** The result is the state, the returned flag and the [offsets] vector. *)
Definition getLineOffsets (cx : JSContext) (ds : DebugState) (lineno : Z) (offsets : list Z)
    : outcome (DebugState * bool * list Z) :=
  if negb (debugEnabled (metadata_ ds)) then Returns (ds, true, offsets)
  else
    e ← ensureSourceMap cx ds;
    let ds := e.1 in
    if negb e.2 then Returns (ds, false, offsets)
    else
      match maybeSourceMap_ ds with
      | None => Returns (ds, true, offsets)
      | Some sm =>
        let exprlocs := exprlocs_ sm in
        r ← BinarySearchIf exprlocs 0 (length exprlocs)
              (fun loc => Returns (LineComparator lineno loc));
        if negb r.1 then Returns (ds, true, offsets)
        else
          match_ ← rewindMatch exprlocs lineno r.2;
          let a := appendLineOffsets cx lineno (drop match_ exprlocs) offsets in
          Returns (ds, a.1, a.2)
      end.

(** The result is the state, the returned flag and [Some (lineno, column)]
    when [*found] is set. *)
Definition getOffsetLocation (cx : JSContext) (ds : DebugState) (offset : Z)
    : outcome (DebugState * bool * option (Z * Z)) :=
  if negb (debugEnabled (metadata_ ds)) then Returns (ds, true, None)
  else
    e ← ensureSourceMap cx ds;
    let ds := e.1 in
    if negb e.2 then Returns (ds, false, None)
    else
      match maybeSourceMap_ ds with
      | None => Returns (ds, true, None)
      | Some sm =>
        if bool_decide (exprlocs_ sm = []) then Returns (ds, true, None)
        else
          s ← searchLineByOffset cx sm offset;
          let ds := with_sourceMap ds (Some s.1) in
          match s.2 with
          | None => Returns (ds, false, None)
          | Some foundAt =>
            vec_at (exprlocs_ s.1) foundAt (fun loc =>
              Returns (ds, true, Some (loc_lineno loc, loc_column loc)))
          end
      end.

Definition totalSourceLines (cx : JSContext) (ds : DebugState)
    : outcome (DebugState * bool * Z) :=
  if negb (debugEnabled (metadata_ ds)) then Returns (ds, true, 0)
  else
    e ← ensureSourceMap cx ds;
    let ds := e.1 in
    if negb e.2 then Returns (ds, false, 0)
    else Returns (ds, true, default 0 (totalLines_ <$> maybeSourceMap_ ds)).

End WithRenderer.

(** ** DebugState: step mode, breakpoints and frame traps *)

Definition stepModeEnabled (ds : DebugState) (funcIndex : nat) : bool :=
  match stepModeCounters_ ds with
  | Some counters => bool_decide (is_Some (counters !! funcIndex))
  | None => false
  end.

Definition hasBreakpointSite (ds : DebugState) (offset : Z) : bool :=
  match breakpointSites_ ds with
  | Some sites => bool_decide (is_Some (sites !! offset))
  | None => false
  end.

(** [for (const CallSite& callSite : metadata_->callSites) body], on the
    patched code; an assertion that fails in [body] ends the loop. *)
Fixpoint forEachCallSite (body : CallSite -> gmap Z Z -> outcome (gmap Z Z))
    (sites : list CallSite) (code : gmap Z Z) : outcome (gmap Z Z) :=
  match sites with
  | [] => Returns code
  | callSite :: rest =>
    code' ← body callSite code;
    forEachCallSite body rest code'
  end.

Definition inCodeRange (codeRange : CodeRange) (offset : Z) : bool :=
  (cr_begin codeRange <=? offset) && (offset <=? cr_end codeRange).

(** [metadata_->codeRanges[metadata_->debugFuncToCodeRange[funcIndex]]]. *)
Definition funcCodeRange {B} (md : Metadata) (funcIndex : nat) (k : CodeRange -> outcome B)
    : outcome B :=
  vec_at (debugFuncToCodeRange md) funcIndex (fun i => vec_at (codeRanges md) i k).

Definition incrementStepModeCount_body (md : Metadata) (codeRange : CodeRange)
    (callSite : CallSite) (code : gmap Z Z) : outcome (gmap Z Z) :=
  if negb (bool_decide (kind callSite = Breakpoint)) then Returns code
  else
    let offset := returnAddressOffset callSite in
    if inCodeRange codeRange offset then toggleDebugTrap md code offset true
    else Returns code.

(** [!stepModeCounters_.initialized() && !stepModeCounters_.init()]: the
    table to go on with, [None] when [init] failed. *)
Definition initStepModeCounters (cx : JSContext) (ds : DebugState) : option (gmap nat Z) :=
  match stepModeCounters_ ds with
  | None => if cx_oom cx then None else Some ∅
  | Some counters => Some counters
  end.

Definition incrementStepModeCount (cx : JSContext) (ds : DebugState) (funcIndex : nat)
    : outcome (DebugState * bool) :=
  let md := metadata_ ds in
  MOZ_ASSERT (debugEnabled md)
    (funcCodeRange md funcIndex (fun codeRange =>
     MOZ_ASSERT (isFunction codeRange)
       (match initStepModeCounters cx ds with
        | None => Returns (ds, false)
        | Some counters =>
          match counters !! funcIndex with
          | Some value =>
            MOZ_ASSERT (0 <? value)
              (Returns (with_stepModeCounters ds
                          (Some (<[funcIndex := u32 (value + 1)]> counters)), true))
          | None =>
            if cx_oom cx then Returns (with_stepModeCounters ds (Some counters), false)
            else
              let ds := with_stepModeCounters ds (Some (<[funcIndex := 1]> counters)) in
              code ← forEachCallSite (incrementStepModeCount_body md codeRange)
                       (callSites md) (code_ ds);
              Returns (with_code ds code, true)
          end
        end))).

Definition decrementStepModeCount_body (ds : DebugState) (codeRange : CodeRange)
    (callSite : CallSite) (code : gmap Z Z) : outcome (gmap Z Z) :=
  if negb (bool_decide (kind callSite = Breakpoint)) then Returns code
  else
    let offset := returnAddressOffset callSite in
    if inCodeRange codeRange offset then
      let enabled := hasBreakpointSite ds offset in
      toggleDebugTrap (metadata_ ds) code offset enabled
    else Returns code.

Definition decrementStepModeCount (cx : JSContext) (ds : DebugState) (funcIndex : nat)
    : outcome (DebugState * bool) :=
  let md := metadata_ ds in
  MOZ_ASSERT (debugEnabled md)
    (funcCodeRange md funcIndex (fun codeRange =>
     MOZ_ASSERT (isFunction codeRange)
       (match stepModeCounters_ ds with
        | None => AssertionFailure
        | Some counters =>
          MOZ_ASSERT (negb (bool_decide (counters = ∅)))
            (match counters !! funcIndex with
             | None => AssertionFailure
             | Some value =>
               let value := u32 (value - 1) in
               if negb (value =? 0) then
                 Returns (with_stepModeCounters ds (Some (<[funcIndex := value]> counters)),
                          true)
               else
                 let ds := with_stepModeCounters ds (Some (delete funcIndex counters)) in
                 code ← forEachCallSite (decrementStepModeCount_body ds codeRange)
                          (callSites md) (code_ ds);
                 Returns (with_code ds code, true)
             end)
        end))).

Definition SlowCallSiteSearchByOffset (metadata : Metadata) (offset : Z) : option CallSite :=
  find (fun callSite => (lineOrBytecode callSite =? offset)
                        && bool_decide (kind callSite = Breakpoint))
       (callSites metadata).

Definition hasBreakpointTrapAtOffset (ds : DebugState) (offset : Z) : bool :=
  if negb (debugEnabled (metadata_ ds)) then false
  else bool_decide (is_Some (SlowCallSiteSearchByOffset (metadata_ ds) offset)).

(** Modelled from the spec: [Code::lookupRange] (WasmCode.cpp) is not among the
    sources; it returns the code range that contains the given address, here
    the first range with [begin <= offset < end]. *)
Definition lookupRange (md : Metadata) (offset : Z) : option CodeRange :=
  find (fun codeRange => (cr_begin codeRange <=? offset) && (offset <? cr_end codeRange))
       (codeRanges md).

Definition toggleBreakpointTrap (ds : DebugState) (offset : Z) (enabled : bool)
    : outcome DebugState :=
  let md := metadata_ ds in
  MOZ_ASSERT (debugEnabled md)
    (match SlowCallSiteSearchByOffset md offset with
     | None => Returns ds
     | Some callSite =>
       let debugTrapOffset := returnAddressOffset callSite in
       match lookupRange md debugTrapOffset with
       | None => AssertionFailure
       | Some codeRange =>
         MOZ_ASSERT (isFunction codeRange)
           (if stepModeEnabled ds (funcIndex codeRange) then Returns ds
            else
              code ← toggleDebugTrap md (code_ ds) debugTrapOffset enabled;
              Returns (with_code ds code))
       end
     end).

Definition initBreakpointSites (cx : JSContext) (ds : DebugState)
    : option (gmap Z WasmBreakpointSite) :=
  match breakpointSites_ ds with
  | None => if cx_oom cx then None else Some ∅
  | Some sites => Some sites
  end.

(** The result is the site, [None] for [nullptr]. *)
Definition getOrCreateBreakpointSite (cx : JSContext) (ds : DebugState) (offset : Z)
    : DebugState * option WasmBreakpointSite :=
  match initBreakpointSites cx ds with
  | None => (ds, None)
  | Some sites =>
    match sites !! offset with
    | None =>
      if cx_oom cx then (with_breakpointSites ds (Some sites), None)
      else
        let site := {| site_offset := offset |} in
        (with_breakpointSites ds (Some (<[offset := site]> sites)), Some site)
    | Some site => (with_breakpointSites ds (Some sites), Some site)
    end
  end.

Definition destroyBreakpointSite (ds : DebugState) (offset : Z) : outcome DebugState :=
  match breakpointSites_ ds with
  | None => AssertionFailure
  | Some sites =>
    match sites !! offset with
    | None => AssertionFailure
    | Some _ => Returns (with_breakpointSites ds (Some (delete offset sites)))
    end
  end.

Definition adjustEnterAndLeaveFrameTrapsState_body (md : Metadata) (stillEnabled : bool)
    (callSite : CallSite) (code : gmap Z Z) : outcome (gmap Z Z) :=
  if negb (bool_decide (kind callSite = EnterFrame))
     && negb (bool_decide (kind callSite = LeaveFrame))
  then Returns code
  else toggleDebugTrap md code (returnAddressOffset callSite) stillEnabled.

(** Modelled from the spec: the declaration of the "counter for enter/leave
    frame trap consumers" (WasmDebug.h) is not among the sources; it is taken
    to be a [uint32_t] like the step-mode counters. *)
Definition adjustEnterAndLeaveFrameTrapsState (cx : JSContext) (ds : DebugState)
    (enabled : bool) : outcome DebugState :=
  let md := metadata_ ds in
  MOZ_ASSERT (debugEnabled md)
    (MOZ_ASSERT (implb (negb enabled) (0 <? enterAndLeaveFrameTrapsCounter_ ds))
       (let wasEnabled := 0 <? enterAndLeaveFrameTrapsCounter_ ds in
        let counter := if enabled then u32 (enterAndLeaveFrameTrapsCounter_ ds + 1)
                       else u32 (enterAndLeaveFrameTrapsCounter_ ds - 1) in
        let ds := with_frameCounter ds counter in
        let stillEnabled := 0 <? counter in
        if eqb wasEnabled stillEnabled then Returns ds
        else
          code ← forEachCallSite (adjustEnterAndLeaveFrameTrapsState_body md stillEnabled)
                   (callSites md) (code_ ds);
          Returns (with_code ds code))).

(** ** Reachable states *)

Section Reachable.

Variable BinaryToText : JSContext -> list Z -> Rendering.

(** One public call that returns (with or without an error). *)
Inductive step : DebugState -> DebugState -> Prop :=
| step_createText cx ds ds' text :
    createText BinaryToText cx ds = Returns (ds', text) -> step ds ds'
| step_ensureSourceMap cx ds ds' ok :
    ensureSourceMap BinaryToText cx ds = Returns (ds', ok) -> step ds ds'
| step_getLineOffsets cx ds lineno offsets ds' ok offsets' :
    getLineOffsets BinaryToText cx ds lineno offsets = Returns (ds', ok, offsets') ->
    step ds ds'
| step_getOffsetLocation cx ds offset ds' ok found :
    getOffsetLocation BinaryToText cx ds offset = Returns (ds', ok, found) -> step ds ds'
| step_totalSourceLines cx ds ds' ok count :
    totalSourceLines BinaryToText cx ds = Returns (ds', ok, count) -> step ds ds'
| step_incrementStepModeCount cx ds funcIndex ds' ok :
    incrementStepModeCount cx ds funcIndex = Returns (ds', ok) -> step ds ds'
| step_decrementStepModeCount cx ds funcIndex ds' ok :
    decrementStepModeCount cx ds funcIndex = Returns (ds', ok) -> step ds ds'
| step_toggleBreakpointTrap ds offset enabled ds' :
    toggleBreakpointTrap ds offset enabled = Returns ds' -> step ds ds'
| step_getOrCreateBreakpointSite cx ds offset ds' site :
    getOrCreateBreakpointSite cx ds offset = (ds', site) -> step ds ds'
| step_destroyBreakpointSite ds offset ds' :
    destroyBreakpointSite ds offset = Returns ds' -> step ds ds'
| step_adjustEnterAndLeaveFrameTrapsState cx ds enabled ds' :
    adjustEnterAndLeaveFrameTrapsState cx ds enabled = Returns ds' -> step ds ds'.

Inductive reachable : DebugState -> Prop :=
| reachable_new code metadata maybeBytecode ds :
    DebugState_new code metadata maybeBytecode = Returns ds -> reachable ds
| reachable_step ds ds' : reachable ds -> step ds ds' -> reachable ds'.

End Reachable.

(** [n] calls in a row, stopping at the first one that reports an error. *)
Fixpoint callN (op : DebugState -> outcome (DebugState * bool)) (n : nat) (ds : DebugState)
    : outcome (DebugState * bool) :=
  match n with
  | O => Returns (ds, true)
  | S n' =>
    match op ds with
    | Returns (ds', ok) => if ok then callN op n' ds' else Returns (ds', false)
    | AssertionFailure => AssertionFailure
    end
  end.

(** ** Properties the spec words, for comparison with the code *)

(** "the nearest entry in the far-jump table": an entry at minimal absolute
    distance from the trap offset. *)
Definition nearestFarJump (offset : Z) (farJumpOffsets : list Z) (farJump : Z) : Prop :=
  farJump ∈ farJumpOffsets
  ∧ ∀ other, other ∈ farJumpOffsets → Z.abs (farJump - offset) ≤ Z.abs (other - offset).

(** "ascending offset order". *)
Definition ascending (l : list Z) : Prop := Sorted Z.le l.

(** The trap a call site owns is the one at its return address. *)
Definition siteEnabled (ds : DebugState) (callSite : CallSite) : bool :=
  trapEnabled (code_ ds) (returnAddressOffset callSite).

(** The far jump that enabling the trap at [offset] makes it call. *)
Definition farJumpTarget (md : Metadata) (offset : Z) : Z :=
  default 0 (debugTrapFarJumpOffsets md
               !! farJumpIndex offset (debugTrapFarJumpOffsets md)).

(** The shape the three patch loops share: the call sites that [sel] selects
    are toggled to a state [en] that depends on their return address only. *)
Definition toggleBody (md : Metadata) (sel : CallSite -> bool) (en : Z -> bool)
    (callSite : CallSite) (code : gmap Z Z) : outcome (gmap Z Z) :=
  if sel callSite
  then toggleDebugTrap md code (returnAddressOffset callSite)
                       (en (returnAddressOffset callSite))
  else Returns code.

Definition isBreakpointSiteIn (codeRange : CodeRange) (callSite : CallSite) : bool :=
  bool_decide (kind callSite = Breakpoint)
  && inCodeRange codeRange (returnAddressOffset callSite).

Definition isFrameSite (callSite : CallSite) : bool :=
  bool_decide (kind callSite = EnterFrame) || bool_decide (kind callSite = LeaveFrame).

(** Some call site that [sel] selects has its return address at [off]. *)
Definition selectedAt (sel : CallSite -> bool) (sites : list CallSite) (off : Z) : bool :=
  existsb (fun callSite => sel callSite && (returnAddressOffset callSite =? off)) sites.

(** The frame-trap counter "crosses between zero and nonzero". *)
Definition crosses (before after : Z) : Prop := (0 <? before) <> (0 <? after).

(** The map once [searchLineByOffset] has built its index. *)
Definition withSortedIndices (sm : GeneratedSourceMap) : GeneratedSourceMap :=
  {| exprlocs_ := exprlocs_ sm;
     sortedByOffsetExprLocIndices_ := Some (buildSortedIndices (exprlocs_ sm));
     totalLines_ := totalLines_ sm |}.

(** The index of a map is either not built yet or the one
    [searchLineByOffset] builds. *)
Definition indexValid (sm : GeneratedSourceMap) : Prop :=
  sortedByOffsetExprLocIndices_ sm = None
  ∨ sortedByOffsetExprLocIndices_ sm = Some (buildSortedIndices (exprlocs_ sm)).



(** ** Example modules *)

Definition cx_ok : JSContext := {| cx_oom := false |}.
Definition cx_failing : JSContext := {| cx_oom := true |}.

(** One function, code range [10, 30), with one breakpoint-capable call site
    (bytecode position 7, return address 20), an enter-frame and a
    leave-frame site, and three far jumps. *)
Definition metadata_example : Metadata :=
  {| debugEnabled := true;
     codeRanges := [ {| cr_begin := 10; cr_end := 30; isFunction := true; funcIndex := 0 |} ];
     debugFuncToCodeRange := [ 0%nat ];
     callSites := [ {| kind := EnterFrame; lineOrBytecode := 5; returnAddressOffset := 12 |};
                    {| kind := Breakpoint; lineOrBytecode := 7; returnAddressOffset := 20 |};
                    {| kind := LeaveFrame; lineOrBytecode := 9; returnAddressOffset := 28 |} ];
     debugTrapFarJumpOffsets := [ 40; 50; 60 ] |}.

Definition debugState_example : DebugState :=
  {| code_ := ∅; metadata_ := metadata_example; maybeBytecode_ := Some [0; 97; 115; 109];
     maybeSourceMap_ := None; stepModeCounters_ := None; breakpointSites_ := None;
     enterAndLeaveFrameTrapsCounter_ := 0 |}.

(** A map with two entries on line 1, the later one at the smaller offset (an
    operator printed before its operand), and one entry on line 2. *)
Definition exprlocs_example : list ExprLoc :=
  [ {| loc_offset := 5; loc_lineno := 1; loc_column := 1 |};
    {| loc_offset := 3; loc_lineno := 1; loc_column := 9 |};
    {| loc_offset := 9; loc_lineno := 2; loc_column := 1 |} ].

Definition sourceMap_example : GeneratedSourceMap :=
  {| exprlocs_ := exprlocs_example; sortedByOffsetExprLocIndices_ := None;
     totalLines_ := 2 |}.

Definition BinaryToText_example (cx : JSContext) (bytes : list Z) : Rendering :=
  {| render_ok := true; render_text := "(module)";
     render_exprlocs := exprlocs_example; render_totalLines := 2 |}.

Definition debugState_built : DebugState :=
  with_sourceMap debugState_example (Some sourceMap_example).

(** The example module compiled without debugging, its bytecode kept. *)
Definition metadata_nodebug : Metadata :=
  {| debugEnabled := false; codeRanges := codeRanges metadata_example;
     debugFuncToCodeRange := debugFuncToCodeRange metadata_example;
     callSites := callSites metadata_example;
     debugTrapFarJumpOffsets := debugTrapFarJumpOffsets metadata_example |}.

Definition debugState_nodebug : DebugState :=
  {| code_ := ∅; metadata_ := metadata_nodebug; maybeBytecode_ := Some [0; 97; 115; 109];
     maybeSourceMap_ := None; stepModeCounters_ := None; breakpointSites_ := None;
     enterAndLeaveFrameTrapsCounter_ := 0 |}.

(** The example module with no bytecode retained. *)
Definition debugState_nobytecode : DebugState :=
  {| code_ := ∅; metadata_ := metadata_nodebug; maybeBytecode_ := None;
     maybeSourceMap_ := None; stepModeCounters_ := None; breakpointSites_ := None;
     enterAndLeaveFrameTrapsCounter_ := 0 |}.

(** A module whose bytecode is one byte over the ceiling. *)
Definition debugState_toobig : DebugState :=
  {| code_ := ∅; metadata_ := metadata_example;
     maybeBytecode_ := Some (repeat 0 (Z.to_nat (TooBig + 1)));
     maybeSourceMap_ := None; stepModeCounters_ := None; breakpointSites_ := None;
     enterAndLeaveFrameTrapsCounter_ := 0 |}.

(** A source map exists only over bytecode that is within the ceiling, and
    its index is valid. *)
Definition sourceMapInv (ds : DebugState) : Prop :=
  ∀ sm, maybeSourceMap_ ds = Some sm ->
        (∃ bytes, maybeBytecode_ ds = Some bytes ∧ Z.of_nat (length bytes) ≤ TooBig)
        ∧ indexValid sm.

(** What every call keeps: the metadata, the bytecode, and [sourceMapInv]. *)
Definition keepsSource (ds ds' : DebugState) : Prop :=
  metadata_ ds' = metadata_ ds ∧ maybeBytecode_ ds' = maybeBytecode_ ds
  ∧ (sourceMapInv ds -> sourceMapInv ds').

(** [funcIndex] names a function whose code range is [codeRange]. *)
Definition funcRange (md : Metadata) (funcIndex : nat) (codeRange : CodeRange) : Prop :=
  ∃ i, debugFuncToCodeRange md !! funcIndex = Some i
       ∧ codeRanges md !! i = Some codeRange
       ∧ isFunction codeRange = true.

(** What [toggleDebugTrap] asserts of the breakpoint-capable call sites of a
    code range: a far jump exists and no return address is 0. *)
Definition patchable (md : Metadata) (codeRange : CodeRange) : Prop :=
  debugTrapFarJumpOffsets md <> []
  ∧ Forall (fun callSite => isBreakpointSiteIn codeRange callSite = true ->
                            returnAddressOffset callSite <> 0) (callSites md).

(** The step-mode table, empty when it is not initialized yet. *)
Definition countersOf (ds : DebugState) : gmap nat Z := default ∅ (stepModeCounters_ ds).

(** The state in which the step-mode counter of [funcIndex] is [count] and
    the code is [code]. *)
Definition steppingState (ds : DebugState) (funcIndex : nat) (count : Z) (code : gmap Z Z)
    : DebugState :=
  with_code (with_stepModeCounters ds (Some (<[funcIndex := count]> (countersOf ds)))) code.

(** The state once the last reference to step mode of [funcIndex] is gone. *)
Definition steppedState (ds : DebugState) (funcIndex : nat) (code : gmap Z Z) : DebugState :=
  with_code (with_stepModeCounters ds (Some (delete funcIndex (countersOf ds)))) code.

Definition breakpointSite_example : CallSite :=
  {| kind := Breakpoint; lineOrBytecode := 7; returnAddressOffset := 20 |}.

Definition codeRange_example : CodeRange :=
  {| cr_begin := 10; cr_end := 30; isFunction := true; funcIndex := 0 |}.

(** ** Further definitions: invariants and runs of calls *)

(** Every registered breakpoint site sits under its own offset. *)
Definition sitesKeyed (ds : DebugState) : Prop :=
  ∀ sites offset site,
    breakpointSites_ ds = Some sites -> sites !! offset = Some site ->
    site_offset site = offset.

(** A call site whose trap the patch loops can reach: any kind but an
    ordinary call. *)
Definition isDebugSite (callSite : CallSite) : bool :=
  negb (bool_decide (kind callSite = OrdinaryCall)).

(** Every patched trap is at the (nonzero) return address of a debug call
    site and calls an entry of the far-jump table. *)
Definition patchesInTable (md : Metadata) (code : gmap Z Z) : Prop :=
  ∀ off target,
    code !! off = Some target ->
    off <> 0
    ∧ selectedAt isDebugSite (callSites md) off = true
    ∧ target ∈ debugTrapFarJumpOffsets md.

(** [n] calls of [adjustEnterAndLeaveFrameTrapsState] in a row. *)
Fixpoint adjustN (cx : JSContext) (enabled : bool) (n : nat) (ds : DebugState)
    : outcome DebugState :=
  match n with
  | O => Returns ds
  | S n' => ds' ← adjustEnterAndLeaveFrameTrapsState cx ds enabled; adjustN cx enabled n' ds'
  end.

(** Two states that differ in the source map at most. *)
Definition sameButSourceMap (ds ds' : DebugState) : Prop :=
  code_ ds' = code_ ds ∧ metadata_ ds' = metadata_ ds
  ∧ maybeBytecode_ ds' = maybeBytecode_ ds
  ∧ stepModeCounters_ ds' = stepModeCounters_ ds
  ∧ breakpointSites_ ds' = breakpointSites_ ds
  ∧ enterAndLeaveFrameTrapsCounter_ ds' = enterAndLeaveFrameTrapsCounter_ ds.

(** [code'] is [code] after one of the patch loops: unchanged, or the result
    of toggling the call sites that [sel] selects. *)
Definition patchedBy (md : Metadata) (sel : CallSite -> bool) (en : Z -> bool)
    (code code' : gmap Z Z) : Prop :=
  code' = code
  ∨ forEachCallSite (toggleBody md sel en) (callSites md) code = Returns code'.

(** ** DebugState: display URL *)

(** What [EncodeURI] (jsstr.h, an external collaborator) leaves: the encoded
    text, or a failure with or without an exception pending on the
    context. *)
Inductive EncodeURIResult :=
  | Encoded (filenamePrefix : string)
  | EncodeFailed (isExceptionPending : bool).

(** [(char)(digit < 10 ? digit + '0' : digit + 'a' - 10)]. *)
Definition hexDigit (digit : Z) : Ascii.ascii :=
  Ascii.ascii_of_nat (Z.to_nat (if digit <? 10 then digit + 48 else digit + 97 - 10)).

(** The loop over the bytes of the module hash, two characters a byte. *)
Fixpoint hexDump (hash : list Z) : string :=
  match hash with
  | [] => EmptyString
  | byte :: rest =>
    let digit1 := byte / 16 in
    let digit2 := byte mod 16 in
    String (hexDigit digit1) (String (hexDigit digit2) (hexDump rest))
  end.

(** [filename] and [hash] stand for [metadata_->filename] (absent when null)
    and [metadata_->hash]; the result is the [JSString*], [None] for
    [nullptr]. *)
Definition debugDisplayURL (EncodeURI : JSContext -> string -> EncodeURIResult)
    (cx : JSContext) (filename : option string) (hash : list Z) : option string :=
  if cx_oom cx then None
  else
    let result := "wasm:"%string in
    let named :=
      match filename with
      | Some filename =>
        match EncodeURI cx filename with
        | EncodeFailed isExceptionPending =>
          if negb isExceptionPending then None else Some result
        | Encoded filenamePrefix => Some (result ++ filenamePrefix ++ ":")%string
        end
      | None => Some result
      end in
    match named with
    | None => None
    | Some result => Some (result ++ hexDump hash)%string
    end.

(** [uint8_t]. *)
Definition isByte (b : Z) : Prop := 0 ≤ b < 256.

(** The characters of a lower-case hexadecimal numeral. *)
Definition isHexChar (c : Ascii.ascii) : Prop :=
  let n := Z.of_nat (Ascii.nat_of_ascii c) in 48 ≤ n ≤ 57 ∨ 97 ≤ n ≤ 102.

Fixpoint stringForall (P : Ascii.ascii -> Prop) (s : string) : Prop :=
  match s with
  | EmptyString => True
  | String c rest => P c ∧ stringForall P rest
  end.

(** An encoder that escapes nothing and rejects the empty name. *)
Definition EncodeURI_example (cx : JSContext) (filename : string) : EncodeURIResult :=
  match filename with
  | EmptyString => EncodeFailed true
  | _ => Encoded filename
  end.

(** A renderer that fails after recording one location. *)
Definition BinaryToText_failing (cx : JSContext) (bytes : list Z) : Rendering :=
  {| render_ok := false; render_text := EmptyString;
     render_exprlocs := [ {| loc_offset := 5; loc_lineno := 1; loc_column := 1 |} ];
     render_totalLines := 1 |}.

(** * Proofs *)

Ltac unfold_outcome :=
  unfold funcCodeRange in *; unfold MOZ_ASSERT, vec_at, mbind, outcome_bind in *.

(** ** The far-jump selection of [toggleDebugTrap] *)

Lemma farJumpScan_bounds offset rest i :
  (i ≤ farJumpScan offset rest i ≤ i + length rest)%nat.
Proof.
  revert i. induction rest as [|x rest IH]; intros i; simpl; [lia|].
  destruct (offset <? x); [specialize (IH (S i))|]; lia.
Qed.

Lemma farJumpScan_all_above offset rest i :
  Forall (fun x => offset < x) rest ->
  farJumpScan offset rest i = (i + length rest)%nat.
Proof.
  intros H. revert i. induction H as [|x rest Hx _ IH]; intros i; simpl; [lia|].
  apply Z.ltb_lt in Hx. rewrite Hx, IH. lia.
Qed.

Lemma farJumpIndex_lt offset farJumpOffsets :
  farJumpOffsets <> [] ->
  (farJumpIndex offset farJumpOffsets < length farJumpOffsets)%nat.
Proof.
  intros Hne. unfold farJumpIndex.
  pose proof (farJumpScan_bounds offset farJumpOffsets 0) as Hb.
  assert (0 < length farJumpOffsets)%nat by (destruct farJumpOffsets; simpl; [done|lia]).
  destruct (length farJumpOffsets <=? farJumpScan offset farJumpOffsets 0)%nat eqn:E1; simpl.
  - lia.
  - apply Nat.leb_gt in E1.
    destruct (0 <? farJumpScan offset farJumpOffsets 0)%nat eqn:E2; simpl; [|lia].
    match goal with |- context [if ?c then _ else _] => destruct c end; lia.
Qed.

(** On an ascending table the scan either stops at once (the first entry is
    not above the trap) or runs off the end (every entry is above it): the
    index is the first one or the last one, never one in between. *)
Lemma farJumpIndex_ascending offset first rest :
  ascending (first :: rest) ->
  farJumpIndex offset (first :: rest) = if offset <? first then length rest else 0%nat.
Proof.
  intros Hs. unfold farJumpIndex. cbn [farJumpScan].
  destruct (offset <? first) eqn:E.
  - apply Z.ltb_lt in E.
    assert (Forall (fun x => offset < x) rest) as Hall.
    { apply Sorted_StronglySorted in Hs; [|intros a b c; lia].
      apply StronglySorted_inv in Hs as [_ Hf].
      eapply Forall_impl; [exact Hf|]. simpl. intros; lia. }
    rewrite (farJumpScan_all_above _ _ _ Hall).
    replace (length (first :: rest) <=? 1 + length rest)%nat with true
      by (symmetry; apply Nat.leb_le; simpl; lia).
    simpl. lia.
  - reflexivity.
Qed.

(** C3, at a failing input.  With the ascending table [40; 50; 60] and the
    trap at offset 20, [toggleDebugTrap] patches a call to the far jump at 60,
    the entry farthest from the trap; the nearest entry is the one at 40. *)
Theorem toggleDebugTrap_selects_farthest :
  ascending (debugTrapFarJumpOffsets metadata_example)
  ∧ toggleDebugTrap metadata_example ∅ 20 true = Returns {[ 20 := 60 ]}
  ∧ nearestFarJump 20 (debugTrapFarJumpOffsets metadata_example) 40
  ∧ ¬ nearestFarJump 20 (debugTrapFarJumpOffsets metadata_example) 60.
Proof.
  split; [|split; [|split]].
  - repeat constructor; lia.
  - reflexivity.
  - split; [simpl; set_solver|].
    simpl. intros other Hin.
    repeat (apply elem_of_cons in Hin as [->|Hin]); [lia..|].
    by apply elem_of_nil in Hin.
  - intros [_ H]. specialize (H 40). simpl in H.
    assert (40 ∈ [40; 50; 60]) as Hin by set_solver.
    specialize (H Hin). lia.
Qed.

(** The same slip on the other side: a trap above the first entry gets the
    first entry, however close a later one is. *)
Example toggleDebugTrap_selects_first :
  toggleDebugTrap metadata_example ∅ 59 true = Returns {[ 59 := 40 ]}.
Proof. reflexivity. Qed.

(** ** Patching loops *)

Lemma toggleDebugTrap_Returns md code offset enabled :
  offset <> 0 ->
  (enabled = true -> debugTrapFarJumpOffsets md <> []) ->
  toggleDebugTrap md code offset enabled
  = Returns (if enabled then <[offset := farJumpTarget md offset]> code
             else delete offset code).
Proof.
  intros Hoff Hfj. unfold toggleDebugTrap, farJumpTarget. unfold_outcome.
  apply Z.eqb_neq in Hoff. rewrite Hoff. simpl.
  destruct enabled; [|reflexivity].
  specialize (Hfj eq_refl).
  pose proof (farJumpIndex_lt offset _ Hfj) as Hlt.
  destruct (debugTrapFarJumpOffsets md) as [|x l] eqn:E; [done|].
  simpl (0 <? length (x :: l))%nat. cbv iota.
  destruct (lookup_lt_is_Some_2 _ _ Hlt) as [y Hy]. rewrite Hy. reflexivity.
Qed.

Lemma toggleDebugTrap_inv md code offset enabled code' :
  toggleDebugTrap md code offset enabled = Returns code' ->
  offset <> 0
  ∧ (enabled = true -> debugTrapFarJumpOffsets md <> [])
  ∧ code' = (if enabled then <[offset := farJumpTarget md offset]> code
             else delete offset code).
Proof.
  intros H.
  assert (offset <> 0) as Hoff.
  { intros ->. discriminate H. }
  assert (enabled = true -> debugTrapFarJumpOffsets md <> []) as Hfj.
  { intros -> E. unfold toggleDebugTrap in H. unfold_outcome.
    rewrite E in H. destruct (negb (offset =? 0)); discriminate H. }
  rewrite (toggleDebugTrap_Returns md code offset enabled Hoff Hfj) in H.
  by inversion H.
Qed.

Lemma toggleDebugTrap_lookup md code offset enabled code' off :
  toggleDebugTrap md code offset enabled = Returns code' ->
  code' !! off = if offset =? off
                 then (if enabled then Some (farJumpTarget md off) else None)
                 else code !! off.
Proof.
  intros H. apply toggleDebugTrap_inv in H as (_ & _ & ->).
  destruct (Z.eqb_spec offset off) as [->|Hne].
  - destruct enabled; [apply lookup_insert_eq | apply lookup_delete_eq].
  - destruct enabled; [by apply lookup_insert_ne | by apply lookup_delete_ne].
Qed.

Lemma forEachCallSite_toggle_lookup md sel en sites code code' off :
  forEachCallSite (toggleBody md sel en) sites code = Returns code' ->
  code' !! off = if selectedAt sel sites off
                 then (if en off then Some (farJumpTarget md off) else None)
                 else code !! off.
Proof.
  revert code. induction sites as [|cs sites IH]; intros code H; simpl in *.
  - by inversion H.
  - unfold mbind, outcome_bind in H.
    destruct (toggleBody md sel en cs code) as [code1|] eqn:E1; [|discriminate].
    rewrite (IH _ H). destruct (selectedAt sel sites off) eqn:Es.
    + by rewrite orb_true_r.
    + rewrite orb_false_r. unfold toggleBody in E1.
      destruct (sel cs); simpl.
      * rewrite (toggleDebugTrap_lookup _ _ _ _ _ off E1).
        destruct (Z.eqb_spec (returnAddressOffset cs) off) as [->|]; reflexivity.
      * by inversion E1.
Qed.

Lemma forEachCallSite_toggle_Returns md sel en sites code :
  Forall (fun callSite => sel callSite = true ->
            returnAddressOffset callSite <> 0
            ∧ (en (returnAddressOffset callSite) = true ->
               debugTrapFarJumpOffsets md <> [])) sites ->
  ∃ code', forEachCallSite (toggleBody md sel en) sites code = Returns code'.
Proof.
  intros H. revert code. induction H as [|cs sites Hcs _ IH]; intros code; simpl.
  - eauto.
  - unfold mbind, outcome_bind. unfold toggleBody at 1.
    destruct (sel cs) eqn:E; [|apply IH].
    destruct (Hcs eq_refl) as [Hoff Hfj].
    rewrite (toggleDebugTrap_Returns _ _ _ _ Hoff Hfj). apply IH.
Qed.

Lemma selectedAt_true sel sites off :
  selectedAt sel sites off = true
  ↔ ∃ callSite, callSite ∈ sites ∧ sel callSite = true
                ∧ returnAddressOffset callSite = off.
Proof.
  unfold selectedAt. rewrite existsb_exists. split.
  - intros (cs & Hin & Hb). apply andb_true_iff in Hb as [Hs He].
    apply Z.eqb_eq in He. exists cs. by rewrite list_elem_of_In.
  - intros (cs & Hin & Hs & He). exists cs. rewrite <- list_elem_of_In.
    split; [done|]. rewrite Hs. simpl. by apply Z.eqb_eq.
Qed.

Lemma selectedAt_false sel sites off :
  (∀ callSite, callSite ∈ sites -> sel callSite = true ->
               returnAddressOffset callSite <> off) ->
  selectedAt sel sites off = false.
Proof.
  intros H. destruct (selectedAt sel sites off) eqn:E; [|done].
  apply selectedAt_true in E as (cs & Hin & Hs & He). by destruct (H cs Hin Hs).
Qed.

Lemma forEachCallSite_ext body1 body2 sites code :
  (∀ callSite c, body1 callSite c = body2 callSite c) ->
  forEachCallSite body1 sites code = forEachCallSite body2 sites code.
Proof.
  intros H. revert code. induction sites as [|cs sites IH]; intros code; simpl; [done|].
  rewrite H. unfold mbind, outcome_bind. destruct (body2 cs code); [apply IH|done].
Qed.

Lemma incrementStepModeCount_body_toggle md codeRange callSite code :
  incrementStepModeCount_body md codeRange callSite code
  = toggleBody md (isBreakpointSiteIn codeRange) (fun _ => true) callSite code.
Proof.
  unfold incrementStepModeCount_body, toggleBody, isBreakpointSiteIn.
  destruct (bool_decide (kind callSite = Breakpoint)); simpl; [|done].
  by destruct (inCodeRange codeRange (returnAddressOffset callSite)).
Qed.

Lemma decrementStepModeCount_body_toggle ds codeRange callSite code :
  decrementStepModeCount_body ds codeRange callSite code
  = toggleBody (metadata_ ds) (isBreakpointSiteIn codeRange) (hasBreakpointSite ds)
               callSite code.
Proof.
  unfold decrementStepModeCount_body, toggleBody, isBreakpointSiteIn.
  destruct (bool_decide (kind callSite = Breakpoint)); simpl; [|done].
  by destruct (inCodeRange codeRange (returnAddressOffset callSite)).
Qed.

Lemma adjustEnterAndLeaveFrameTrapsState_body_toggle md stillEnabled callSite code :
  adjustEnterAndLeaveFrameTrapsState_body md stillEnabled callSite code
  = toggleBody md isFrameSite (fun _ => stillEnabled) callSite code.
Proof.
  unfold adjustEnterAndLeaveFrameTrapsState_body, toggleBody, isFrameSite.
  destruct (bool_decide (kind callSite = EnterFrame)); simpl; [done|].
  by destruct (bool_decide (kind callSite = LeaveFrame)).
Qed.

(** ** Breakpoint traps by bytecode position *)

Lemma SlowCallSiteSearchByOffset_Some metadata offset :
  is_Some (SlowCallSiteSearchByOffset metadata offset)
  ↔ ∃ callSite, callSite ∈ callSites metadata
                ∧ kind callSite = Breakpoint ∧ lineOrBytecode callSite = offset.
Proof.
  unfold SlowCallSiteSearchByOffset. split.
  - intros [cs Hcs]. apply find_some in Hcs as [Hin Hb].
    apply andb_true_iff in Hb as [Hl Hk].
    exists cs. rewrite list_elem_of_In. apply Z.eqb_eq in Hl.
    apply bool_decide_eq_true in Hk. done.
  - intros (cs & Hin & Hk & Hl).
    destruct (find _ (callSites metadata)) as [cs'|] eqn:E; [eauto|].
    apply list_elem_of_In in Hin.
    pose proof (find_none _ _ E cs Hin) as Hn. simpl in Hn.
    rewrite Hl, Z.eqb_refl, (bool_decide_eq_true_2 _ Hk) in Hn. discriminate.
Qed.

(** C9.  [hasBreakpointTrapAtOffset(offset)] is true exactly when debugging
    is enabled and some call site of kind Breakpoint has [lineOrBytecode]
    equal to [offset]; the return address of the site plays no part, and with
    debugging disabled the answer is false at every offset. *)
Theorem hasBreakpointTrapAtOffset_iff :
  ∀ (ds : DebugState) (offset : Z),
    (hasBreakpointTrapAtOffset ds offset = true
     ↔ debugEnabled (metadata_ ds) = true
       ∧ ∃ callSite, callSite ∈ callSites (metadata_ ds)
                     ∧ kind callSite = Breakpoint
                     ∧ lineOrBytecode callSite = offset)
    ∧ (debugEnabled (metadata_ ds) = false ->
       hasBreakpointTrapAtOffset ds offset = false).
Proof.
  intros ds offset. unfold hasBreakpointTrapAtOffset.
  destruct (debugEnabled (metadata_ ds)); simpl.
  - split; [|done]. rewrite bool_decide_eq_true, SlowCallSiteSearchByOffset_Some.
    split; [by intros ?|by intros [_ ?]].
  - split; [|done]. split; [done|]. by intros [? _].
Qed.

(** A site whose return address, but not its bytecode position, is the
    queried offset does not count. *)
Example hasBreakpointTrapAtOffset_not_return_address :
  hasBreakpointTrapAtOffset debugState_example 7 = true
  ∧ hasBreakpointTrapAtOffset debugState_example 20 = false.
Proof. split; reflexivity. Qed.

(** ** Contract violations *)

Lemma toggleBreakpointTrap_no_call_site ds offset enabled :
  debugEnabled (metadata_ ds) = true ->
  SlowCallSiteSearchByOffset (metadata_ ds) offset = None ->
  toggleBreakpointTrap ds offset enabled = Returns ds.
Proof.
  intros Hd Hs. unfold toggleBreakpointTrap. unfold_outcome. by rewrite Hd, Hs.
Qed.

Lemma decrementStepModeCount_never_incremented cx ds funcIndex :
  stepModeEnabled ds funcIndex = false ->
  decrementStepModeCount cx ds funcIndex = AssertionFailure.
Proof.
  intros H. unfold decrementStepModeCount, stepModeEnabled in *. unfold_outcome.
  cbv zeta.
  destruct (debugEnabled (metadata_ ds)); [|done].
  destruct (debugFuncToCodeRange (metadata_ ds) !! funcIndex) as [i|]; [|done].
  destruct (codeRanges (metadata_ ds) !! i) as [cr|]; [|done].
  destruct (isFunction cr); [|done].
  destruct (stepModeCounters_ ds) as [counters|]; [|done].
  destruct (negb (bool_decide (counters = ∅))); [|done].
  destruct (counters !! funcIndex) eqn:E; [|done].
  rewrite bool_decide_eq_false in H. destruct H. eauto.
Qed.

Lemma toggleDebugTrap_no_far_jump md code offset :
  debugTrapFarJumpOffsets md = [] ->
  toggleDebugTrap md code offset true = AssertionFailure.
Proof.
  intros H. unfold toggleDebugTrap. unfold_outcome. rewrite H.
  by destruct (negb (offset =? 0)).
Qed.

(** C8, as the code has it.  Decrementing a step-mode counter that was never
    incremented and enabling a trap with an empty far-jump table end in an
    assertion failure; toggling a breakpoint trap at an offset with no
    breakpoint-capable call site is not asserted: the call returns and leaves
    the state as it was. *)
Theorem contract_violations :
  (∀ cx ds funcIndex,
     stepModeEnabled ds funcIndex = false ->
     decrementStepModeCount cx ds funcIndex = AssertionFailure)
  ∧ (∀ md code offset,
       debugTrapFarJumpOffsets md = [] ->
       toggleDebugTrap md code offset true = AssertionFailure)
  ∧ (∀ ds offset enabled,
       debugEnabled (metadata_ ds) = true ->
       hasBreakpointTrapAtOffset ds offset = false ->
       toggleBreakpointTrap ds offset enabled = Returns ds).
Proof.
  split; [|split].
  - apply decrementStepModeCount_never_incremented.
  - apply toggleDebugTrap_no_far_jump.
  - intros ds offset enabled Hd Hn. apply toggleBreakpointTrap_no_call_site; [done|].
    unfold hasBreakpointTrapAtOffset in Hn. rewrite Hd in Hn. simpl in Hn.
    apply bool_decide_eq_false in Hn.
    destruct (SlowCallSiteSearchByOffset (metadata_ ds) offset); [|done].
    destruct Hn; eauto.
Qed.

(** C8, counterexample.  Offset 8 is the bytecode position of no call site of
    the example module, and toggling the breakpoint trap there returns
    normally with the state unchanged instead of failing an assertion. *)
Lemma toggleBreakpointTrap_missing_site_not_asserted :
  hasBreakpointTrapAtOffset debugState_example 8 = false
  ∧ toggleBreakpointTrap debugState_example 8 true = Returns debugState_example
  ∧ toggleBreakpointTrap debugState_example 8 true <> AssertionFailure.
Proof. split; [reflexivity|]. split; [reflexivity|discriminate]. Qed.

(** The two asserted violations, on the example module. *)
Example asserted_violations :
  decrementStepModeCount cx_ok debugState_example 0 = AssertionFailure
  ∧ toggleDebugTrap
      {| debugEnabled := true; codeRanges := []; debugFuncToCodeRange := [];
         callSites := []; debugTrapFarJumpOffsets := [] |} ∅ 20 true
    = AssertionFailure.
Proof. split; reflexivity. Qed.

(** ** Enter/leave-frame traps *)

Lemma trapEnabled_lookup code off (o : option Z) :
  code !! off = o -> trapEnabled code off = bool_decide (is_Some o).
Proof. intros <-. reflexivity. Qed.

Lemma eqb_false_crosses before after :
  eqb (0 <? before) (0 <? after) = false ↔ crosses before after.
Proof. unfold crosses. rewrite eqb_false_iff. done. Qed.

Lemma adjustEnterAndLeaveFrameTrapsState_core cx ds enabled :
  debugEnabled (metadata_ ds) = true ->
  (enabled = false -> 0 < enterAndLeaveFrameTrapsCounter_ ds) ->
  debugTrapFarJumpOffsets (metadata_ ds) <> [] ->
  Forall (fun callSite => isFrameSite callSite = true ->
                          returnAddressOffset callSite <> 0)
         (callSites (metadata_ ds)) ->
  ∃ ds',
    adjustEnterAndLeaveFrameTrapsState cx ds enabled = Returns ds'
    ∧ enterAndLeaveFrameTrapsCounter_ ds'
      = (if enabled then u32 (enterAndLeaveFrameTrapsCounter_ ds + 1)
         else u32 (enterAndLeaveFrameTrapsCounter_ ds - 1))
    ∧ ds' = with_code (with_frameCounter ds (enterAndLeaveFrameTrapsCounter_ ds'))
                      (code_ ds')
    ∧ (¬ crosses (enterAndLeaveFrameTrapsCounter_ ds)
                 (enterAndLeaveFrameTrapsCounter_ ds') ->
       code_ ds' = code_ ds)
    ∧ (crosses (enterAndLeaveFrameTrapsCounter_ ds)
               (enterAndLeaveFrameTrapsCounter_ ds') ->
       (∀ callSite, callSite ∈ callSites (metadata_ ds) ->
                    isFrameSite callSite = true ->
                    siteEnabled ds' callSite
                    = (0 <? enterAndLeaveFrameTrapsCounter_ ds'))
       ∧ (∀ off, selectedAt isFrameSite (callSites (metadata_ ds)) off = false ->
                 code_ ds' !! off = code_ ds !! off)).
Proof.
  intros Hd Hdec Hfj Hsites.
  set (before := enterAndLeaveFrameTrapsCounter_ ds) in *.
  set (after := if enabled then u32 (before + 1) else u32 (before - 1)).
  assert (implb (negb enabled) (0 <? before) = true) as Hassert.
  { destruct enabled; [done|]. simpl. apply Z.ltb_lt. by apply Hdec. }
  unfold adjustEnterAndLeaveFrameTrapsState. unfold_outcome. cbv zeta.
  rewrite Hd. fold before. rewrite Hassert. fold after.
  destruct (eqb (0 <? before) (0 <? after)) eqn:Ecross.
  - eexists. split; [reflexivity|]. simpl.
    split; [reflexivity|]. split; [reflexivity|]. split; [reflexivity|].
    intros Hc. apply eqb_false_crosses in Hc. congruence.
  - rewrite (forEachCallSite_ext _ _ _ _
               (adjustEnterAndLeaveFrameTrapsState_body_toggle (metadata_ ds) (0 <? after))).
    destruct (forEachCallSite_toggle_Returns (metadata_ ds) isFrameSite
                (fun _ => 0 <? after) (callSites (metadata_ ds))
                (code_ (with_frameCounter ds after))) as [code' Hcode'].
    { eapply Forall_impl; [exact Hsites|]. simpl. intros cs Hcs Hsel. split; auto. }
    rewrite Hcode'.
    eexists. split; [reflexivity|]. simpl.
    split; [reflexivity|]. split; [reflexivity|]. split.
    + intros Hn. destruct Hn. by apply eqb_false_crosses.
    + intros _. split.
      * intros cs Hin Hsel. unfold siteEnabled. simpl.
        rewrite (trapEnabled_lookup _ _ _
                   (forEachCallSite_toggle_lookup _ _ _ _ _ _
                      (returnAddressOffset cs) Hcode')).
        replace (selectedAt isFrameSite (callSites (metadata_ ds))
                            (returnAddressOffset cs)) with true
          by (symmetry; apply selectedAt_true; eauto).
        destruct (0 <? after); [|by apply bool_decide_eq_false; intros [? ?]].
        apply bool_decide_eq_true; eauto.
      * intros off Hoff.
        rewrite (forEachCallSite_toggle_lookup _ _ _ _ _ _ off Hcode'), Hoff.
        reflexivity.
Qed.

(** C10.  A call that meets the asserted preconditions returns; it updates the
    counter, and it touches the code only when the counter crosses between
    zero and nonzero: then every EnterFrame and LeaveFrame call site gets the
    new state (enabled on 0 -> 1, disabled on 1 -> 0) and no other offset
    changes.  Any other increment or decrement changes the counter alone. *)
Theorem adjustEnterAndLeaveFrameTrapsState_crossing cx ds enabled :
  debugEnabled (metadata_ ds) = true ->
  (enabled = false -> 0 < enterAndLeaveFrameTrapsCounter_ ds) ->
  debugTrapFarJumpOffsets (metadata_ ds) <> [] ->
  Forall (fun callSite => isFrameSite callSite = true ->
                          returnAddressOffset callSite <> 0)
         (callSites (metadata_ ds)) ->
  ∃ ds',
    adjustEnterAndLeaveFrameTrapsState cx ds enabled = Returns ds'
    ∧ enterAndLeaveFrameTrapsCounter_ ds'
      = (if enabled then u32 (enterAndLeaveFrameTrapsCounter_ ds + 1)
         else u32 (enterAndLeaveFrameTrapsCounter_ ds - 1))
    ∧ ds' = with_code (with_frameCounter ds (enterAndLeaveFrameTrapsCounter_ ds'))
                      (code_ ds')
    ∧ (¬ crosses (enterAndLeaveFrameTrapsCounter_ ds)
                 (enterAndLeaveFrameTrapsCounter_ ds') ->
       code_ ds' = code_ ds)
    ∧ (crosses (enterAndLeaveFrameTrapsCounter_ ds)
               (enterAndLeaveFrameTrapsCounter_ ds') ->
       (∀ callSite, callSite ∈ callSites (metadata_ ds) ->
                    isFrameSite callSite = true ->
                    siteEnabled ds' callSite
                    = (0 <? enterAndLeaveFrameTrapsCounter_ ds'))
       ∧ (∀ off, selectedAt isFrameSite (callSites (metadata_ ds)) off = false ->
                 code_ ds' !! off = code_ ds !! off))
    ∧ (enterAndLeaveFrameTrapsCounter_ ds = 0 -> enabled = true ->
       enterAndLeaveFrameTrapsCounter_ ds' = 1
       ∧ crosses (enterAndLeaveFrameTrapsCounter_ ds)
                 (enterAndLeaveFrameTrapsCounter_ ds'))
    ∧ (enterAndLeaveFrameTrapsCounter_ ds = 1 -> enabled = false ->
       enterAndLeaveFrameTrapsCounter_ ds' = 0
       ∧ crosses (enterAndLeaveFrameTrapsCounter_ ds)
                 (enterAndLeaveFrameTrapsCounter_ ds'))
    ∧ ((enabled = true ∧ 0 < enterAndLeaveFrameTrapsCounter_ ds < 2 ^ 32 - 1)
       ∨ (enabled = false ∧ 1 < enterAndLeaveFrameTrapsCounter_ ds < 2 ^ 32) ->
       ¬ crosses (enterAndLeaveFrameTrapsCounter_ ds)
                 (enterAndLeaveFrameTrapsCounter_ ds')).
Proof.
  intros Hd Hdec Hfj Hsites.
  destruct (adjustEnterAndLeaveFrameTrapsState_core cx ds enabled Hd Hdec Hfj Hsites)
    as (ds' & Hret & Hc & Hshape & Hsame & Hcross).
  exists ds'. do 5 (split; [assumption|]).
  rewrite Hc. unfold crosses, u32.
  split; [|split].
  - intros H0 ->. rewrite H0. by vm_compute.
  - intros H1 ->. rewrite H1. by vm_compute.
  - intros [[-> Hr]|[-> Hr]].
    + rewrite Z.mod_small by lia.
      replace (0 <? enterAndLeaveFrameTrapsCounter_ ds) with true
        by (symmetry; apply Z.ltb_lt; lia).
      replace (0 <? enterAndLeaveFrameTrapsCounter_ ds + 1) with true
        by (symmetry; apply Z.ltb_lt; lia).
      by intros H.
    + rewrite Z.mod_small by lia.
      replace (0 <? enterAndLeaveFrameTrapsCounter_ ds) with true
        by (symmetry; apply Z.ltb_lt; lia).
      replace (0 <? enterAndLeaveFrameTrapsCounter_ ds - 1) with true
        by (symmetry; apply Z.ltb_lt; lia).
      by intros H.
Qed.

Lemma adjustEnterAndLeaveFrameTrapsState_crossing_witness :
  ∃ ds',
    adjustEnterAndLeaveFrameTrapsState cx_ok debugState_example true = Returns ds'
    ∧ enterAndLeaveFrameTrapsCounter_ ds' = 1
    ∧ code_ ds' !! 12 = Some 60 ∧ code_ ds' !! 28 = Some 60 ∧ code_ ds' !! 20 = None.
Proof.
  destruct (adjustEnterAndLeaveFrameTrapsState_crossing cx_ok debugState_example true)
    as (ds' & Hret & _); [reflexivity | discriminate | discriminate | |].
  - repeat constructor; discriminate.
  - exists ds'. split; [exact Hret|].
    vm_compute in Hret. inversion Hret. subst ds'. vm_compute. repeat split.
Defined.

(** ** Binary search *)

Lemma BinarySearchIf_loop_fuel {A} (c : list A) cmp fuel fuel' low high :
  (low ≤ high)%nat -> (high - low ≤ fuel)%nat -> (high - low ≤ fuel')%nat ->
  BinarySearchIf_loop c cmp fuel low high = BinarySearchIf_loop c cmp fuel' low high.
Proof.
  revert fuel' low high. induction fuel as [|fuel IH]; intros fuel' low high Hle Hf Hf'.
  - assert (high = low) as -> by lia. destruct fuel'; cbn [BinarySearchIf_loop]; [done|].
    by rewrite Nat.eqb_refl.
  - destruct fuel' as [|fuel'].
    + assert (high = low) as -> by lia. cbn [BinarySearchIf_loop]. by rewrite Nat.eqb_refl.
    + cbn [BinarySearchIf_loop]. destruct (Nat.eqb_spec high low) as [|Hne]; [done|].
      unfold_outcome. destruct (c !! _); [|done]. destruct (cmp a); [|done].
      destruct (a0 =? 0); [done|].
      assert ((high - low) / 2 < high - low)%nat by (apply Nat.div_lt; lia).
      set (d := ((high - low) / 2)%nat) in *. clearbody d.
      destruct (a0 <? 0); apply IH; lia.
Qed.

(** The search returns, with an index between the bounds, whenever the
    comparator does on the elements of the container. *)
Lemma BinarySearchIf_loop_bounds {A} (c : list A) cmp fuel low high :
  (low ≤ high ≤ length c)%nat ->
  (∀ x, x ∈ c -> ∃ r, cmp x = Returns r) ->
  ∃ found m, BinarySearchIf_loop c cmp fuel low high = Returns (found, m)
             ∧ (low ≤ m ≤ high)%nat.
Proof.
  intros Hb Hcmp. revert low high Hb.
  induction fuel as [|fuel IH]; intros low high Hb; cbn [BinarySearchIf_loop].
  - exists false, low. split; [done|lia].
  - destruct (Nat.eqb_spec high low) as [|Hne]; [exists false, low; split; [done|lia]|].
    assert ((high - low) / 2 < high - low)%nat by (apply Nat.div_lt; lia).
    set (d := ((high - low) / 2)%nat) in *. clearbody d.
    unfold_outcome.
    destruct (lookup_lt_is_Some_2 c (low + d)%nat) as [x Hx]; [lia|].
    rewrite Hx. destruct (Hcmp x) as [r Hr]; [by eapply list_elem_of_lookup_2|].
    rewrite Hr. destruct (r =? 0).
    + eexists _, _. split; [done|lia].
    + destruct (r <? 0).
      * destruct (IH low (low + d)%nat) as (f & m & -> & ?); [lia|].
        exists f, m. split; [done|lia].
      * destruct (IH (low + d + 1)%nat high) as (f & m & -> & ?); [lia|].
        exists f, m. split; [done|lia].
Qed.

(** With a comparator [f] that is monotone along the container (below the
    key, then equal to it, then above it), the search finds an element equal
    to the key if there is one, and otherwise the point where it would go. *)
Lemma BinarySearchIf_loop_spec {A} (c : list A) (f : A -> Z) fuel low high :
  (∀ i j x y, (i ≤ j)%nat -> c !! i = Some x -> c !! j = Some y -> f x < 0 -> f y < 0) ->
  (∀ i j x y, (i ≤ j)%nat -> c !! i = Some x -> c !! j = Some y -> 0 < f y -> 0 < f x) ->
  (low ≤ high ≤ length c)%nat -> (high - low ≤ fuel)%nat ->
  (∀ i x, (i < low)%nat -> c !! i = Some x -> 0 < f x) ->
  (∀ i x, (high ≤ i)%nat -> c !! i = Some x -> f x < 0) ->
  ∃ found m,
    BinarySearchIf_loop c (fun x => Returns (f x)) fuel low high = Returns (found, m)
    ∧ (low ≤ m ≤ high)%nat
    ∧ (found = true -> ∃ x, c !! m = Some x ∧ f x = 0)
    ∧ (found = false -> (∀ i x, (i < m)%nat -> c !! i = Some x -> 0 < f x)
                        ∧ (∀ i x, (m ≤ i)%nat -> c !! i = Some x -> f x < 0)).
Proof.
  intros Hup Hdown. revert low high.
  induction fuel as [|fuel IH]; intros low high Hb Hfuel Hlo Hhi; cbn [BinarySearchIf_loop].
  - assert (high = low) as -> by lia.
    exists false, low. split; [done|]. split; [lia|]. split; [done|]. auto.
  - destruct (Nat.eqb_spec high low) as [->|Hne].
    { exists false, low. split; [done|]. split; [lia|]. split; [done|]. auto. }
    assert ((high - low) / 2 < high - low)%nat by (apply Nat.div_lt; lia).
    set (d := ((high - low) / 2)%nat) in *. clearbody d.
    set (middle := (low + d)%nat) in *.
    assert (low ≤ middle < high)%nat by (unfold middle; lia).
    clearbody middle.
    unfold_outcome.
    destruct (lookup_lt_is_Some_2 c middle) as [x Hx]; [lia|]. rewrite Hx.
    destruct (Z.eqb_spec (f x) 0) as [Hz|Hz].
    + exists true, middle. split; [done|]. split; [lia|]. split; [eauto|done].
    + destruct (Z.ltb_spec (f x) 0) as [Hneg|Hpos].
      * destruct (IH low middle) as (fd & m & -> & ? & ? & ?); [lia|lia|exact Hlo| |].
        { intros i y Hi Hy. eapply (Hup middle i); eauto. }
        exists fd, m. split; [done|]. split; [lia|]. split; assumption.
      * destruct (IH (middle + 1)%nat high) as (fd & m & -> & ? & ? & ?);
          [lia|lia| |exact Hhi|].
        { intros i y Hi Hy. eapply (Hdown i middle); eauto; lia. }
        exists fd, m. split; [done|]. split; [lia|]. split; assumption.
Qed.

(** ** The stable sort *)

Lemma MergeSort_insert_Permutation {A} (le : A -> A -> bool) x l :
  Permutation (MergeSort_insert le x l) (x :: l).
Proof.
  induction l as [|y l IH]; simpl; [done|].
  destruct (le x y); [done|]. rewrite IH. apply perm_swap.
Qed.

Lemma MergeSort_Permutation {A} (le : A -> A -> bool) l :
  Permutation (MergeSort le l) l.
Proof.
  induction l as [|x l IH]; simpl; [done|].
  rewrite MergeSort_insert_Permutation. by constructor.
Qed.

Section SortedByKey.

Context {A : Type} (key : A -> Z).

Lemma MergeSort_insert_sorted x l :
  Sorted (fun a b => key a ≤ key b) l ->
  Sorted (fun a b => key a ≤ key b) (MergeSort_insert (keyLe key) x l).
Proof.
  induction 1 as [|y l Hs IH Hhd]; simpl.
  - repeat constructor.
  - unfold keyLe at 1. destruct (Z.leb_spec (key x) (key y)).
    + constructor; [by constructor|]. by constructor.
    + constructor; [exact IH|].
      destruct l as [|z l]; simpl.
      * constructor. lia.
      * unfold keyLe. inversion Hhd; subst.
        destruct (Z.leb_spec (key x) (key z)); constructor; lia.
Qed.

Lemma MergeSort_sorted l :
  Sorted (fun a b => key a ≤ key b) (MergeSort (keyLe key) l).
Proof.
  induction l as [|x l IH]; simpl; [constructor|].
  by apply MergeSort_insert_sorted.
Qed.

End SortedByKey.

Lemma Sorted_key_lookup {A} (key : A -> Z) (l : list A) i j x y :
  Sorted (fun a b => key a ≤ key b) l ->
  (i ≤ j)%nat -> l !! i = Some x -> l !! j = Some y -> key x ≤ key y.
Proof.
  intros Hs. apply Sorted_StronglySorted in Hs; [|intros a b c; lia].
  revert i j. induction Hs as [|a l Hs IH Hall]; intros i j Hij Hi Hj; [done|].
  destruct i as [|i], j as [|j]; simpl in *.
  - inversion Hi; inversion Hj; subst. lia.
  - inversion Hi; subst. rewrite Forall_forall in Hall.
    apply Hall. by eapply list_elem_of_lookup_2.
  - lia.
  - eapply (IH i j); [lia|done..].
Qed.

(** ** The offset-sorted index *)

Lemma buildSortedIndices_Permutation exprlocs :
  Permutation (buildSortedIndices exprlocs) (seq 0 (length exprlocs)).
Proof. apply MergeSort_Permutation. Qed.

Lemma buildSortedIndices_length exprlocs :
  length (buildSortedIndices exprlocs) = length exprlocs.
Proof.
  rewrite (Permutation_length (buildSortedIndices_Permutation exprlocs)).
  apply length_seq.
Qed.

Lemma buildSortedIndices_elem exprlocs i :
  i ∈ buildSortedIndices exprlocs ↔ (i < length exprlocs)%nat.
Proof.
  rewrite (buildSortedIndices_Permutation exprlocs), list_elem_of_In, in_seq. lia.
Qed.

Lemma buildSortedIndices_sorted exprlocs :
  Sorted (fun i j => offsetAt exprlocs i ≤ offsetAt exprlocs j)
         (buildSortedIndices exprlocs).
Proof. apply (MergeSort_sorted (offsetAt exprlocs)). Qed.

Lemma lookupFn_Returns exprlocs offset i loc :
  exprlocs !! i = Some loc ->
  lookupFn exprlocs offset i
  = Returns (if offset =? loc_offset loc then 0
             else if offset <? loc_offset loc then -1 else 1).
Proof. intros H. unfold lookupFn, vec_at. by rewrite H. Qed.

Lemma BinarySearchIf_loop_ext {A} (c : list A) cmp cmp' fuel low high :
  (∀ x, x ∈ c -> cmp x = cmp' x) ->
  BinarySearchIf_loop c cmp fuel low high = BinarySearchIf_loop c cmp' fuel low high.
Proof.
  intros H. revert low high. induction fuel as [|fuel IH]; intros low high;
    cbn [BinarySearchIf_loop]; [done|].
  destruct (high =? low)%nat; [done|]. unfold_outcome.
  destruct (c !! _) as [x|] eqn:Hx; [|done].
  rewrite (H x) by (by eapply list_elem_of_lookup_2).
  destruct (cmp' x); [|done]. by rewrite !IH.
Qed.

Lemma GeneratedSourceMap_eta sm :
  {| exprlocs_ := exprlocs_ sm;
     sortedByOffsetExprLocIndices_ := sortedByOffsetExprLocIndices_ sm;
     totalLines_ := totalLines_ sm |} = sm.
Proof. by destruct sm. Qed.

(** C4.  On a non-empty map whose index is built, or can be built (the
    allocation succeeds), [searchLineByOffset] returns an index into the
    [ExprLoc] sequence, for every queried offset; and when the offset is above
    every recorded one the index is the last of the offset-sorted order, an
    entry of greatest offset. *)
Theorem searchLineByOffset_clamps cx sm offset :
  exprlocs_ sm <> [] ->
  sortedByOffsetExprLocIndices_ sm = Some (buildSortedIndices (exprlocs_ sm))
  ∨ (sortedByOffsetExprLocIndices_ sm = None ∧ cx_oom cx = false) ->
  ∃ exprlocIndex,
    searchLineByOffset cx sm offset = Returns (withSortedIndices sm, Some exprlocIndex)
    ∧ (exprlocIndex < length (exprlocs_ sm))%nat
    ∧ ((∀ loc, loc ∈ exprlocs_ sm -> loc_offset loc < offset) ->
       last (buildSortedIndices (exprlocs_ sm)) = Some exprlocIndex
       ∧ ∀ loc, loc ∈ exprlocs_ sm ->
                loc_offset loc ≤ offsetAt (exprlocs_ sm) exprlocIndex).
Proof.
  intros Hne Hidx.
  set (n := length (exprlocs_ sm)).
  set (sorted := buildSortedIndices (exprlocs_ sm)).
  assert (0 < n)%nat as Hn by (unfold n; destruct (exprlocs_ sm); simpl; [done|lia]).
  assert (length sorted = n) as Hlen by apply buildSortedIndices_length.
  assert (∀ i, i ∈ sorted -> ∃ r, lookupFn (exprlocs_ sm) offset i = Returns r) as Hcmp.
  { intros i Hi. apply buildSortedIndices_elem in Hi.
    destruct (lookup_lt_is_Some_2 _ _ Hi) as [loc Hloc].
    rewrite (lookupFn_Returns _ _ _ _ Hloc). eauto. }
  assert (searchLineByOffset cx sm offset
          = (r ← BinarySearchIf sorted 0 n (lookupFn (exprlocs_ sm) offset);
             let match_ := if (n <=? r.2)%nat then (n - 1)%nat else r.2 in
             vec_at sorted match_ (fun exprlocIndex =>
               Returns (withSortedIndices sm, Some exprlocIndex)))) as ->.
  { unfold searchLineByOffset, MOZ_ASSERT.
    rewrite (bool_decide_eq_false_2 _ Hne). simpl negb. cbv iota zeta.
    destruct Hidx as [Hb|[Hb Hoom]]; rewrite Hb.
    - simpl. rewrite Hb. simpl.
      replace (withSortedIndices sm) with sm; [done|].
      unfold withSortedIndices. rewrite <- Hb. symmetry. apply GeneratedSourceMap_eta.
    - rewrite Hoom. reflexivity. }
  unfold BinarySearchIf, MOZ_ASSERT. simpl (0 <=? n)%nat. cbv iota.
  destruct (BinarySearchIf_loop_bounds sorted (lookupFn (exprlocs_ sm) offset)
              (n - 0) 0 n) as (found & m & Hloop & Hm); [lia|exact Hcmp|].
  rewrite Hloop. unfold mbind, outcome_bind. cbv zeta. simpl snd.
  set (match_ := if (n <=? m)%nat then (n - 1)%nat else m).
  assert (match_ < n)%nat as Hmatch.
  { unfold match_. destruct (Nat.leb_spec n m); lia. }
  destruct (lookup_lt_is_Some_2 sorted match_) as [idx Hidx']; [lia|].
  unfold vec_at. rewrite Hidx'. exists idx. split; [done|].
  split; [apply buildSortedIndices_elem; by eapply list_elem_of_lookup_2|].
  intros Habove.
  assert (m = n) as ->.
  { rewrite (BinarySearchIf_loop_ext _ _ (fun _ => Returns 1)) in Hloop.
    - destruct (BinarySearchIf_loop_spec sorted (fun _ => 1) (n - 0) 0 n)
        as (found' & m' & Hloop' & Hm' & Hfound & Hnot);
        [intros; lia | intros; lia | lia | lia | intros; lia | |].
      { intros i x Hi Hx. apply lookup_lt_Some in Hx. lia. }
      rewrite Hloop' in Hloop. inversion Hloop; subst found' m'.
      destruct found; [by destruct Hfound as (? & _ & ?)|].
      destruct (Hnot eq_refl) as [_ Hhi].
      destruct (decide (m < n)%nat) as [Hlt|]; [|lia].
      destruct (lookup_lt_is_Some_2 sorted m) as [x Hx]; [lia|].
      specialize (Hhi m x (le_n _) Hx). lia.
    - intros i Hi. apply buildSortedIndices_elem in Hi.
      destruct (lookup_lt_is_Some_2 _ _ Hi) as [loc Hloc].
      rewrite (lookupFn_Returns _ _ _ _ Hloc).
      specialize (Habove loc (list_elem_of_lookup_2 _ _ _ Hloc)).
      destruct (Z.eqb_spec offset (loc_offset loc)); [lia|].
      destruct (Z.ltb_spec offset (loc_offset loc)); [lia|done]. }
  assert (match_ = (n - 1)%nat) as Hlast.
  { unfold match_. by rewrite Nat.leb_refl. }
  split.
  - rewrite last_lookup, Hlen. replace (pred n) with (n - 1)%nat by lia.
    by rewrite <- Hlast.
  - intros loc Hloc. apply list_elem_of_lookup in Hloc as [k Hk].
    assert (k ∈ sorted) as Hks.
    { apply buildSortedIndices_elem. by eapply lookup_lt_Some. }
    apply list_elem_of_lookup in Hks as [p Hp].
    assert (p < n)%nat by (rewrite <- Hlen; by eapply lookup_lt_Some).
    pose proof (Sorted_key_lookup (offsetAt (exprlocs_ sm)) sorted p match_ k idx
                  (buildSortedIndices_sorted _) ltac:(lia) Hp Hidx') as Hle.
    unfold offsetAt at 1 in Hle. rewrite Hk in Hle. exact Hle.
Qed.

Lemma searchLineByOffset_clamps_witness :
  exprlocs_ sourceMap_example <> []
  ∧ ∃ exprlocIndex,
      searchLineByOffset cx_ok sourceMap_example 100
      = Returns (withSortedIndices sourceMap_example, Some exprlocIndex)
      ∧ (exprlocIndex < length (exprlocs_ sourceMap_example))%nat
      ∧ ((∀ loc, loc ∈ exprlocs_ sourceMap_example -> loc_offset loc < 100) ->
         last (buildSortedIndices (exprlocs_ sourceMap_example)) = Some exprlocIndex
         ∧ ∀ loc, loc ∈ exprlocs_ sourceMap_example ->
                  loc_offset loc ≤ offsetAt (exprlocs_ sourceMap_example) exprlocIndex).
Proof.
  split; [discriminate|].
  apply (searchLineByOffset_clamps cx_ok sourceMap_example 100);
    [discriminate | right; split; reflexivity].
Defined.

(** The clamp at work: offsets sort as 3, 5, 9, i.e. indices 1, 0, 2; an
    offset above all of them gets index 2, one between two entries gets the
    entry at the insertion point. *)
Example searchLineByOffset_example :
  buildSortedIndices exprlocs_example = [1; 0; 2]%nat
  ∧ searchLineByOffset cx_ok sourceMap_example 100
    = Returns (withSortedIndices sourceMap_example, Some 2%nat)
  ∧ searchLineByOffset cx_ok sourceMap_example 4
    = Returns (withSortedIndices sourceMap_example, Some 0%nat)
  ∧ searchLineByOffset cx_failing sourceMap_example 4
    = Returns (sourceMap_example, None).
Proof. repeat split; reflexivity. Qed.

(** ** Offsets of a line *)


Lemma rewindMatch_spec exprlocs lineno match_ :
  (match_ ≤ length exprlocs)%nat ->
  ∃ first,
    rewindMatch exprlocs lineno match_ = Returns first
    ∧ (first ≤ match_)%nat
    ∧ (∀ i loc, (first ≤ i < match_)%nat -> exprlocs !! i = Some loc ->
                loc_lineno loc = lineno)
    ∧ (∀ loc, (0 < first)%nat -> exprlocs !! (first - 1)%nat = Some loc ->
              loc_lineno loc <> lineno).
Proof.
  induction match_ as [|m IH]; intros Hm; simpl.
  - exists 0%nat. split; [done|]. split; [lia|]. split; intros; lia.
  - unfold vec_at. destruct (lookup_lt_is_Some_2 exprlocs m) as [loc Hloc]; [lia|].
    rewrite Hloc. destruct (Z.eqb_spec (loc_lineno loc) lineno) as [He|Hne].
    + destruct IH as (first & -> & Hle & Hrange & Hbefore); [lia|].
      exists first. split; [done|]. split; [lia|]. split; [|done].
      intros i loc' Hi Hloc'. destruct (decide (i = m)) as [->|].
      * congruence.
      * eapply Hrange; [|done]. lia.
    + exists (S m). split; [done|]. split; [lia|]. split; [intros; lia|].
      intros loc' _ Hloc'. replace (S m - 1)%nat with m in Hloc' by lia. congruence.
Qed.






Section SourceMapQueries.

Variable BinaryToText : JSContext -> list Z -> Rendering.

Lemma ensureSourceMap_has_map cx ds :
  hasSourceMap ds = true -> ensureSourceMap BinaryToText cx ds = Returns (ds, true).
Proof. intros H. unfold ensureSourceMap. by rewrite H. Qed.

Lemma getLineOffsets_with_map cx ds sm lineno offsets :
  debugEnabled (metadata_ ds) = true ->
  maybeSourceMap_ ds = Some sm ->
  getLineOffsets BinaryToText cx ds lineno offsets
  = (r ← BinarySearchIf (exprlocs_ sm) 0 (length (exprlocs_ sm))
           (fun loc => Returns (LineComparator lineno loc));
     if negb r.1 then Returns (ds, true, offsets)
     else
       match_ ← rewindMatch (exprlocs_ sm) lineno r.2;
       let a := appendLineOffsets cx lineno (drop match_ (exprlocs_ sm)) offsets in
       Returns (ds, a.1, a.2)).
Proof.
  intros Hd Hsm. unfold getLineOffsets. rewrite Hd. simpl negb. cbv iota.
  rewrite ensureSourceMap_has_map by (unfold hasSourceMap; by rewrite Hsm).
  unfold mbind at 1, outcome_bind at 1. simpl. by rewrite Hsm.
Qed.



End SourceMapQueries.



(** ** What a call leaves untouched *)

Ltac cases_call H :=
  repeat (match type of H with
          | context [match ?x with _ => _ end] => destruct x eqn:?
          end; try discriminate H);
  simplify_eq; simpl in *.

Ltac crush_call H := cases_call H; repeat split; auto.

Lemma incrementStepModeCount_frame cx ds funcIndex ds' ok :
  incrementStepModeCount cx ds funcIndex = Returns (ds', ok) ->
  metadata_ ds' = metadata_ ds ∧ maybeBytecode_ ds' = maybeBytecode_ ds
  ∧ maybeSourceMap_ ds' = maybeSourceMap_ ds
  ∧ breakpointSites_ ds' = breakpointSites_ ds
  ∧ enterAndLeaveFrameTrapsCounter_ ds' = enterAndLeaveFrameTrapsCounter_ ds.
Proof.
  intros H. unfold incrementStepModeCount in H. unfold_outcome. cbv zeta in H.
  crush_call H.
Qed.

Lemma decrementStepModeCount_frame cx ds funcIndex ds' ok :
  decrementStepModeCount cx ds funcIndex = Returns (ds', ok) ->
  metadata_ ds' = metadata_ ds ∧ maybeBytecode_ ds' = maybeBytecode_ ds
  ∧ maybeSourceMap_ ds' = maybeSourceMap_ ds
  ∧ breakpointSites_ ds' = breakpointSites_ ds
  ∧ enterAndLeaveFrameTrapsCounter_ ds' = enterAndLeaveFrameTrapsCounter_ ds.
Proof.
  intros H. unfold decrementStepModeCount in H. unfold_outcome. cbv zeta in H.
  crush_call H.
Qed.

Lemma toggleBreakpointTrap_frame ds offset enabled ds' :
  toggleBreakpointTrap ds offset enabled = Returns ds' ->
  metadata_ ds' = metadata_ ds ∧ maybeBytecode_ ds' = maybeBytecode_ ds
  ∧ maybeSourceMap_ ds' = maybeSourceMap_ ds
  ∧ stepModeCounters_ ds' = stepModeCounters_ ds
  ∧ breakpointSites_ ds' = breakpointSites_ ds
  ∧ enterAndLeaveFrameTrapsCounter_ ds' = enterAndLeaveFrameTrapsCounter_ ds.
Proof.
  intros H. unfold toggleBreakpointTrap in H. unfold_outcome. cbv zeta in H.
  crush_call H.
Qed.

Lemma getOrCreateBreakpointSite_frame cx ds offset ds' site :
  getOrCreateBreakpointSite cx ds offset = (ds', site) ->
  metadata_ ds' = metadata_ ds ∧ maybeBytecode_ ds' = maybeBytecode_ ds
  ∧ maybeSourceMap_ ds' = maybeSourceMap_ ds
  ∧ code_ ds' = code_ ds
  ∧ stepModeCounters_ ds' = stepModeCounters_ ds
  ∧ enterAndLeaveFrameTrapsCounter_ ds' = enterAndLeaveFrameTrapsCounter_ ds.
Proof.
  intros H. unfold getOrCreateBreakpointSite in H.
  crush_call H.
Qed.

Lemma destroyBreakpointSite_frame ds offset ds' :
  destroyBreakpointSite ds offset = Returns ds' ->
  metadata_ ds' = metadata_ ds ∧ maybeBytecode_ ds' = maybeBytecode_ ds
  ∧ maybeSourceMap_ ds' = maybeSourceMap_ ds
  ∧ code_ ds' = code_ ds
  ∧ stepModeCounters_ ds' = stepModeCounters_ ds
  ∧ enterAndLeaveFrameTrapsCounter_ ds' = enterAndLeaveFrameTrapsCounter_ ds.
Proof.
  intros H. unfold destroyBreakpointSite in H.
  crush_call H.
Qed.

Lemma adjustEnterAndLeaveFrameTrapsState_frame cx ds enabled ds' :
  adjustEnterAndLeaveFrameTrapsState cx ds enabled = Returns ds' ->
  metadata_ ds' = metadata_ ds ∧ maybeBytecode_ ds' = maybeBytecode_ ds
  ∧ maybeSourceMap_ ds' = maybeSourceMap_ ds
  ∧ stepModeCounters_ ds' = stepModeCounters_ ds
  ∧ breakpointSites_ ds' = breakpointSites_ ds.
Proof.
  intros H. unfold adjustEnterAndLeaveFrameTrapsState in H. unfold_outcome.
  cbv zeta in H. crush_call H.
Qed.

(** ** The source map of a reachable state *)

Lemma searchLineByOffset_indexValid cx sm offset sm' exprlocIndex :
  searchLineByOffset cx sm offset = Returns (sm', exprlocIndex) ->
  indexValid sm -> indexValid sm'.
Proof.
  intros H Hvalid. unfold searchLineByOffset in H. unfold_outcome.
  destruct (negb (bool_decide (exprlocs_ sm = []))); [|done].
  destruct (sortedByOffsetExprLocIndices_ sm) as [sorted|] eqn:Hs.
  - cases_call H; exact Hvalid.
  - destruct (cx_oom cx).
    + by simplify_eq.
    + cases_call H. by right.
Qed.

Lemma keepsSource_same ds ds' :
  metadata_ ds' = metadata_ ds -> maybeBytecode_ ds' = maybeBytecode_ ds ->
  maybeSourceMap_ ds' = maybeSourceMap_ ds -> keepsSource ds ds'.
Proof.
  intros Hm Hb Hs. split; [done|]. split; [done|].
  unfold sourceMapInv. by rewrite Hs, Hb.
Qed.

Lemma keepsSource_with_sourceMap ds m :
  sourceMapInv (with_sourceMap ds (Some m)) -> keepsSource ds (with_sourceMap ds (Some m)).
Proof. intros H. split; [done|]. split; [done|]. by intros _. Qed.

Section SourceMapInvariant.

Variable BinaryToText : JSContext -> list Z -> Rendering.

Lemma createText_keeps cx ds ds' text :
  createText BinaryToText cx ds = Returns (ds', text) -> keepsSource ds ds'.
Proof.
  intros H. unfold createText in H. unfold_outcome.
  destruct (maybeBytecode_ ds) as [bytes|] eqn:Hb.
  - destruct (TooBig <? Z.of_nat (length bytes)) eqn:Hbig.
    + cases_call H; by apply keepsSource_same.
    + apply Z.ltb_ge in Hbig.
      cases_call H; try (by apply keepsSource_same);
        apply keepsSource_with_sourceMap; intros sm Hsm; simpl in Hsm; simplify_eq;
        (split; [exists bytes; by split|by left]).
  - cases_call H; by apply keepsSource_same.
Qed.

Lemma ensureSourceMap_keeps cx ds ds' ok :
  ensureSourceMap BinaryToText cx ds = Returns (ds', ok) -> keepsSource ds ds'.
Proof.
  intros H. unfold ensureSourceMap in H. unfold_outcome.
  destruct (hasSourceMap ds || negb (hasBytecode ds)).
  - simplify_eq. by apply keepsSource_same.
  - destruct (createText BinaryToText cx ds) as [[ds1 text]|] eqn:E; [|done].
    simplify_eq. simpl. by eapply createText_keeps.
Qed.

Lemma getLineOffsets_keeps cx ds lineno offsets ds' ok offsets' :
  getLineOffsets BinaryToText cx ds lineno offsets = Returns (ds', ok, offsets') ->
  keepsSource ds ds'.
Proof.
  intros H. unfold getLineOffsets in H. unfold_outcome.
  destruct (negb (debugEnabled (metadata_ ds))).
  { simplify_eq. by apply keepsSource_same. }
  destruct (ensureSourceMap BinaryToText cx ds) as [[ds1 ok1]|] eqn:E; [|done].
  apply ensureSourceMap_keeps in E. simpl in H.
  cases_call H; assumption.
Qed.

Lemma totalSourceLines_keeps cx ds ds' ok count :
  totalSourceLines BinaryToText cx ds = Returns (ds', ok, count) -> keepsSource ds ds'.
Proof.
  intros H. unfold totalSourceLines in H. unfold_outcome.
  destruct (negb (debugEnabled (metadata_ ds))).
  { simplify_eq. by apply keepsSource_same. }
  destruct (ensureSourceMap BinaryToText cx ds) as [[ds1 ok1]|] eqn:E; [|done].
  apply ensureSourceMap_keeps in E. simpl in H.
  cases_call H; assumption.
Qed.

Lemma getOffsetLocation_keeps cx ds offset ds' ok found :
  getOffsetLocation BinaryToText cx ds offset = Returns (ds', ok, found) ->
  keepsSource ds ds'.
Proof.
  intros H. unfold getOffsetLocation in H. unfold_outcome.
  destruct (negb (debugEnabled (metadata_ ds))).
  { simplify_eq. by apply keepsSource_same. }
  destruct (ensureSourceMap BinaryToText cx ds) as [[ds1 ok1]|] eqn:E; [|done].
  apply ensureSourceMap_keeps in E. simpl in H.
  destruct (negb ok1); [by simplify_eq|].
  destruct (maybeSourceMap_ ds1) as [sm|] eqn:Hsm; [|by simplify_eq].
  destruct (bool_decide (exprlocs_ sm = [])); [by simplify_eq|].
  destruct (searchLineByOffset cx sm offset) as [[sm' foundAt]|] eqn:Hsearch; [|done].
  simpl in H.
  assert (keepsSource ds (with_sourceMap ds1 (Some sm'))) as Hk.
  { destruct E as (Hm & Hb & Hinv). split; [done|]. split; [done|].
    intros Hi sm0 Hsm0. simpl in Hsm0. simplify_eq.
    destruct (Hinv Hi sm Hsm) as [Hbytes Hvalid]. split; [exact Hbytes|].
    by apply (searchLineByOffset_indexValid _ _ _ _ _ Hsearch). }
  cases_call H; assumption.
Qed.

Lemma step_keeps ds ds' : step BinaryToText ds ds' -> keepsSource ds ds'.
Proof.
  destruct 1 as [cx ds ds' text H|cx ds ds' ok H|cx ds l o ds' ok o' H
                |cx ds off ds' ok fd H|cx ds ds' ok n H|cx ds f ds' ok H
                |cx ds f ds' ok H|ds off en ds' H|cx ds off ds' site H
                |ds off ds' H|cx ds en ds' H].
  - by eapply createText_keeps.
  - by eapply ensureSourceMap_keeps.
  - by eapply getLineOffsets_keeps.
  - by eapply getOffsetLocation_keeps.
  - by eapply totalSourceLines_keeps.
  - apply incrementStepModeCount_frame in H as (? & ? & ? & _). by apply keepsSource_same.
  - apply decrementStepModeCount_frame in H as (? & ? & ? & _). by apply keepsSource_same.
  - apply toggleBreakpointTrap_frame in H as (? & ? & ? & _). by apply keepsSource_same.
  - apply getOrCreateBreakpointSite_frame in H as (? & ? & ? & _).
    by apply keepsSource_same.
  - apply destroyBreakpointSite_frame in H as (? & ? & ? & _). by apply keepsSource_same.
  - apply adjustEnterAndLeaveFrameTrapsState_frame in H as (? & ? & ? & _).
    by apply keepsSource_same.
Qed.

Lemma reachable_sourceMapInv ds : reachable BinaryToText ds -> sourceMapInv ds.
Proof.
  induction 1 as [code md bc ds H|ds ds' _ IH Hstep].
  - unfold DebugState_new, MOZ_ASSERT in H.
    destruct (implb _ _); [|done]. simplify_eq. by intros sm ?.
  - by apply (step_keeps _ _ Hstep).
Qed.

Lemma rtc_step_reachable ds ds' :
  reachable BinaryToText ds -> rtc (step BinaryToText) ds ds' ->
  reachable BinaryToText ds' ∧ maybeBytecode_ ds' = maybeBytecode_ ds
  ∧ metadata_ ds' = metadata_ ds.
Proof.
  intros Hr Hsteps. induction Hsteps as [ds|ds ds1 ds' Hstep _ IH]; [done|].
  destruct IH as (Hr' & Hb & Hm); [by eapply reachable_step|].
  destruct (step_keeps _ _ Hstep) as (Hm1 & Hb1 & _).
  split; [done|]. split; congruence.
Qed.

Lemma no_source_map_without_bytecode ds :
  sourceMapInv ds -> maybeBytecode_ ds = None -> maybeSourceMap_ ds = None.
Proof.
  intros Hinv Hb. destruct (maybeSourceMap_ ds) as [sm|] eqn:E; [|done].
  destruct (Hinv sm E) as [(bytes & Hbytes & _) _]. congruence.
Qed.

Lemma no_source_map_when_too_big ds bytes :
  sourceMapInv ds -> maybeBytecode_ ds = Some bytes ->
  TooBig < Z.of_nat (length bytes) -> maybeSourceMap_ ds = None.
Proof.
  intros Hinv Hb Hbig. destruct (maybeSourceMap_ ds) as [sm|] eqn:E; [|done].
  destruct (Hinv sm E) as [(bytes' & Hbytes & Hle) _]. simplify_eq. lia.
Qed.

(** C6, as the code has it.  In a reachable state without bytecode, now and
    after any further calls, there is no source map, [createText] returns the
    "developer tools" message when its allocation succeeds and [nullptr] when
    it fails, and [ensureSourceMap] and [getOffsetLocation] return normally,
    the latter with [found = false], whatever the allocator does.  In a
    reachable state whose bytecode is over the ceiling, now and after any
    further calls, there is no source map, [createText] returns the "too big"
    message when its allocation succeeds and [nullptr] when it fails,
    [ensureSourceMap] leaves the map unset and succeeds exactly when that
    allocation does, and [getOffsetLocation] never sets [found]: it returns
    normally unless debugging is enabled and the allocation fails, and then
    it reports the error. *)
Theorem unavailable_source_text ds ds' :
  reachable BinaryToText ds ->
  rtc (step BinaryToText) ds ds' ->
  (maybeBytecode_ ds = None ->
   maybeSourceMap_ ds' = None
   ∧ (∀ cx, createText BinaryToText cx ds'
            = Returns (ds', if cx_oom cx then None else Some enabledMessage))
   ∧ (∀ cx, ensureSourceMap BinaryToText cx ds' = Returns (ds', true))
   ∧ (∀ cx offset, getOffsetLocation BinaryToText cx ds' offset
                   = Returns (ds', true, None)))
  ∧ (∀ bytes, maybeBytecode_ ds = Some bytes -> TooBig < Z.of_nat (length bytes) ->
     maybeSourceMap_ ds' = None
     ∧ (∀ cx, createText BinaryToText cx ds'
              = Returns (ds', if cx_oom cx then None else Some tooBigMessage)
              ∧ ensureSourceMap BinaryToText cx ds' = Returns (ds', negb (cx_oom cx))
              ∧ ∀ offset,
                  getOffsetLocation BinaryToText cx ds' offset
                  = Returns (ds', negb (debugEnabled (metadata_ ds') && cx_oom cx),
                             None))).
Proof.
  intros Hr Hsteps.
  destruct (rtc_step_reachable _ _ Hr Hsteps) as (Hr' & Hb' & _).
  pose proof (reachable_sourceMapInv _ Hr') as Hinv.
  split.
  - intros Hb. rewrite <- Hb' in Hb.
    pose proof (no_source_map_without_bytecode _ Hinv Hb) as Hmap.
    split; [done|]. split; [|split].
    + intros cx. unfold createText, MOZ_ASSERT, hasSourceMap. rewrite Hb, Hmap.
      by destruct (cx_oom cx).
    + intros cx. unfold ensureSourceMap, hasSourceMap, hasBytecode.
      by rewrite Hb, Hmap.
    + intros cx offset. unfold getOffsetLocation, ensureSourceMap, hasSourceMap, hasBytecode.
      rewrite Hb, Hmap. simpl. destruct (negb _); [done|].
      unfold mbind, outcome_bind. simpl. by rewrite Hmap.
  - intros bytes Hb Hbig. rewrite <- Hb' in Hb.
    pose proof (no_source_map_when_too_big _ _ Hinv Hb Hbig) as Hmap.
    split; [done|]. intros cx.
    assert (createText BinaryToText cx ds'
            = Returns (ds', if cx_oom cx then None else Some tooBigMessage)) as Hct.
    { unfold createText, MOZ_ASSERT, hasSourceMap.
      rewrite Hb, Hmap, (proj2 (Z.ltb_lt _ _) Hbig). by destruct (cx_oom cx). }
    assert (ensureSourceMap BinaryToText cx ds' = Returns (ds', negb (cx_oom cx))) as Hens.
    { unfold ensureSourceMap, hasSourceMap, hasBytecode. rewrite Hb, Hmap. simpl.
      rewrite Hct. by destruct (cx_oom cx). }
    split; [done|]. split; [done|].
    intros offset. unfold getOffsetLocation. rewrite Hens.
    destruct (debugEnabled (metadata_ ds')); simpl; [|done].
    unfold mbind, outcome_bind. simpl.
    destruct (cx_oom cx); simpl; [done|by rewrite Hmap].
Qed.

End SourceMapInvariant.

Section BuiltSourceMap.

Variable BinaryToText : JSContext -> list Z -> Rendering.

(** The index of the map of a reachable state is valid, as
    [searchLineByOffset_clamps] assumes. *)
Lemma reachable_indexValid ds sm :
  reachable BinaryToText ds -> maybeSourceMap_ ds = Some sm -> indexValid sm.
Proof. intros Hr Hsm. by destruct (reachable_sourceMapInv _ _ Hr sm Hsm). Qed.

(** A successful build leaves a map whose entries are in line order, as
    [getLineOffsets_line_entries] assumes. *)
Lemma createText_builds_sorted cx ds bytes ds' text :
  maybeBytecode_ ds = Some bytes ->
  Z.of_nat (length bytes) ≤ TooBig ->
  createText BinaryToText cx ds = Returns (ds', Some text) ->
  ∃ sm, maybeSourceMap_ ds' = Some sm
        ∧ linesSorted 0 (exprlocs_ sm) = true
        ∧ sortedByOffsetExprLocIndices_ sm = None.
Proof.
  intros Hb Hle H. unfold createText in H. unfold_outcome. rewrite Hb in H.
  rewrite (proj2 (Z.ltb_ge _ _) Hle) in H.
  destruct (cx_oom cx); [done|].
  destruct (negb (render_ok (BinaryToText cx bytes))); [done|].
  destruct (linesSorted 0 (render_exprlocs (BinaryToText cx bytes))) eqn:Hsorted; [|done].
  simplify_eq. eexists. split; [reflexivity|]. by split.
Qed.

End BuiltSourceMap.

Lemma debugState_toobig_reachable BinaryToText :
  reachable BinaryToText debugState_toobig.
Proof.
  apply (reachable_new BinaryToText ∅ metadata_example
           (Some (repeat 0 (Z.to_nat (TooBig + 1))))).
  reflexivity.
Qed.

Lemma unavailable_source_text_witness :
  createText BinaryToText_example cx_ok debugState_toobig
  = Returns (debugState_toobig, Some tooBigMessage)
  ∧ ensureSourceMap BinaryToText_example cx_ok debugState_toobig
    = Returns (debugState_toobig, true)
  ∧ getOffsetLocation BinaryToText_example cx_ok debugState_toobig 20
    = Returns (debugState_toobig, true, None)
  ∧ ensureSourceMap BinaryToText_example cx_failing debugState_toobig
    = Returns (debugState_toobig, false).
Proof.
  destruct (unavailable_source_text BinaryToText_example debugState_toobig
              debugState_toobig) as [_ Hbig].
  - apply debugState_toobig_reachable.
  - apply rtc_refl.
  - destruct (Hbig _ eq_refl) as (_ & H); [vm_compute; reflexivity|].
    destruct (H cx_ok) as (Hct & Hens & Hloc).
    destruct (H cx_failing) as (_ & Hens' & _).
    split; [exact Hct|]. split; [exact Hens|]. split; [apply Hloc|exact Hens'].
Defined.

(** C6, counterexample.  The example module with bytecode one byte over the
    ceiling, as constructed: when the allocation of the "too big" message
    fails, [createText] returns [nullptr] and [getOffsetLocation] returns
    [false], an error and not a plain [found = false]. *)
Lemma getOffsetLocation_too_big_reports_error :
  DebugState_new ∅ metadata_example (Some (repeat 0 (Z.to_nat (TooBig + 1))))
  = Returns debugState_toobig
  ∧ createText BinaryToText_example cx_failing debugState_toobig
    = Returns (debugState_toobig, None)
  ∧ getOffsetLocation BinaryToText_example cx_failing debugState_toobig 20
    = Returns (debugState_toobig, false, None).
Proof. repeat split; reflexivity. Qed.

(** Without bytecode: the message, and a query that finds nothing, whatever
    the allocator does. *)
Example no_bytecode_example :
  DebugState_new ∅ metadata_nodebug None = Returns debugState_nobytecode
  ∧ createText BinaryToText_example cx_ok debugState_nobytecode
    = Returns (debugState_nobytecode, Some enabledMessage)
  ∧ getOffsetLocation BinaryToText_example cx_failing debugState_nobytecode 20
    = Returns (debugState_nobytecode, true, None).
Proof. repeat split; reflexivity. Qed.

Section EnsureSourceMap.

Variable BinaryToText : JSContext -> list Z -> Rendering.

Lemma ensureSourceMap_again cx ds ds' :
  ensureSourceMap BinaryToText cx ds = Returns (ds', true) ->
  ensureSourceMap BinaryToText cx ds' = Returns (ds', true).
Proof.
  intros H. unfold ensureSourceMap in *. unfold_outcome.
  destruct (hasSourceMap ds || negb (hasBytecode ds)) eqn:E.
  { simplify_eq. by rewrite E. }
  destruct (createText BinaryToText cx ds) as [[ds1 text]|] eqn:Hct; [|done].
  simpl in H. assert (ds1 = ds') as -> by congruence.
  assert (is_Some text) as [t ->].
  { destruct text; [eauto|]. by rewrite bool_decide_eq_false_2 in H by (by intros [? ?]). }
  clear H. unfold createText in Hct. unfold_outcome.
  destruct (maybeBytecode_ ds) as [bytes|] eqn:Hb.
  - destruct (TooBig <? Z.of_nat (length bytes)) eqn:Hbig.
    + cases_call Hct. rewrite E. unfold createText, MOZ_ASSERT.
      rewrite Hb, Hbig. by repeat match goal with H : _ = _ |- _ => rewrite H end.
    + cases_call Hct; reflexivity.
  - unfold hasBytecode in E. rewrite Hb in E. simpl in E. by rewrite orb_true_r in E.
Qed.

(** C7, as the code has it.  In a reachable state a source map exists only if
    bytecode was supplied and is within the size ceiling (debugging need not
    be enabled).  [ensureSourceMap] never replaces a map that exists.  After
    a successful call a second one with the same allocator succeeds and
    leaves the state, map included, as the first one left it; with any
    allocator it does so when a map exists or when no bytecode is over the
    ceiling.  Over the ceiling no map is ever stored, the first call leaves
    the state as it was, and every later call succeeds exactly when its own
    allocation of the message does.  Every call on a state without bytecode
    succeeds and changes nothing. *)
Theorem sourceMap_only_with_bytecode ds :
  reachable BinaryToText ds ->
  (hasSourceMap ds = true ->
   ∃ bytes, maybeBytecode_ ds = Some bytes ∧ Z.of_nat (length bytes) ≤ TooBig)
  ∧ (∀ cx ds', ensureSourceMap BinaryToText cx ds = Returns (ds', true) ->
               ensureSourceMap BinaryToText cx ds' = Returns (ds', true)
               ∧ (hasSourceMap ds' = true ->
                  ∀ cx', ensureSourceMap BinaryToText cx' ds' = Returns (ds', true))
               ∧ (hasSourceMap ds = true -> ds' = ds)
               ∧ ((∀ bytes, maybeBytecode_ ds = Some bytes ->
                            Z.of_nat (length bytes) ≤ TooBig) ->
                  ∀ cx', ensureSourceMap BinaryToText cx' ds' = Returns (ds', true))
               ∧ (∀ bytes, maybeBytecode_ ds = Some bytes ->
                           TooBig < Z.of_nat (length bytes) ->
                           ds' = ds ∧ hasSourceMap ds' = false
                           ∧ ∀ cx', ensureSourceMap BinaryToText cx' ds'
                                    = Returns (ds', negb (cx_oom cx'))))
  ∧ (maybeBytecode_ ds = None ->
     ∀ cx, ensureSourceMap BinaryToText cx ds = Returns (ds, true)).
Proof.
  intros Hr. pose proof (reachable_sourceMapInv _ _ Hr) as Hinv. split.
  { intros Hmap. unfold hasSourceMap in Hmap.
    destruct (maybeSourceMap_ ds) as [sm|] eqn:E; [|done].
    by destruct (Hinv sm E). }
  split.
  - intros cx ds' H. split; [by apply (ensureSourceMap_again cx ds)|].
    split; [intros Hmap cx'; by apply ensureSourceMap_has_map|].
    split.
    { intros Hmap. rewrite ensureSourceMap_has_map in H by done. congruence. }
    split.
    + intros Hsmall cx'.
      destruct (hasSourceMap ds) eqn:Hm.
      { rewrite ensureSourceMap_has_map in H by done.
        assert (ds' = ds) as -> by congruence. by apply ensureSourceMap_has_map. }
      unfold ensureSourceMap in H. rewrite Hm in H. unfold hasBytecode in H.
      destruct (maybeBytecode_ ds) as [bytes|] eqn:Hb; simpl in H.
      * destruct (createText BinaryToText cx ds) as [[ds1 text]|] eqn:Hct; [|done].
        unfold mbind, outcome_bind in H. simpl in H.
        assert (ds1 = ds') as -> by congruence.
        destruct text as [t|];
          [|by rewrite bool_decide_eq_false_2 in H by (by intros [? ?])].
        destruct (createText_builds_sorted BinaryToText cx ds bytes ds' t Hb
                    (Hsmall bytes eq_refl) Hct) as (sm & Hsm & _).
        apply ensureSourceMap_has_map. unfold hasSourceMap. by rewrite Hsm.
      * assert (ds' = ds) as -> by congruence.
        unfold ensureSourceMap, hasBytecode. rewrite Hb. simpl. by rewrite orb_true_r.
    + intros bytes Hb Hbig.
      pose proof (no_source_map_when_too_big _ _ Hinv Hb Hbig) as Hmap.
      assert (∀ c, ensureSourceMap BinaryToText c ds = Returns (ds, negb (cx_oom c)))
        as Hens.
      { intros c. unfold ensureSourceMap, hasSourceMap, hasBytecode.
        rewrite Hb, Hmap. simpl. unfold createText, MOZ_ASSERT, hasSourceMap.
        rewrite Hb, Hmap, (proj2 (Z.ltb_lt _ _) Hbig). by destruct (cx_oom c). }
      rewrite Hens in H. assert (ds' = ds) as -> by congruence.
      split; [done|]. split; [unfold hasSourceMap; by rewrite Hmap|]. exact Hens.
  - intros Hb cx. unfold ensureSourceMap, hasBytecode. rewrite Hb. simpl.
    by rewrite orb_true_r.
Qed.

End EnsureSourceMap.

Lemma debugState_nodebug_reachable BinaryToText :
  reachable BinaryToText debugState_nodebug.
Proof.
  apply (reachable_new BinaryToText ∅ metadata_nodebug (Some [0; 97; 115; 109])).
  reflexivity.
Qed.

(** C7, counterexample.  A module compiled without debugging may keep its
    bytecode (the constructor asserts only that a debug-enabled module has
    it); [createText] then builds a source map, so a reachable state has a
    map although debugging is not enabled. *)
Lemma sourceMap_without_debugging :
  DebugState_new ∅ metadata_nodebug (Some [0; 97; 115; 109]) = Returns debugState_nodebug
  ∧ createText BinaryToText_example cx_ok debugState_nodebug
    = Returns (with_sourceMap debugState_nodebug (Some sourceMap_example),
               Some "(module)"%string)
  ∧ reachable BinaryToText_example
      (with_sourceMap debugState_nodebug (Some sourceMap_example))
  ∧ hasSourceMap (with_sourceMap debugState_nodebug (Some sourceMap_example)) = true
  ∧ debugEnabled (metadata_ (with_sourceMap debugState_nodebug (Some sourceMap_example)))
    = false.
Proof.
  split; [reflexivity|]. split; [reflexivity|]. split; [|split; reflexivity].
  eapply reachable_step; [apply debugState_nodebug_reachable|].
  by eapply (step_createText _ cx_ok).
Qed.

Lemma debugState_built_reachable :
  reachable BinaryToText_example debugState_built.
Proof.
  eapply reachable_step.
  - apply (reachable_new BinaryToText_example ∅ metadata_example (Some [0; 97; 115; 109])).
    reflexivity.
  - by eapply (step_ensureSourceMap _ cx_ok debugState_example).
Qed.

Lemma sourceMap_only_with_bytecode_witness :
  hasSourceMap debugState_built = true
  ∧ (∃ bytes, maybeBytecode_ debugState_built = Some bytes
              ∧ Z.of_nat (length bytes) ≤ TooBig)
  ∧ (∀ cx, ensureSourceMap BinaryToText_example cx debugState_built
           = Returns (debugState_built, true)).
Proof.
  destruct (sourceMap_only_with_bytecode BinaryToText_example debugState_built
              debugState_built_reachable) as (Hinv & Hidem & _).
  split; [reflexivity|]. split; [exact (Hinv eq_refl)|].
  destruct (Hidem cx_ok debugState_built eq_refl) as (_ & Hany & _).
  exact (Hany eq_refl).
Defined.

(** Over the ceiling a second call can fail after a first one succeeded: no
    map is stored, and the message is allocated again. *)
Example ensureSourceMap_too_big_second_call :
  ensureSourceMap BinaryToText_example cx_ok debugState_toobig
  = Returns (debugState_toobig, true)
  ∧ ensureSourceMap BinaryToText_example cx_failing debugState_toobig
    = Returns (debugState_toobig, false).
Proof. split; reflexivity. Qed.

(** ** Step mode *)

Lemma funcCodeRange_eq {B} md funcIndex codeRange (k : CodeRange -> outcome B) :
  funcRange md funcIndex codeRange -> funcCodeRange md funcIndex k = k codeRange.
Proof. intros (i & Hi & Hcr & _). unfold funcCodeRange, vec_at. by rewrite Hi, Hcr. Qed.

Lemma stepModeEnabled_false ds funcIndex :
  stepModeEnabled ds funcIndex = false -> countersOf ds !! funcIndex = None.
Proof.
  unfold stepModeEnabled, countersOf. destruct (stepModeCounters_ ds) as [c|]; simpl.
  - intros H. apply bool_decide_eq_false in H. destruct (c !! funcIndex); [|done].
    destruct H; eauto.
  - intros _. apply lookup_empty.
Qed.

Lemma patchable_toggles md codeRange en :
  patchable md codeRange ->
  Forall (fun callSite => isBreakpointSiteIn codeRange callSite = true ->
            returnAddressOffset callSite <> 0
            ∧ (en (returnAddressOffset callSite) = true ->
               debugTrapFarJumpOffsets md <> [])) (callSites md).
Proof.
  intros [Hfj Hall]. eapply Forall_impl; [exact Hall|]. simpl. intros cs H Hs.
  split; [by apply H|done].
Qed.

(** The first increment: the counter becomes 1 and every breakpoint-capable
    call site of the range is patched to call its far jump. *)
Lemma incrementStepModeCount_first cx ds funcIndex codeRange :
  debugEnabled (metadata_ ds) = true ->
  funcRange (metadata_ ds) funcIndex codeRange ->
  patchable (metadata_ ds) codeRange ->
  stepModeEnabled ds funcIndex = false ->
  cx_oom cx = false ->
  ∃ code,
    incrementStepModeCount cx ds funcIndex
    = Returns (steppingState ds funcIndex 1 code, true)
    ∧ ∀ off, code !! off
             = if selectedAt (isBreakpointSiteIn codeRange) (callSites (metadata_ ds)) off
               then Some (farJumpTarget (metadata_ ds) off)
               else code_ ds !! off.
Proof.
  intros Hd Hf Hp Hs Hoom.
  pose proof (stepModeEnabled_false _ _ Hs) as Hnone.
  destruct (forEachCallSite_toggle_Returns (metadata_ ds) (isBreakpointSiteIn codeRange)
              (fun _ => true) (callSites (metadata_ ds)) (code_ ds)
              (patchable_toggles _ _ _ Hp)) as [code Hcode].
  exists code. split.
  - unfold incrementStepModeCount. cbv zeta. unfold MOZ_ASSERT at 1. rewrite Hd.
    rewrite (funcCodeRange_eq _ _ _ _ Hf). destruct Hf as (_ & _ & _ & ->).
    unfold MOZ_ASSERT at 1.
    assert (initStepModeCounters cx ds = Some (countersOf ds)) as ->.
    { unfold initStepModeCounters, countersOf. rewrite Hoom.
      by destruct (stepModeCounters_ ds). }
    rewrite Hnone, Hoom.
    rewrite (forEachCallSite_ext _ _ _ _
               (incrementStepModeCount_body_toggle (metadata_ ds) codeRange)).
    simpl code_. rewrite Hcode. reflexivity.
  - intros off. by rewrite (forEachCallSite_toggle_lookup _ _ _ _ _ _ off Hcode).
Qed.

(** A later increment bumps the counter and nothing else. *)
Lemma incrementStepModeCount_more cx ds funcIndex codeRange counters value :
  debugEnabled (metadata_ ds) = true ->
  funcRange (metadata_ ds) funcIndex codeRange ->
  stepModeCounters_ ds = Some counters ->
  counters !! funcIndex = Some value ->
  0 < value ->
  incrementStepModeCount cx ds funcIndex
  = Returns (with_stepModeCounters ds (Some (<[funcIndex := u32 (value + 1)]> counters)),
             true).
Proof.
  intros Hd Hf Hc Hv Hpos.
  unfold incrementStepModeCount. cbv zeta. unfold MOZ_ASSERT at 1. rewrite Hd.
  rewrite (funcCodeRange_eq _ _ _ _ Hf). destruct Hf as (_ & _ & _ & ->).
  unfold MOZ_ASSERT at 1. unfold initStepModeCounters. rewrite Hc, Hv.
  unfold MOZ_ASSERT. by rewrite (proj2 (Z.ltb_lt _ _) Hpos).
Qed.

(** A decrement that leaves the counter nonzero changes the counter alone. *)
Lemma decrementStepModeCount_more cx ds funcIndex codeRange counters value :
  debugEnabled (metadata_ ds) = true ->
  funcRange (metadata_ ds) funcIndex codeRange ->
  stepModeCounters_ ds = Some counters ->
  counters !! funcIndex = Some value ->
  u32 (value - 1) <> 0 ->
  decrementStepModeCount cx ds funcIndex
  = Returns (with_stepModeCounters ds (Some (<[funcIndex := u32 (value - 1)]> counters)),
             true).
Proof.
  intros Hd Hf Hc Hv Hnz.
  unfold decrementStepModeCount. cbv zeta. unfold MOZ_ASSERT at 1. rewrite Hd.
  rewrite (funcCodeRange_eq _ _ _ _ Hf). destruct Hf as (_ & _ & _ & ->).
  unfold MOZ_ASSERT at 1. rewrite Hc. unfold MOZ_ASSERT.
  rewrite bool_decide_eq_false_2.
  - simpl. rewrite Hv. by rewrite (proj2 (Z.eqb_neq _ _) Hnz).
  - intros ->. by rewrite lookup_empty in Hv.
Qed.

(** The decrement that brings the counter to zero removes the entry and sets
    every breakpoint-capable call site of the range to what the lookup of its
    return address in [breakpointSites_] says. *)
Lemma decrementStepModeCount_last cx ds funcIndex codeRange counters value :
  debugEnabled (metadata_ ds) = true ->
  funcRange (metadata_ ds) funcIndex codeRange ->
  patchable (metadata_ ds) codeRange ->
  stepModeCounters_ ds = Some counters ->
  counters !! funcIndex = Some value ->
  u32 (value - 1) = 0 ->
  ∃ code,
    decrementStepModeCount cx ds funcIndex = Returns (steppedState ds funcIndex code, true)
    ∧ ∀ off, code !! off
             = if selectedAt (isBreakpointSiteIn codeRange) (callSites (metadata_ ds)) off
               then (if hasBreakpointSite ds off
                     then Some (farJumpTarget (metadata_ ds) off) else None)
               else code_ ds !! off.
Proof.
  intros Hd Hf Hp Hc Hv Hz.
  set (ds1 := with_stepModeCounters ds (Some (delete funcIndex counters))).
  destruct (forEachCallSite_toggle_Returns (metadata_ ds) (isBreakpointSiteIn codeRange)
              (hasBreakpointSite ds1) (callSites (metadata_ ds)) (code_ ds)
              (patchable_toggles _ _ _ Hp)) as [code Hcode].
  exists code. split.
  - unfold decrementStepModeCount. cbv zeta. unfold MOZ_ASSERT at 1. rewrite Hd.
    rewrite (funcCodeRange_eq _ _ _ _ Hf). destruct Hf as (_ & _ & _ & ->).
    unfold MOZ_ASSERT at 1. rewrite Hc. unfold MOZ_ASSERT.
    rewrite bool_decide_eq_false_2 by (intros ->; by rewrite lookup_empty in Hv).
    simpl negb. cbv iota. rewrite Hv, Hz. simpl negb. cbv iota.
    fold ds1.
    rewrite (forEachCallSite_ext _ _ _ _ (decrementStepModeCount_body_toggle ds1 codeRange)).
    change (metadata_ ds1) with (metadata_ ds). change (code_ ds1) with (code_ ds).
    rewrite Hcode. unfold steppedState, countersOf. by rewrite Hc.
  - intros off. by rewrite (forEachCallSite_toggle_lookup _ _ _ _ _ _ off Hcode).
Qed.

Lemma callN_app op n m ds :
  callN op (n + m) ds
  = match callN op n ds with
    | Returns (ds', true) => callN op m ds'
    | other => other
    end.
Proof.
  revert ds. induction n as [|n IH]; intros ds; simpl; [done|].
  destruct (op ds) as [[ds1 [|]]|]; [apply IH|done|done].
Qed.

Lemma steppingState_bump ds funcIndex count count' code :
  with_stepModeCounters (steppingState ds funcIndex count code)
    (Some (<[funcIndex := count']> (<[funcIndex := count]> (countersOf ds))))
  = steppingState ds funcIndex count' code.
Proof. unfold steppingState. simpl. by rewrite insert_insert_eq. Qed.

Lemma callN_incrementStepModeCount cx ds funcIndex codeRange code n count :
  debugEnabled (metadata_ ds) = true ->
  funcRange (metadata_ ds) funcIndex codeRange ->
  1 ≤ count -> count + Z.of_nat n < 2 ^ 32 ->
  callN (fun s => incrementStepModeCount cx s funcIndex) n
        (steppingState ds funcIndex count code)
  = Returns (steppingState ds funcIndex (count + Z.of_nat n) code, true).
Proof.
  intros Hd Hf. revert count. induction n as [|n IH]; intros count Hc Hn.
  - simpl. by rewrite Z.add_0_r.
  - cbn [callN].
    rewrite (incrementStepModeCount_more cx _ funcIndex codeRange
               (<[funcIndex := count]> (countersOf ds)) count);
      [|done|done|done|apply lookup_insert_eq|lia].
    unfold u32. rewrite Z.mod_small by lia. rewrite steppingState_bump.
    rewrite IH by lia. do 3 f_equal. lia.
Qed.

Lemma callN_decrementStepModeCount cx ds funcIndex codeRange code n count :
  debugEnabled (metadata_ ds) = true ->
  funcRange (metadata_ ds) funcIndex codeRange ->
  1 ≤ count -> count + Z.of_nat n < 2 ^ 32 ->
  callN (fun s => decrementStepModeCount cx s funcIndex) n
        (steppingState ds funcIndex (count + Z.of_nat n) code)
  = Returns (steppingState ds funcIndex count code, true).
Proof.
  intros Hd Hf Hc. induction n as [|n IH]; intros Hn.
  - simpl. by rewrite Z.add_0_r.
  - cbn [callN].
    assert (u32 (count + Z.of_nat (S n) - 1) = count + Z.of_nat n) as Hu.
    { unfold u32. rewrite Z.mod_small by lia. lia. }
    rewrite (decrementStepModeCount_more cx _ funcIndex codeRange
               (<[funcIndex := count + Z.of_nat (S n)]> (countersOf ds))
               (count + Z.of_nat (S n)));
      [|done|done|done|apply lookup_insert_eq|lia].
    rewrite Hu, steppingState_bump. apply IH. lia.
Qed.

Lemma siteEnabled_lookup ds callSite (o : option Z) :
  code_ ds !! returnAddressOffset callSite = o ->
  siteEnabled ds callSite = bool_decide (is_Some o).
Proof. apply trapEnabled_lookup. Qed.

Lemma selectedAt_member sel sites callSite :
  callSite ∈ sites -> sel callSite = true ->
  selectedAt sel sites (returnAddressOffset callSite) = true.
Proof. intros Hin Hsel. apply selectedAt_true. eauto. Qed.

(** X9.  What the code does for a balanced run (see C2 for where this falls
    short of restoring the traps).  From a state in which [funcIndex] has no
    step-mode counter, [N] increments ([1 <= N < 2^32], allocation succeeding)
    followed by [N] decrements all return with success.  Only the first
    increment and the last decrement patch code: the states in between differ
    in the counter alone, and in them every breakpoint-capable call site of
    the function's range is enabled.  At the end the counter is gone, every
    such site is enabled exactly when [breakpointSites_] holds its return
    address (the lookup [decrementStepModeCount] makes), and no other offset
    has changed; so the enabled states before the first increment are
    restored when they agreed with that lookup. *)
Theorem stepMode_balanced cx ds funcIndex codeRange (N : nat) :
  debugEnabled (metadata_ ds) = true ->
  funcRange (metadata_ ds) funcIndex codeRange ->
  patchable (metadata_ ds) codeRange ->
  stepModeEnabled ds funcIndex = false ->
  cx_oom cx = false ->
  (1 ≤ N)%nat -> Z.of_nat N < 2 ^ 32 ->
  ∃ first stepping penultimate final,
    incrementStepModeCount cx ds funcIndex = Returns (first, true)
    ∧ callN (fun s => incrementStepModeCount cx s funcIndex) N ds
      = Returns (stepping, true)
    ∧ callN (fun s => decrementStepModeCount cx s funcIndex) (N - 1) stepping
      = Returns (penultimate, true)
    ∧ decrementStepModeCount cx penultimate funcIndex = Returns (final, true)
    ∧ callN (fun s => decrementStepModeCount cx s funcIndex) N stepping
      = Returns (final, true)
    ∧ code_ stepping = code_ first ∧ code_ penultimate = code_ first
    ∧ stepModeEnabled stepping funcIndex = true
    ∧ stepModeEnabled final funcIndex = false
    ∧ breakpointSites_ final = breakpointSites_ ds
    ∧ (∀ callSite, callSite ∈ callSites (metadata_ ds) ->
                   isBreakpointSiteIn codeRange callSite = true ->
                   siteEnabled stepping callSite = true
                   ∧ siteEnabled final callSite
                     = hasBreakpointSite ds (returnAddressOffset callSite))
    ∧ (∀ off, selectedAt (isBreakpointSiteIn codeRange) (callSites (metadata_ ds)) off
              = false ->
              code_ final !! off = code_ ds !! off)
    ∧ ((∀ callSite, callSite ∈ callSites (metadata_ ds) ->
                    isBreakpointSiteIn codeRange callSite = true ->
                    siteEnabled ds callSite
                    = hasBreakpointSite ds (returnAddressOffset callSite)) ->
       ∀ callSite, callSite ∈ callSites (metadata_ ds) ->
                   isBreakpointSiteIn codeRange callSite = true ->
                   siteEnabled final callSite = siteEnabled ds callSite).
Proof.
  intros Hd Hf Hp Hs Hoom HN Hlt.
  destruct (incrementStepModeCount_first cx ds funcIndex codeRange Hd Hf Hp Hs Hoom)
    as (code1 & Hinc & Hcode1).
  set (stepping := steppingState ds funcIndex (1 + Z.of_nat (N - 1)) code1).
  set (penultimate := steppingState ds funcIndex 1 code1).
  destruct (decrementStepModeCount_last cx penultimate funcIndex codeRange
              (<[funcIndex := 1]> (countersOf ds)) 1)
    as (code2 & Hdec & Hcode2); [done|done|done|done|apply lookup_insert_eq|done|].
  assert (callN (fun s => incrementStepModeCount cx s funcIndex) N ds
          = Returns (stepping, true)) as HincN.
  { replace N with (S (N - 1)) at 1 by lia. cbn [callN]. rewrite Hinc.
    by apply (callN_incrementStepModeCount cx ds funcIndex codeRange); [..|lia|lia]. }
  assert (callN (fun s => decrementStepModeCount cx s funcIndex) (N - 1) stepping
          = Returns (penultimate, true)) as HdecN1.
  { by apply (callN_decrementStepModeCount cx ds funcIndex codeRange); [..|lia|lia]. }
  exists penultimate, stepping, penultimate, (steppedState penultimate funcIndex code2).
  split; [exact Hinc|]. split; [exact HincN|]. split; [exact HdecN1|].
  split; [exact Hdec|]. split.
  { replace N with (N - 1 + 1)%nat at 1 by lia. rewrite callN_app, HdecN1.
    cbn [callN]. by rewrite Hdec. }
  split; [reflexivity|]. split; [reflexivity|]. split.
  { unfold stepModeEnabled. simpl. apply bool_decide_eq_true.
    rewrite lookup_insert_eq. eauto. }
  split.
  { unfold stepModeEnabled. simpl. apply bool_decide_eq_false.
    unfold countersOf at 1. simpl. rewrite lookup_delete_eq. by intros [? ?]. }
  split; [reflexivity|]. split; [|split].
  - intros cs Hin Hsel. split.
    + rewrite (siteEnabled_lookup stepping cs (Some (farJumpTarget (metadata_ ds)
                                                      (returnAddressOffset cs)))).
      * apply bool_decide_eq_true. eauto.
      * simpl. rewrite Hcode1. by rewrite selectedAt_member.
    + rewrite (siteEnabled_lookup _ cs
                 (if hasBreakpointSite ds (returnAddressOffset cs)
                  then Some (farJumpTarget (metadata_ ds) (returnAddressOffset cs))
                  else None)).
      * destruct (hasBreakpointSite ds _);
          [apply bool_decide_eq_true; eauto|apply bool_decide_eq_false; by intros [? ?]].
      * simpl. rewrite Hcode2. simpl. by rewrite selectedAt_member.
  - intros off Hoff. simpl. rewrite Hcode2. simpl. rewrite Hoff.
    rewrite Hcode1. by rewrite Hoff.
  - intros Hagree cs Hin Hsel. rewrite (Hagree cs Hin Hsel).
    rewrite (siteEnabled_lookup _ cs
               (if hasBreakpointSite ds (returnAddressOffset cs)
                then Some (farJumpTarget (metadata_ ds) (returnAddressOffset cs))
                else None)).
    + destruct (hasBreakpointSite ds _);
        [apply bool_decide_eq_true; eauto|apply bool_decide_eq_false; by intros [? ?]].
    + simpl. rewrite Hcode2. simpl. by rewrite selectedAt_member.
Qed.

Lemma funcRange_example : funcRange metadata_example 0 codeRange_example.
Proof. exists 0%nat. repeat split. Qed.

Lemma patchable_example : patchable metadata_example codeRange_example.
Proof. split; [discriminate|]. repeat constructor; discriminate. Qed.

Example stepMode_balanced_example :
  ∃ first stepping penultimate final,
    incrementStepModeCount cx_ok debugState_example 0 = Returns (first, true)
    ∧ callN (fun s => incrementStepModeCount cx_ok s 0) 2 debugState_example
      = Returns (stepping, true)
    ∧ callN (fun s => decrementStepModeCount cx_ok s 0) 1 stepping
      = Returns (penultimate, true)
    ∧ decrementStepModeCount cx_ok penultimate 0 = Returns (final, true)
    ∧ callN (fun s => decrementStepModeCount cx_ok s 0) 2 stepping = Returns (final, true)
    ∧ code_ stepping = code_ first ∧ code_ penultimate = code_ first
    ∧ siteEnabled stepping breakpointSite_example = true
    ∧ siteEnabled final breakpointSite_example = siteEnabled debugState_example
                                                   breakpointSite_example.
Proof.
  destruct (stepMode_balanced cx_ok debugState_example 0 codeRange_example 2)
    as (first & stepping & penultimate & final & H1 & H2 & H3 & H4 & H5 & H6 & H7
        & _ & _ & _ & Hsites & _ & Hrestore);
    [reflexivity|apply funcRange_example|apply patchable_example|reflexivity
    |reflexivity|lia|reflexivity|].
  exists first, stepping, penultimate, final.
  do 7 (split; [assumption|]).
  assert (breakpointSite_example ∈ callSites (metadata_ debugState_example)) as Hin
    by (simpl; apply list_elem_of_further, list_elem_of_here).
  split.
  - by apply (Hsites breakpointSite_example Hin).
  - apply Hrestore; [|exact Hin|reflexivity].
    intros cs _ _. reflexivity.
Defined.

(** C2, at a failing input.  A breakpoint site is registered at bytecode
    position 7 (the offset [toggleBreakpointTrap] and
    [hasBreakpointTrapAtOffset] identify the call site by) and its trap, at
    return address 20, is switched on: the site is enabled before step mode.
    One increment and one decrement later it is disabled:
    [decrementStepModeCount] looks up [breakpointSites_] at the return address
    20, where nothing is registered, so the site's own breakpoint does not
    survive step mode. *)
Theorem stepMode_not_restored :
  ∃ armed stepping final,
    toggleBreakpointTrap (getOrCreateBreakpointSite cx_ok debugState_example 7).1 7 true
    = Returns armed
    ∧ hasBreakpointSite armed 7 = true
    ∧ siteEnabled armed breakpointSite_example = true
    ∧ callN (fun s => incrementStepModeCount cx_ok s 0) 1 armed = Returns (stepping, true)
    ∧ callN (fun s => decrementStepModeCount cx_ok s 0) 1 stepping = Returns (final, true)
    ∧ siteEnabled final breakpointSite_example = false.
Proof.
  eexists _, _, _.
  split; [reflexivity|]. split; [reflexivity|]. split; [reflexivity|].
  split; [reflexivity|]. split; [reflexivity|]. reflexivity.
Qed.

(** ** Breakpoint traps and step mode *)

(** C1, as the code has it.  With debugging enabled: [toggleBreakpointTrap]
    at the bytecode position of a breakpoint-capable call site returns; while
    the function that contains the site is in step mode it changes nothing,
    and otherwise it sets the trap at the site's return address to the
    requested state and changes no other offset.  The first
    [incrementStepModeCount] of a function enables every breakpoint-capable
    call site of its range, whether or not a breakpoint site exists.  The
    [decrementStepModeCount] that brings the counter to zero ends step mode
    and leaves each such site enabled exactly when [breakpointSites_]
    contains its offset (the return address). *)
Theorem breakpoint_trap_rules ds :
  debugEnabled (metadata_ ds) = true ->
  (∀ offset enabled callSite codeRange,
     SlowCallSiteSearchByOffset (metadata_ ds) offset = Some callSite ->
     lookupRange (metadata_ ds) (returnAddressOffset callSite) = Some codeRange ->
     isFunction codeRange = true ->
     returnAddressOffset callSite <> 0 ->
     debugTrapFarJumpOffsets (metadata_ ds) <> [] ->
     ∃ ds',
       toggleBreakpointTrap ds offset enabled = Returns ds'
       ∧ (stepModeEnabled ds (funcIndex codeRange) = true -> ds' = ds)
       ∧ (stepModeEnabled ds (funcIndex codeRange) = false ->
          siteEnabled ds' callSite = enabled
          ∧ ds' = with_code ds (code_ ds')
          ∧ ∀ off, off <> returnAddressOffset callSite ->
                   code_ ds' !! off = code_ ds !! off))
  ∧ (∀ cx funcIndex codeRange,
       funcRange (metadata_ ds) funcIndex codeRange ->
       patchable (metadata_ ds) codeRange ->
       stepModeEnabled ds funcIndex = false ->
       cx_oom cx = false ->
       ∃ ds',
         incrementStepModeCount cx ds funcIndex = Returns (ds', true)
         ∧ stepModeEnabled ds' funcIndex = true
         ∧ ∀ callSite, callSite ∈ callSites (metadata_ ds) ->
                       isBreakpointSiteIn codeRange callSite = true ->
                       siteEnabled ds' callSite = true)
  ∧ (∀ cx funcIndex codeRange counters value,
       funcRange (metadata_ ds) funcIndex codeRange ->
       patchable (metadata_ ds) codeRange ->
       stepModeCounters_ ds = Some counters ->
       counters !! funcIndex = Some value ->
       u32 (value - 1) = 0 ->
       ∃ ds',
         decrementStepModeCount cx ds funcIndex = Returns (ds', true)
         ∧ stepModeEnabled ds' funcIndex = false
         ∧ ∀ callSite, callSite ∈ callSites (metadata_ ds) ->
                       isBreakpointSiteIn codeRange callSite = true ->
                       siteEnabled ds' callSite
                       = hasBreakpointSite ds (returnAddressOffset callSite)).
Proof.
  intros Hd. split; [|split].
  - intros offset enabled cs cr Hcs Hcr Hfn Hoff Hfj.
    unfold toggleBreakpointTrap. cbv zeta. unfold MOZ_ASSERT at 1.
    rewrite Hd, Hcs, Hcr. unfold MOZ_ASSERT. rewrite Hfn.
    destruct (stepModeEnabled ds (funcIndex cr)) eqn:Hstep.
    + exists ds. split; [done|]. split; [done|]. intros; discriminate.
    + rewrite (toggleDebugTrap_Returns _ _ _ enabled Hoff (fun _ => Hfj)).
      unfold mbind, outcome_bind. eexists. split; [reflexivity|].
      split; [intros; discriminate|]. intros _. split; [|split; [reflexivity|]].
      * unfold siteEnabled, trapEnabled. simpl. destruct enabled.
        -- apply bool_decide_eq_true. rewrite lookup_insert_eq. eauto.
        -- apply bool_decide_eq_false. rewrite lookup_delete_eq. by intros [? ?].
      * intros off Hne. simpl.
        destruct enabled; [by rewrite lookup_insert_ne|by rewrite lookup_delete_ne].
  - intros cx f cr Hf Hp Hs Hoom.
    destruct (incrementStepModeCount_first cx ds f cr Hd Hf Hp Hs Hoom)
      as (code & Hinc & Hcode).
    eexists. split; [exact Hinc|]. split.
    + unfold stepModeEnabled. simpl. apply bool_decide_eq_true.
      rewrite lookup_insert_eq. eauto.
    + intros cs Hin Hsel.
      rewrite (siteEnabled_lookup _ cs (Some (farJumpTarget (metadata_ ds)
                                               (returnAddressOffset cs)))).
      * apply bool_decide_eq_true. eauto.
      * simpl. rewrite Hcode. by rewrite selectedAt_member.
  - intros cx f cr counters value Hf Hp Hc Hv Hz.
    destruct (decrementStepModeCount_last cx ds f cr counters value Hd Hf Hp Hc Hv Hz)
      as (code & Hdec & Hcode).
    eexists. split; [exact Hdec|]. split.
    + unfold stepModeEnabled. simpl. apply bool_decide_eq_false.
      rewrite lookup_delete_eq. by intros [? ?].
    + intros cs Hin Hsel.
      rewrite (siteEnabled_lookup _ cs
                 (if hasBreakpointSite ds (returnAddressOffset cs)
                  then Some (farJumpTarget (metadata_ ds) (returnAddressOffset cs))
                  else None)).
      * destruct (hasBreakpointSite ds _);
          [apply bool_decide_eq_true; eauto|apply bool_decide_eq_false; by intros [? ?]].
      * simpl. rewrite Hcode. by rewrite selectedAt_member.
Qed.

Lemma breakpoint_trap_rules_witness :
  ∃ ds',
    toggleBreakpointTrap debugState_example 7 true = Returns ds'
    ∧ siteEnabled ds' breakpointSite_example = true
    ∧ ∀ off, off <> 20 -> code_ ds' !! off = code_ debugState_example !! off.
Proof.
  destruct (breakpoint_trap_rules debugState_example eq_refl) as (Htoggle & _ & _).
  destruct (Htoggle 7 true breakpointSite_example codeRange_example)
    as (ds' & Hret & _ & Hoff); [reflexivity|reflexivity|reflexivity|discriminate
                                |discriminate|].
  destruct (Hoff eq_refl) as (Hen & _ & Hother).
  exists ds'. split; [exact Hret|]. split; [exact Hen|exact Hother].
Defined.

(** C1, counterexample.  After the first [incrementStepModeCount] of function
    0 the trap of its breakpoint-capable call site is enabled, although no
    breakpoint site exists at any offset and the function is in step mode:
    the trap is not "enabled iff a breakpoint site exists and the function is
    not in step mode". *)
Lemma stepMode_enables_without_breakpoint :
  ∃ stepping,
    DebugState_new ∅ metadata_example (Some [0; 97; 115; 109]) = Returns debugState_example
    ∧ incrementStepModeCount cx_ok debugState_example 0 = Returns (stepping, true)
    ∧ siteEnabled stepping breakpointSite_example = true
    ∧ stepModeEnabled stepping 0 = true
    ∧ breakpointSites_ stepping = None
    ∧ ¬ (siteEnabled stepping breakpointSite_example = true
         ↔ (hasBreakpointSite stepping (returnAddressOffset breakpointSite_example) = true
            ∧ stepModeEnabled stepping 0 = false)).
Proof.
  eexists. split; [reflexivity|]. split; [reflexivity|]. split; [reflexivity|].
  split; [reflexivity|]. split; [reflexivity|].
  intros [H _]. destruct (H eq_refl) as [? _]. discriminate.
Qed.

(** * Further properties of the code *)

(** ** The breakpoint site registry *)

Lemma with_breakpointSites_same ds :
  with_breakpointSites ds (breakpointSites_ ds) = ds.
Proof. by destruct ds. Qed.

Lemma hasBreakpointSite_with ds sites offset :
  hasBreakpointSite (with_breakpointSites ds (Some sites)) offset
  = bool_decide (is_Some (sites !! offset)).
Proof. reflexivity. Qed.

Lemma hasBreakpointSite_false ds offset :
  hasBreakpointSite ds offset = false ->
  ∀ sites, breakpointSites_ ds = Some sites -> sites !! offset = None.
Proof.
  unfold hasBreakpointSite. intros H sites Hs. rewrite Hs in H.
  apply bool_decide_eq_false in H. destruct (sites !! offset); [|done].
  destruct H; eauto.
Qed.

Lemma hasBreakpointSite_true ds offset :
  hasBreakpointSite ds offset = true ->
  ∃ sites site, breakpointSites_ ds = Some sites ∧ sites !! offset = Some site.
Proof.
  unfold hasBreakpointSite. destruct (breakpointSites_ ds) as [sites|]; [|done].
  intros H. apply bool_decide_eq_true in H as [site Hsite]. eauto.
Qed.

(** X1.  [getOrCreateBreakpointSite] succeeds when the allocator does or the
    site exists already: the offset then has a site (a fresh one carries the
    offset), no other offset gains or loses one, the code and the step-mode
    counters are untouched, and asking again, even with a failing allocator,
    returns the same site and changes nothing. *)
Theorem getOrCreateBreakpointSite_idempotent cx ds offset :
  cx_oom cx = false ∨ hasBreakpointSite ds offset = true ->
  ∃ ds' site,
    getOrCreateBreakpointSite cx ds offset = (ds', Some site)
    ∧ hasBreakpointSite ds' offset = true
    ∧ (hasBreakpointSite ds offset = false -> site_offset site = offset)
    ∧ (∀ other, other <> offset ->
                hasBreakpointSite ds' other = hasBreakpointSite ds other)
    ∧ (∀ cx', getOrCreateBreakpointSite cx' ds' offset = (ds', Some site))
    ∧ code_ ds' = code_ ds
    ∧ stepModeCounters_ ds' = stepModeCounters_ ds.
Proof.
  intros H. unfold getOrCreateBreakpointSite, initBreakpointSites.
  destruct (breakpointSites_ ds) as [sites|] eqn:Hs.
  - destruct (sites !! offset) as [site|] eqn:Hsite.
    + exists (with_breakpointSites ds (Some sites)), site.
      split; [done|]. split.
      { rewrite hasBreakpointSite_with, Hsite. apply bool_decide_eq_true. eauto. }
      split.
      { unfold hasBreakpointSite. rewrite Hs, Hsite. intros Hf.
        apply bool_decide_eq_false in Hf. destruct Hf; eauto. }
      split; [intros other _; unfold hasBreakpointSite; simpl; by rewrite Hs|].
      split; [|done]. intros cx'. simpl. by rewrite Hsite.
    + destruct H as [Hoom|Hhas].
      2:{ unfold hasBreakpointSite in Hhas. rewrite Hs, Hsite in Hhas.
          apply bool_decide_eq_true in Hhas as [? ?]. done. }
      rewrite Hoom.
      eexists _, _. split; [reflexivity|]. split.
      { rewrite hasBreakpointSite_with, lookup_insert_eq. apply bool_decide_eq_true. eauto. }
      split; [done|]. split.
      { intros other Hne. rewrite hasBreakpointSite_with.
        unfold hasBreakpointSite. rewrite Hs. by rewrite lookup_insert_ne. }
      split; [|done]. intros cx'. simpl. by rewrite lookup_insert_eq.
  - destruct H as [Hoom|Hhas].
    2:{ unfold hasBreakpointSite in Hhas. by rewrite Hs in Hhas. }
    rewrite Hoom, lookup_empty.
    eexists _, _. split; [reflexivity|]. split.
    { rewrite hasBreakpointSite_with, lookup_insert_eq. apply bool_decide_eq_true. eauto. }
    split; [done|]. split.
    { intros other Hne. rewrite hasBreakpointSite_with.
      unfold hasBreakpointSite. rewrite Hs. rewrite lookup_insert_ne by done.
      rewrite lookup_empty. apply bool_decide_eq_false. by intros [? ?]. }
    split; [|done]. intros cx'. simpl. by rewrite lookup_insert_eq.
Qed.

Lemma getOrCreateBreakpointSite_idempotent_witness :
  ∃ ds' site,
    getOrCreateBreakpointSite cx_ok debugState_example 7 = (ds', Some site)
    ∧ hasBreakpointSite ds' 7 = true
    ∧ getOrCreateBreakpointSite cx_failing ds' 7 = (ds', Some site).
Proof.
  destruct (getOrCreateBreakpointSite_idempotent cx_ok debugState_example 7)
    as (ds' & site & H1 & H2 & _ & _ & H5 & _); [by left|].
  exists ds', site. split; [exact H1|]. split; [exact H2|apply H5].
Defined.



(** X3.  Creating a site at a free offset and destroying it again leaves
    every offset as it was (the very state, when the registry was
    initialized); destroying it a second time fails the assertion on the
    missing entry. *)
Theorem breakpointSite_create_destroy cx ds offset :
  cx_oom cx = false ->
  hasBreakpointSite ds offset = false ->
  ∃ created site destroyed,
    getOrCreateBreakpointSite cx ds offset = (created, Some site)
    ∧ destroyBreakpointSite created offset = Returns destroyed
    ∧ (∀ other, hasBreakpointSite destroyed other = hasBreakpointSite ds other)
    ∧ (is_Some (breakpointSites_ ds) -> destroyed = ds)
    ∧ code_ destroyed = code_ ds
    ∧ destroyBreakpointSite destroyed offset = AssertionFailure.
Proof.
  intros Hoom Hno. unfold getOrCreateBreakpointSite, initBreakpointSites.
  rewrite Hoom.
  set (sites := default ∅ (breakpointSites_ ds)).
  assert (sites !! offset = None) as Hfree.
  { unfold sites. destruct (breakpointSites_ ds) as [s|] eqn:Hs; simpl.
    - by apply (hasBreakpointSite_false _ _ Hno).
    - apply lookup_empty. }
  assert (match breakpointSites_ ds with Some s => Some s | None => Some ∅ end
          = Some sites) as ->.
  { unfold sites. by destruct (breakpointSites_ ds). }
  rewrite Hfree.
  eexists _, _, (with_breakpointSites ds (Some sites)).
  split; [reflexivity|]. split.
  { unfold destroyBreakpointSite. simpl. rewrite lookup_insert_eq.
    by rewrite delete_insert_eq, delete_id. }
  split.
  { intros other. rewrite hasBreakpointSite_with. unfold hasBreakpointSite, sites.
    destruct (breakpointSites_ ds); simpl; [done|].
    rewrite lookup_empty. apply bool_decide_eq_false. by intros [? ?]. }
  split.
  { intros [s Hs]. unfold sites. rewrite Hs. simpl. rewrite <- Hs.
    apply with_breakpointSites_same. }
  split; [done|].
  unfold destroyBreakpointSite. simpl. by rewrite Hfree.
Qed.

Lemma breakpointSite_create_destroy_witness :
  ∃ created site destroyed,
    getOrCreateBreakpointSite cx_ok debugState_example 7 = (created, Some site)
    ∧ destroyBreakpointSite created 7 = Returns destroyed
    ∧ hasBreakpointSite destroyed 7 = false
    ∧ destroyBreakpointSite destroyed 7 = AssertionFailure.
Proof.
  destruct (breakpointSite_create_destroy cx_ok debugState_example 7)
    as (created & site & destroyed & H1 & H2 & H3 & _ & _ & H6);
    [reflexivity|reflexivity|].
  exists created, site, destroyed.
  split; [exact H1|]. split; [exact H2|]. split; [|exact H6].
  by rewrite H3.
Defined.

(** ** What the source-map calls leave alone *)

Lemma sameButSourceMap_refl ds : sameButSourceMap ds ds.
Proof. by repeat split. Qed.

Lemma sameButSourceMap_trans ds1 ds2 ds3 :
  sameButSourceMap ds1 ds2 -> sameButSourceMap ds2 ds3 -> sameButSourceMap ds1 ds3.
Proof.
  intros (? & ? & ? & ? & ? & ?) (? & ? & ? & ? & ? & ?).
  repeat split; congruence.
Qed.

Lemma sameButSourceMap_with ds m : sameButSourceMap ds (with_sourceMap ds m).
Proof. by repeat split. Qed.

Section SourceMapFrame.

Variable BinaryToText : JSContext -> list Z -> Rendering.

Lemma createText_frame cx ds ds' text :
  createText BinaryToText cx ds = Returns (ds', text) -> sameButSourceMap ds ds'.
Proof.
  intros H. unfold createText in H. unfold_outcome.
  cases_call H; first [apply sameButSourceMap_refl | apply sameButSourceMap_with].
Qed.

Lemma ensureSourceMap_frame cx ds ds' ok :
  ensureSourceMap BinaryToText cx ds = Returns (ds', ok) -> sameButSourceMap ds ds'.
Proof.
  intros H. unfold ensureSourceMap in H. unfold_outcome.
  destruct (hasSourceMap ds || negb (hasBytecode ds)).
  - simplify_eq. apply sameButSourceMap_refl.
  - destruct (createText BinaryToText cx ds) as [[ds1 text]|] eqn:E; [|done].
    simplify_eq. simpl. by eapply createText_frame.
Qed.

Lemma getLineOffsets_frame cx ds lineno offsets ds' ok offsets' :
  getLineOffsets BinaryToText cx ds lineno offsets = Returns (ds', ok, offsets') ->
  sameButSourceMap ds ds'.
Proof.
  intros H. unfold getLineOffsets in H. unfold_outcome.
  destruct (negb (debugEnabled (metadata_ ds))).
  { simplify_eq. apply sameButSourceMap_refl. }
  destruct (ensureSourceMap BinaryToText cx ds) as [[ds1 ok1]|] eqn:E; [|done].
  apply ensureSourceMap_frame in E. simpl in H.
  cases_call H; assumption.
Qed.

Lemma totalSourceLines_frame cx ds ds' ok count :
  totalSourceLines BinaryToText cx ds = Returns (ds', ok, count) ->
  sameButSourceMap ds ds'.
Proof.
  intros H. unfold totalSourceLines in H. unfold_outcome.
  destruct (negb (debugEnabled (metadata_ ds))).
  { simplify_eq. apply sameButSourceMap_refl. }
  destruct (ensureSourceMap BinaryToText cx ds) as [[ds1 ok1]|] eqn:E; [|done].
  apply ensureSourceMap_frame in E. simpl in H.
  cases_call H; assumption.
Qed.

Lemma getOffsetLocation_frame cx ds offset ds' ok found :
  getOffsetLocation BinaryToText cx ds offset = Returns (ds', ok, found) ->
  sameButSourceMap ds ds'.
Proof.
  intros H. unfold getOffsetLocation in H. unfold_outcome.
  destruct (negb (debugEnabled (metadata_ ds))).
  { simplify_eq. apply sameButSourceMap_refl. }
  destruct (ensureSourceMap BinaryToText cx ds) as [[ds1 ok1]|] eqn:E; [|done].
  apply ensureSourceMap_frame in E. simpl in H.
  cases_call H; try assumption;
    (eapply sameButSourceMap_trans; [exact E|apply sameButSourceMap_with]).
Qed.

(** X4.  The text and position calls ([createText], [ensureSourceMap],
    [getLineOffsets], [getOffsetLocation], [totalSourceLines]) change nothing
    but the source map: whenever one returns, the patched code, the step-mode
    counters, the breakpoint sites and the frame-trap counter are as
    before. *)
Theorem source_calls_patch_nothing :
  (∀ cx ds ds' text,
     createText BinaryToText cx ds = Returns (ds', text) -> sameButSourceMap ds ds')
  ∧ (∀ cx ds ds' ok,
       ensureSourceMap BinaryToText cx ds = Returns (ds', ok) -> sameButSourceMap ds ds')
  ∧ (∀ cx ds lineno offsets ds' ok offsets',
       getLineOffsets BinaryToText cx ds lineno offsets = Returns (ds', ok, offsets') ->
       sameButSourceMap ds ds')
  ∧ (∀ cx ds offset ds' ok found,
       getOffsetLocation BinaryToText cx ds offset = Returns (ds', ok, found) ->
       sameButSourceMap ds ds')
  ∧ (∀ cx ds ds' ok count,
       totalSourceLines BinaryToText cx ds = Returns (ds', ok, count) ->
       sameButSourceMap ds ds').
Proof.
  split; [exact createText_frame|]. split; [exact ensureSourceMap_frame|].
  split; [exact getLineOffsets_frame|]. split; [exact getOffsetLocation_frame|].
  exact totalSourceLines_frame.
Qed.

End SourceMapFrame.

(** ** Invariants of the registry and of the patched code *)

Lemma farJumpTarget_in md offset :
  debugTrapFarJumpOffsets md <> [] ->
  farJumpTarget md offset ∈ debugTrapFarJumpOffsets md.
Proof.
  intros Hne. unfold farJumpTarget.
  destruct (lookup_lt_is_Some_2 _ _ (farJumpIndex_lt offset _ Hne)) as [t Ht].
  rewrite Ht. simpl. by eapply list_elem_of_lookup_2.
Qed.

Lemma forEachCallSite_toggle_inv md sel en sites code code' :
  forEachCallSite (toggleBody md sel en) sites code = Returns code' ->
  ∀ callSite, callSite ∈ sites -> sel callSite = true ->
    returnAddressOffset callSite <> 0
    ∧ (en (returnAddressOffset callSite) = true -> debugTrapFarJumpOffsets md <> []).
Proof.
  revert code. induction sites as [|cs sites IH]; intros code H callSite Hin Hsel.
  - by apply elem_of_nil in Hin.
  - simpl in H. unfold mbind, outcome_bind in H.
    destruct (toggleBody md sel en cs code) as [code1|] eqn:E; [|done].
    apply elem_of_cons in Hin as [->|Hin]; [|by eapply IH].
    unfold toggleBody in E. rewrite Hsel in E.
    by apply toggleDebugTrap_inv in E as (? & ? & _).
Qed.

Lemma patchedBy_patchesInTable md sel en code code' :
  (∀ callSite, sel callSite = true -> isDebugSite callSite = true) ->
  patchedBy md sel en code code' ->
  patchesInTable md code -> patchesInTable md code'.
Proof.
  intros Hsel [->|Hloop] Hinv; [done|]. intros off target Hoff.
  rewrite (forEachCallSite_toggle_lookup _ _ _ _ _ _ off Hloop) in Hoff.
  destruct (selectedAt sel (callSites md) off) eqn:Hs; [|by apply Hinv].
  destruct (en off) eqn:Hen; [|done]. simplify_eq.
  apply selectedAt_true in Hs as (cs & Hin & Hcs & <-).
  destruct (forEachCallSite_toggle_inv _ _ _ _ _ _ Hloop cs Hin Hcs) as [Hnz Hfj].
  split; [done|]. split.
  - apply selectedAt_true. exists cs. auto.
  - apply farJumpTarget_in. by apply Hfj.
Qed.

Lemma isBreakpointSiteIn_debug codeRange callSite :
  isBreakpointSiteIn codeRange callSite = true -> isDebugSite callSite = true.
Proof.
  unfold isBreakpointSiteIn, isDebugSite. intros H. apply andb_true_iff in H as [Hk _].
  apply bool_decide_eq_true in Hk. rewrite Hk. reflexivity.
Qed.

Lemma isFrameSite_debug callSite :
  isFrameSite callSite = true -> isDebugSite callSite = true.
Proof.
  unfold isFrameSite, isDebugSite. intros H. apply orb_true_iff in H as [Hk|Hk];
    apply bool_decide_eq_true in Hk; rewrite Hk; reflexivity.
Qed.

Ltac fold_patch_loop :=
  repeat match goal with
  | Hf : forEachCallSite (incrementStepModeCount_body ?md ?cr) _ _ = _ |- _ =>
      rewrite (forEachCallSite_ext _ _ _ _ (incrementStepModeCount_body_toggle md cr)) in Hf
  | Hf : forEachCallSite (decrementStepModeCount_body ?ds ?cr) _ _ = _ |- _ =>
      rewrite (forEachCallSite_ext _ _ _ _ (decrementStepModeCount_body_toggle ds cr)) in Hf
  | Hf : forEachCallSite (adjustEnterAndLeaveFrameTrapsState_body ?md ?b) _ _ = _ |- _ =>
      rewrite (forEachCallSite_ext _ _ _ _
                 (adjustEnterAndLeaveFrameTrapsState_body_toggle md b)) in Hf
  end.

Lemma incrementStepModeCount_patchedBy cx ds funcIndex ds' ok :
  incrementStepModeCount cx ds funcIndex = Returns (ds', ok) ->
  ∃ codeRange, patchedBy (metadata_ ds) (isBreakpointSiteIn codeRange) (fun _ => true)
                         (code_ ds) (code_ ds').
Proof.
  intros H. unfold incrementStepModeCount in H. unfold_outcome. cbv zeta in H.
  cases_call H; fold_patch_loop;
    match goal with
    | c : CodeRange |- _ => exists c; first [by left | by right]
    end.
Qed.

Lemma decrementStepModeCount_patchedBy cx ds funcIndex ds' ok :
  decrementStepModeCount cx ds funcIndex = Returns (ds', ok) ->
  ∃ codeRange, patchedBy (metadata_ ds) (isBreakpointSiteIn codeRange)
                         (hasBreakpointSite ds) (code_ ds) (code_ ds').
Proof.
  intros H. unfold decrementStepModeCount in H. unfold_outcome. cbv zeta in H.
  cases_call H; fold_patch_loop;
    match goal with
    | c : CodeRange |- _ => exists c; first [by left | by right]
    end.
Qed.

Lemma adjustEnterAndLeaveFrameTrapsState_patchedBy cx ds enabled ds' :
  adjustEnterAndLeaveFrameTrapsState cx ds enabled = Returns ds' ->
  ∃ stillEnabled, patchedBy (metadata_ ds) isFrameSite (fun _ => stillEnabled)
                            (code_ ds) (code_ ds').
Proof.
  intros H. unfold adjustEnterAndLeaveFrameTrapsState in H. unfold_outcome.
  cbv zeta in H.
  cases_call H; fold_patch_loop;
    first [exists true; by left | eexists; by right].
Qed.

Lemma toggleBreakpointTrap_patchesInTable ds offset enabled ds' :
  toggleBreakpointTrap ds offset enabled = Returns ds' ->
  patchesInTable (metadata_ ds) (code_ ds) ->
  patchesInTable (metadata_ ds) (code_ ds').
Proof.
  intros H Hinv. unfold toggleBreakpointTrap in H. unfold_outcome. cbv zeta in H.
  destruct (debugEnabled (metadata_ ds)); [|done].
  destruct (SlowCallSiteSearchByOffset (metadata_ ds) offset) as [cs|] eqn:Hcs;
    [|by simplify_eq].
  destruct (lookupRange _ _) as [cr|]; [|done].
  destruct (isFunction cr); [|done].
  destruct (stepModeEnabled ds (funcIndex cr)); [by simplify_eq|].
  destruct (toggleDebugTrap _ _ _ _) as [code'|] eqn:Ht; [|done]. simplify_eq. simpl.
  apply toggleDebugTrap_inv in Ht as (Hnz & Hfj & ->).
  apply find_some in Hcs as [Hin Hb]. apply andb_true_iff in Hb as [_ Hk].
  apply bool_decide_eq_true in Hk. apply list_elem_of_In in Hin.
  intros off target Hoff. destruct enabled.
  - destruct (decide (off = returnAddressOffset cs)) as [->|Hne].
    + rewrite lookup_insert_eq in Hoff. simplify_eq. split; [done|]. split.
      * apply selectedAt_true. exists cs. unfold isDebugSite. by rewrite Hk.
      * by apply farJumpTarget_in, Hfj.
    + rewrite lookup_insert_ne in Hoff by done. by apply Hinv.
  - apply lookup_delete_Some in Hoff as [_ Hoff]. by apply Hinv.
Qed.

Section ReachableInvariants.

Variable BinaryToText : JSContext -> list Z -> Rendering.

Lemma step_metadata ds ds' : step BinaryToText ds ds' -> metadata_ ds' = metadata_ ds.
Proof. intros H. by destruct (step_keeps _ _ _ H) as (? & _). Qed.

Lemma step_patchesInTable ds ds' :
  step BinaryToText ds ds' ->
  patchesInTable (metadata_ ds) (code_ ds) ->
  patchesInTable (metadata_ ds') (code_ ds').
Proof.
  intros Hstep Hinv. rewrite (step_metadata _ _ Hstep).
  destruct Hstep as [cx ds ds' text H|cx ds ds' ok H|cx ds l o ds' ok o' H
                    |cx ds off ds' ok fd H|cx ds ds' ok n H|cx ds f ds' ok H
                    |cx ds f ds' ok H|ds off en ds' H|cx ds off ds' site H
                    |ds off ds' H|cx ds en ds' H].
  - apply createText_frame in H as (-> & _). done.
  - apply ensureSourceMap_frame in H as (-> & _). done.
  - apply getLineOffsets_frame in H as (-> & _). done.
  - apply getOffsetLocation_frame in H as (-> & _). done.
  - apply totalSourceLines_frame in H as (-> & _). done.
  - apply incrementStepModeCount_patchedBy in H as [cr H].
    eapply patchedBy_patchesInTable; [apply isBreakpointSiteIn_debug|exact H|done].
  - apply decrementStepModeCount_patchedBy in H as [cr H].
    eapply patchedBy_patchesInTable; [apply isBreakpointSiteIn_debug|exact H|done].
  - by eapply toggleBreakpointTrap_patchesInTable.
  - apply getOrCreateBreakpointSite_frame in H as (_ & _ & _ & -> & _). done.
  - apply destroyBreakpointSite_frame in H as (_ & _ & _ & -> & _). done.
  - apply adjustEnterAndLeaveFrameTrapsState_patchedBy in H as [b H].
    eapply patchedBy_patchesInTable; [apply isFrameSite_debug|exact H|done].
Qed.

(** X5.  Starting from unpatched code, whatever sequence of calls returns,
    every patched trap lies at the nonzero return address of a Breakpoint,
    EnterFrame or LeaveFrame call site and calls an entry of the far-jump
    table: the patcher never writes anywhere else and never targets an
    address outside the table. *)
Theorem patches_stay_in_table metadata maybeBytecode initial ds :
  DebugState_new ∅ metadata maybeBytecode = Returns initial ->
  rtc (step BinaryToText) initial ds ->
  patchesInTable (metadata_ ds) (code_ ds).
Proof.
  intros Hnew Hsteps.
  assert (patchesInTable (metadata_ initial) (code_ initial)) as Hinit.
  { unfold DebugState_new, MOZ_ASSERT in Hnew. destruct (implb _ _); [|done].
    simplify_eq. intros off target Hoff. simpl in Hoff. by rewrite lookup_empty in Hoff. }
  clear Hnew. induction Hsteps as [ds|ds ds1 ds' Hstep _ IH]; [done|].
  apply IH. by eapply step_patchesInTable.
Qed.

Lemma step_sitesKeyed ds ds' : step BinaryToText ds ds' -> sitesKeyed ds -> sitesKeyed ds'.
Proof.
  intros Hstep Hinv.
  assert (breakpointSites_ ds' = breakpointSites_ ds -> sitesKeyed ds') as Hsame.
  { intros Heq sites offset site Hs. rewrite Heq in Hs. by apply Hinv. }
  destruct Hstep as [cx ds ds' text H|cx ds ds' ok H|cx ds l o ds' ok o' H
                    |cx ds off ds' ok fd H|cx ds ds' ok n H|cx ds f ds' ok H
                    |cx ds f ds' ok H|ds off en ds' H|cx ds off ds' site H
                    |ds off ds' H|cx ds en ds' H].
  - apply createText_frame in H as (_ & _ & _ & _ & ? & _). auto.
  - apply ensureSourceMap_frame in H as (_ & _ & _ & _ & ? & _). auto.
  - apply getLineOffsets_frame in H as (_ & _ & _ & _ & ? & _). auto.
  - apply getOffsetLocation_frame in H as (_ & _ & _ & _ & ? & _). auto.
  - apply totalSourceLines_frame in H as (_ & _ & _ & _ & ? & _). auto.
  - apply incrementStepModeCount_frame in H as (_ & _ & _ & ? & _). auto.
  - apply decrementStepModeCount_frame in H as (_ & _ & _ & ? & _). auto.
  - apply toggleBreakpointTrap_frame in H as (_ & _ & _ & _ & ? & _). auto.
  - clear Hsame. unfold getOrCreateBreakpointSite, initBreakpointSites in H.
    intros sites offset s Hs Hlook.
    destruct (breakpointSites_ ds) as [old|] eqn:Hold.
    + destruct (old !! off) eqn:Hoff.
      * simplify_eq. simpl in Hs. simplify_eq. by eapply Hinv.
      * destruct (cx_oom cx); simplify_eq; simpl in Hs; simplify_eq.
        -- by eapply Hinv.
        -- destruct (decide (offset = off)) as [->|Hne].
           ++ rewrite lookup_insert_eq in Hlook. by simplify_eq.
           ++ rewrite lookup_insert_ne in Hlook by done. by eapply Hinv.
    + destruct (cx_oom cx).
      * by simplify_eq.
      * rewrite lookup_empty in H. simplify_eq. simpl in Hs. simplify_eq.
        destruct (decide (offset = off)) as [->|Hne].
        -- rewrite lookup_insert_eq in Hlook. by simplify_eq.
        -- rewrite lookup_insert_ne, lookup_empty in Hlook by done. done.
  - clear Hsame. unfold destroyBreakpointSite in H.
    destruct (breakpointSites_ ds) as [old|] eqn:Hold; [|done].
    destruct (old !! off); [|done]. simplify_eq.
    intros sites offset s Hs Hlook. simpl in Hs. simplify_eq.
    apply lookup_delete_Some in Hlook as [_ Hlook]. by eapply Hinv.
  - apply adjustEnterAndLeaveFrameTrapsState_frame in H as (_ & _ & _ & _ & ?). auto.
Qed.

(** X6.  In every reachable state each registered breakpoint site carries the
    offset it is registered under, so the offset a site hands back to
    [toggleBreakpointTrap] or [destroyBreakpointSite] is its own key. *)
Theorem reachable_sitesKeyed ds :
  reachable BinaryToText ds -> sitesKeyed ds.
Proof.
  induction 1 as [code md bc ds H|ds ds' _ IH Hstep].
  - unfold DebugState_new, MOZ_ASSERT in H. destruct (implb _ _); [|done].
    simplify_eq. intros sites offset site Hs. simpl in Hs. done.
  - by eapply step_sitesKeyed.
Qed.

End ReachableInvariants.

Lemma patches_stay_in_table_witness :
  ∃ ds,
    adjustEnterAndLeaveFrameTrapsState cx_ok debugState_example true = Returns ds
    ∧ patchesInTable (metadata_ ds) (code_ ds).
Proof.
  eexists. split; [reflexivity|].
  apply (patches_stay_in_table BinaryToText_example metadata_example
           (Some [0; 97; 115; 109]) debugState_example); [reflexivity|].
  apply rtc_once. by eapply (step_adjustEnterAndLeaveFrameTrapsState _ cx_ok _ true).
Defined.

Lemma reachable_sitesKeyed_witness :
  sitesKeyed (getOrCreateBreakpointSite cx_ok debugState_example 7).1.
Proof.
  apply (reachable_sitesKeyed BinaryToText_example).
  eapply reachable_step.
  - apply (reachable_new _ ∅ metadata_example (Some [0; 97; 115; 109])). reflexivity.
  - by eapply (step_getOrCreateBreakpointSite _ cx_ok _ 7).
Defined.

(** ** Toggling a trap *)

Lemma ascending_last_lookup (first : Z) rest :
  (first :: rest) !! length rest = Some (default first (last rest)).
Proof.
  destruct rest as [|x rest] using rev_ind; [done|].
  rewrite last_snoc. simpl. rewrite length_app. simpl.
  rewrite lookup_cons_ne_0 by lia.
  replace (pred (length rest + 1)) with (length rest) by lia.
  by rewrite list_lookup_middle.
Qed.

(** X7.  On a non-empty ascending far-jump table, enabling the trap at a
    nonzero offset returns and patches a call to the last entry when the
    offset is below the first entry, and to the first entry otherwise (so to
    the only entry of a one-entry table); disabling removes the call. *)
Theorem toggleDebugTrap_ascending md code offset first rest :
  debugTrapFarJumpOffsets md = first :: rest ->
  ascending (first :: rest) ->
  offset <> 0 ->
  toggleDebugTrap md code offset true
  = Returns (<[offset := if offset <? first then default first (last rest) else first]>
               code)
  ∧ toggleDebugTrap md code offset false = Returns (delete offset code).
Proof.
  intros Hfj Hasc Hnz. split.
  - rewrite toggleDebugTrap_Returns; [|done|by rewrite Hfj].
    do 2 f_equal. unfold farJumpTarget. rewrite Hfj.
    rewrite (farJumpIndex_ascending offset first rest Hasc).
    destruct (offset <? first); [|done].
    by rewrite ascending_last_lookup.
  - by rewrite toggleDebugTrap_Returns.
Qed.

Lemma toggleDebugTrap_ascending_witness :
  toggleDebugTrap metadata_example ∅ 45 true = Returns (<[45 := 40]> ∅)
  ∧ toggleDebugTrap metadata_example ∅ 45 false = Returns (delete 45 ∅).
Proof.
  apply (toggleDebugTrap_ascending metadata_example ∅ 45 40 [50; 60]);
    [reflexivity|repeat constructor; lia|discriminate].
Defined.

Lemma with_code_same ds : with_code ds (code_ ds) = ds.
Proof. by destruct ds. Qed.

Lemma toggleBreakpointTrap_eq ds offset enabled callSite codeRange :
  debugEnabled (metadata_ ds) = true ->
  SlowCallSiteSearchByOffset (metadata_ ds) offset = Some callSite ->
  lookupRange (metadata_ ds) (returnAddressOffset callSite) = Some codeRange ->
  isFunction codeRange = true ->
  stepModeEnabled ds (funcIndex codeRange) = false ->
  returnAddressOffset callSite <> 0 ->
  debugTrapFarJumpOffsets (metadata_ ds) <> [] ->
  toggleBreakpointTrap ds offset enabled
  = Returns (with_code ds
               (if enabled
                then <[returnAddressOffset callSite
                       := farJumpTarget (metadata_ ds) (returnAddressOffset callSite)]>
                       (code_ ds)
                else delete (returnAddressOffset callSite) (code_ ds))).
Proof.
  intros Hd Hcs Hcr Hfn Hstep Hnz Hfj.
  unfold toggleBreakpointTrap. cbv zeta. unfold MOZ_ASSERT at 1.
  rewrite Hd, Hcs, Hcr. unfold MOZ_ASSERT. rewrite Hfn, Hstep.
  by rewrite (toggleDebugTrap_Returns _ _ _ enabled Hnz (fun _ => Hfj)).
Qed.

(** X8.  Outside step mode, switching a breakpoint trap on and then off
    leaves the site disabled and every other offset as it was (the very
    state, when the site was disabled to begin with); switching it on twice is
    the same as once, and so is switching it off twice. *)
Theorem toggleBreakpointTrap_round_trip ds offset callSite codeRange :
  debugEnabled (metadata_ ds) = true ->
  SlowCallSiteSearchByOffset (metadata_ ds) offset = Some callSite ->
  lookupRange (metadata_ ds) (returnAddressOffset callSite) = Some codeRange ->
  isFunction codeRange = true ->
  stepModeEnabled ds (funcIndex codeRange) = false ->
  returnAddressOffset callSite <> 0 ->
  debugTrapFarJumpOffsets (metadata_ ds) <> [] ->
  ∃ on off,
    toggleBreakpointTrap ds offset true = Returns on
    ∧ toggleBreakpointTrap on offset false = Returns off
    ∧ toggleBreakpointTrap on offset true = Returns on
    ∧ toggleBreakpointTrap off offset false = Returns off
    ∧ siteEnabled on callSite = true
    ∧ siteEnabled off callSite = false
    ∧ (∀ other, other <> returnAddressOffset callSite ->
                code_ off !! other = code_ ds !! other)
    ∧ (siteEnabled ds callSite = false -> off = ds).
Proof.
  intros Hd Hcs Hcr Hfn Hstep Hnz Hfj.
  set (trap := returnAddressOffset callSite) in *.
  set (target := farJumpTarget (metadata_ ds) trap).
  exists (with_code ds (<[trap := target]> (code_ ds))),
         (with_code ds (delete trap (code_ ds))).
  split; [by rewrite (toggleBreakpointTrap_eq ds offset true callSite codeRange)|].
  split.
  { rewrite (toggleBreakpointTrap_eq _ offset false callSite codeRange) by done.
    simpl. by rewrite delete_insert_eq. }
  split.
  { rewrite (toggleBreakpointTrap_eq _ offset true callSite codeRange) by done.
    simpl. fold trap target. by rewrite insert_insert_eq. }
  split.
  { rewrite (toggleBreakpointTrap_eq _ offset false callSite codeRange) by done.
    simpl. fold trap. by rewrite delete_delete_eq. }
  split.
  { unfold siteEnabled, trapEnabled. simpl. fold trap. rewrite lookup_insert_eq.
    apply bool_decide_eq_true. eauto. }
  split.
  { unfold siteEnabled, trapEnabled. simpl. fold trap. rewrite lookup_delete_eq.
    apply bool_decide_eq_false. by intros [? ?]. }
  split; [intros other Hne; simpl; by rewrite lookup_delete_ne|].
  intros Hoff. unfold siteEnabled, trapEnabled in Hoff. fold trap in Hoff.
  apply bool_decide_eq_false in Hoff.
  rewrite delete_id; [apply with_code_same|].
  destruct (code_ ds !! trap) eqn:E; [|done]. destruct Hoff; eauto.
Qed.

Lemma toggleBreakpointTrap_round_trip_witness :
  ∃ on off,
    toggleBreakpointTrap debugState_example 7 true = Returns on
    ∧ toggleBreakpointTrap on 7 false = Returns off
    ∧ siteEnabled on breakpointSite_example = true
    ∧ off = debugState_example.
Proof.
  destruct (toggleBreakpointTrap_round_trip debugState_example 7 breakpointSite_example
              codeRange_example)
    as (on & off & H1 & H2 & _ & _ & H5 & _ & _ & H8);
    [reflexivity|reflexivity|reflexivity|reflexivity|reflexivity|discriminate
    |discriminate|].
  exists on, off. split; [exact H1|]. split; [exact H2|]. split; [exact H5|].
  apply H8. reflexivity.
Defined.

(** ** Step mode: failures, other functions, and the counter's width *)




Lemma patchedBy_elsewhere md sel en code code' off :
  patchedBy md sel en code code' ->
  selectedAt sel (callSites md) off = false ->
  code' !! off = code !! off.
Proof.
  intros [->|Hloop] Hoff; [done|].
  by rewrite (forEachCallSite_toggle_lookup _ _ _ _ _ _ off Hloop), Hoff.
Qed.

Ltac other_function Hc :=
  let other := fresh "other" in
  let Hne := fresh "Hne" in
  intros other Hne; unfold stepModeEnabled; simpl; rewrite ?Hc;
  rewrite ?lookup_insert_ne, ?lookup_delete_ne, ?lookup_empty by done;
  first [done | apply bool_decide_eq_false; by intros [? ?]].

Lemma incrementStepModeCount_others cx ds funcIndex codeRange ds' ok :
  funcRange (metadata_ ds) funcIndex codeRange ->
  incrementStepModeCount cx ds funcIndex = Returns (ds', ok) ->
  (∀ other, other <> funcIndex -> stepModeEnabled ds' other = stepModeEnabled ds other)
  ∧ patchedBy (metadata_ ds) (isBreakpointSiteIn codeRange) (fun _ => true)
              (code_ ds) (code_ ds').
Proof.
  intros Hf H. unfold incrementStepModeCount in H. cbv zeta in H.
  unfold MOZ_ASSERT at 1 in H. destruct (debugEnabled (metadata_ ds)); [|done].
  rewrite (funcCodeRange_eq _ _ _ _ Hf) in H.
  unfold MOZ_ASSERT at 1 in H. destruct (isFunction codeRange); [|done].
  unfold initStepModeCounters in H. unfold_outcome.
  destruct (stepModeCounters_ ds) as [counters|] eqn:Hc; [|destruct (cx_oom cx)];
    cases_call H; fold_patch_loop;
    (split; [other_function Hc|first [by left | by right]]).
Qed.

Lemma decrementStepModeCount_others cx ds funcIndex codeRange ds' ok :
  funcRange (metadata_ ds) funcIndex codeRange ->
  decrementStepModeCount cx ds funcIndex = Returns (ds', ok) ->
  (∀ other, other <> funcIndex -> stepModeEnabled ds' other = stepModeEnabled ds other)
  ∧ patchedBy (metadata_ ds) (isBreakpointSiteIn codeRange) (hasBreakpointSite ds)
              (code_ ds) (code_ ds').
Proof.
  intros Hf H. unfold decrementStepModeCount in H. cbv zeta in H.
  unfold MOZ_ASSERT at 1 in H. destruct (debugEnabled (metadata_ ds)); [|done].
  rewrite (funcCodeRange_eq _ _ _ _ Hf) in H.
  unfold MOZ_ASSERT at 1 in H. destruct (isFunction codeRange); [|done].
  unfold_outcome.
  destruct (stepModeCounters_ ds) as [counters|] eqn:Hc; [|done].
  cases_call H; fold_patch_loop;
    (split; [other_function Hc|first [by left | by right]]).
Qed.

(** X11.  Step mode is per function: whenever [incrementStepModeCount] or
    [decrementStepModeCount] of one function returns, every other function is
    in step mode exactly if it was before, and the code is unchanged at every
    offset that is not the return address of a breakpoint-capable call site
    inside that function's range. *)
Theorem stepMode_is_per_function cx ds funcIndex codeRange :
  funcRange (metadata_ ds) funcIndex codeRange ->
  (∀ ds' ok,
     incrementStepModeCount cx ds funcIndex = Returns (ds', ok) ->
     (∀ other, other <> funcIndex ->
               stepModeEnabled ds' other = stepModeEnabled ds other)
     ∧ (∀ off, selectedAt (isBreakpointSiteIn codeRange) (callSites (metadata_ ds)) off
               = false ->
               code_ ds' !! off = code_ ds !! off))
  ∧ (∀ ds' ok,
       decrementStepModeCount cx ds funcIndex = Returns (ds', ok) ->
       (∀ other, other <> funcIndex ->
                 stepModeEnabled ds' other = stepModeEnabled ds other)
       ∧ (∀ off, selectedAt (isBreakpointSiteIn codeRange) (callSites (metadata_ ds)) off
                 = false ->
                 code_ ds' !! off = code_ ds !! off)).
Proof.
  intros Hf. split.
  - intros ds' ok H.
    destruct (incrementStepModeCount_others _ _ _ _ _ _ Hf H) as [Hothers Hcode].
    split; [exact Hothers|]. intros off Hoff. by eapply patchedBy_elsewhere.
  - intros ds' ok H.
    destruct (decrementStepModeCount_others _ _ _ _ _ _ Hf H) as [Hothers Hcode].
    split; [exact Hothers|]. intros off Hoff. by eapply patchedBy_elsewhere.
Qed.

Lemma stepMode_is_per_function_witness :
  ∃ ds',
    incrementStepModeCount cx_ok debugState_example 0 = Returns (ds', true)
    ∧ stepModeEnabled ds' 1 = stepModeEnabled debugState_example 1
    ∧ code_ ds' !! 12 = code_ debugState_example !! 12.
Proof.
  destruct (stepMode_is_per_function cx_ok debugState_example 0 codeRange_example
              funcRange_example) as [Hinc _].
  eexists. split; [reflexivity|].
  destruct (Hinc _ true eq_refl) as [Hothers Hcode].
  split; [by apply Hothers|by apply Hcode].
Defined.

(** X12.  The step-mode count is a 32-bit counter that wraps: incrementing a
    count of [2^32 - 1] succeeds, patches nothing and stores 0 while the
    function still counts as in step mode, and the next increment fails the
    assertion that a stored count is positive. *)
Theorem stepMode_counter_wraps cx ds funcIndex codeRange counters :
  debugEnabled (metadata_ ds) = true ->
  funcRange (metadata_ ds) funcIndex codeRange ->
  stepModeCounters_ ds = Some counters ->
  counters !! funcIndex = Some (2 ^ 32 - 1) ->
  ∃ ds',
    incrementStepModeCount cx ds funcIndex = Returns (ds', true)
    ∧ stepModeCounters_ ds' = Some (<[funcIndex := 0]> counters)
    ∧ code_ ds' = code_ ds
    ∧ stepModeEnabled ds' funcIndex = true
    ∧ incrementStepModeCount cx ds' funcIndex = AssertionFailure.
Proof.
  intros Hd Hf Hc Hv.
  rewrite (incrementStepModeCount_more cx ds funcIndex codeRange counters (2 ^ 32 - 1))
    by (try done; lia).
  replace (u32 (2 ^ 32 - 1 + 1)) with 0 by (by vm_compute).
  eexists. split; [reflexivity|]. split; [reflexivity|]. split; [reflexivity|]. split.
  - unfold stepModeEnabled. simpl. rewrite lookup_insert_eq.
    apply bool_decide_eq_true. eauto.
  - unfold incrementStepModeCount. cbv zeta. unfold MOZ_ASSERT at 1. simpl metadata_.
    rewrite Hd. rewrite (funcCodeRange_eq _ _ _ _ Hf). destruct Hf as (_ & _ & _ & ->).
    unfold MOZ_ASSERT at 1. unfold initStepModeCounters. simpl stepModeCounters_.
    cbv iota beta. by rewrite lookup_insert_eq.
Qed.

Lemma stepMode_counter_wraps_witness :
  ∃ ds',
    incrementStepModeCount cx_ok
      (with_stepModeCounters debugState_example (Some {[ 0%nat := 2 ^ 32 - 1 ]})) 0
    = Returns (ds', true)
    ∧ stepModeEnabled ds' 0 = true
    ∧ incrementStepModeCount cx_ok ds' 0 = AssertionFailure.
Proof.
  destruct (stepMode_counter_wraps cx_ok
              (with_stepModeCounters debugState_example (Some {[ 0%nat := 2 ^ 32 - 1 ]}))
              0 codeRange_example {[ 0%nat := 2 ^ 32 - 1 ]})
    as (ds' & H1 & _ & _ & H4 & H5);
    [reflexivity|apply funcRange_example|reflexivity|apply lookup_singleton_eq|].
  exists ds'. split; [exact H1|]. split; [exact H4|exact H5].
Defined.

(** ** Enter/leave-frame traps as a reference count *)

Lemma adjustN_app cx enabled n m ds :
  adjustN cx enabled (n + m) ds
  = match adjustN cx enabled n ds with
    | Returns ds' => adjustN cx enabled m ds'
    | AssertionFailure => AssertionFailure
    end.
Proof.
  revert ds. induction n as [|n IH]; intros ds; simpl; [done|].
  unfold mbind, outcome_bind in *.
  destruct (adjustEnterAndLeaveFrameTrapsState cx ds enabled); [apply IH|done].
Qed.

Lemma with_frameCounter_code ds count :
  with_code (with_frameCounter ds count) (code_ ds) = with_frameCounter ds count.
Proof. by destruct ds. Qed.

Lemma adjust_no_crossing cx ds enabled :
  debugEnabled (metadata_ ds) = true ->
  debugTrapFarJumpOffsets (metadata_ ds) <> [] ->
  Forall (fun callSite => isFrameSite callSite = true ->
                          returnAddressOffset callSite <> 0)
         (callSites (metadata_ ds)) ->
  (enabled = true -> 0 < enterAndLeaveFrameTrapsCounter_ ds < 2 ^ 32 - 1) ->
  (enabled = false -> 1 < enterAndLeaveFrameTrapsCounter_ ds < 2 ^ 32) ->
  adjustEnterAndLeaveFrameTrapsState cx ds enabled
  = Returns (with_frameCounter ds (if enabled
                                   then enterAndLeaveFrameTrapsCounter_ ds + 1
                                   else enterAndLeaveFrameTrapsCounter_ ds - 1)).
Proof.
  intros Hd Hfj Hsites Hon Hoff.
  destruct (adjustEnterAndLeaveFrameTrapsState_core cx ds enabled Hd) as
    (ds' & -> & Hcount & Hshape & Hsame & _); [intros He; specialize (Hoff He); lia
                                              |done|done|].
  f_equal. rewrite Hshape, Hsame, Hcount.
  - rewrite with_frameCounter_code. f_equal. unfold u32.
    destruct enabled; [specialize (Hon eq_refl)|specialize (Hoff eq_refl)];
      rewrite Z.mod_small; lia.
  - rewrite Hcount. unfold crosses, u32. intros Hx. apply Hx.
    destruct enabled; [specialize (Hon eq_refl)|specialize (Hoff eq_refl)];
      rewrite Z.mod_small by lia; rewrite !(proj2 (Z.ltb_lt _ _)) by lia; done.
Qed.

Lemma adjustN_enable cx ds n :
  debugEnabled (metadata_ ds) = true ->
  debugTrapFarJumpOffsets (metadata_ ds) <> [] ->
  Forall (fun callSite => isFrameSite callSite = true ->
                          returnAddressOffset callSite <> 0)
         (callSites (metadata_ ds)) ->
  0 < enterAndLeaveFrameTrapsCounter_ ds ->
  enterAndLeaveFrameTrapsCounter_ ds + Z.of_nat n < 2 ^ 32 ->
  adjustN cx true n ds
  = Returns (with_frameCounter ds (enterAndLeaveFrameTrapsCounter_ ds + Z.of_nat n)).
Proof.
  revert ds. induction n as [|n IH]; intros ds Hd Hfj Hsites Hpos Hlt.
  - simpl. rewrite Z.add_0_r. f_equal. by destruct ds.
  - cbn [adjustN]. rewrite (adjust_no_crossing cx ds true) by (try done; intros; lia).
    unfold mbind, outcome_bind. rewrite IH by (try done; simpl; lia).
    simpl. do 2 f_equal. lia.
Qed.

Lemma adjustN_disable cx ds n :
  debugEnabled (metadata_ ds) = true ->
  debugTrapFarJumpOffsets (metadata_ ds) <> [] ->
  Forall (fun callSite => isFrameSite callSite = true ->
                          returnAddressOffset callSite <> 0)
         (callSites (metadata_ ds)) ->
  Z.of_nat n < enterAndLeaveFrameTrapsCounter_ ds < 2 ^ 32 ->
  adjustN cx false n ds
  = Returns (with_frameCounter ds (enterAndLeaveFrameTrapsCounter_ ds - Z.of_nat n)).
Proof.
  revert ds. induction n as [|n IH]; intros ds Hd Hfj Hsites Hc.
  - simpl. rewrite Z.sub_0_r. f_equal. by destruct ds.
  - cbn [adjustN]. rewrite (adjust_no_crossing cx ds false) by (try done; intros; lia).
    unfold mbind, outcome_bind. rewrite IH by (try done; simpl; lia).
    simpl. do 2 f_equal. lia.
Qed.

(** X13.  Enter/leave-frame instrumentation is a balanced reference count.
    From a counter of zero, [N] enabling calls ([1 <= N < 2^32]) followed by
    [N] disabling calls all return; in between the counter is [N] and every
    EnterFrame and LeaveFrame call site is enabled; afterwards the counter is
    zero again, every such site is disabled, no other offset has changed (the
    very state is back when those sites were disabled to begin with), and one
    more disabling call fails its assertion. *)
Theorem adjustEnterAndLeaveFrameTrapsState_balanced cx ds (N : nat) :
  debugEnabled (metadata_ ds) = true ->
  debugTrapFarJumpOffsets (metadata_ ds) <> [] ->
  Forall (fun callSite => isFrameSite callSite = true ->
                          returnAddressOffset callSite <> 0)
         (callSites (metadata_ ds)) ->
  enterAndLeaveFrameTrapsCounter_ ds = 0 ->
  (1 ≤ N)%nat -> Z.of_nat N < 2 ^ 32 ->
  ∃ on off,
    adjustN cx true N ds = Returns on
    ∧ adjustN cx false N on = Returns off
    ∧ enterAndLeaveFrameTrapsCounter_ on = Z.of_nat N
    ∧ enterAndLeaveFrameTrapsCounter_ off = 0
    ∧ (∀ callSite, callSite ∈ callSites (metadata_ ds) ->
                   isFrameSite callSite = true ->
                   siteEnabled on callSite = true ∧ siteEnabled off callSite = false)
    ∧ (∀ other, selectedAt isFrameSite (callSites (metadata_ ds)) other = false ->
                code_ on !! other = code_ ds !! other
                ∧ code_ off !! other = code_ ds !! other)
    ∧ ((∀ callSite, callSite ∈ callSites (metadata_ ds) ->
                    isFrameSite callSite = true -> siteEnabled ds callSite = false) ->
       off = ds)
    ∧ adjustEnterAndLeaveFrameTrapsState cx off false = AssertionFailure.
Proof.
  intros Hd Hfj Hsites Hzero HN Hlt.
  destruct (adjustEnterAndLeaveFrameTrapsState_core cx ds true Hd) as
    (first & Hfirst & Hc1 & Hshape1 & _ & Hcross1); [done|done|done|].
  rewrite Hzero in Hc1, Hcross1. change (u32 (0 + 1)) with 1 in Hc1.
  rewrite Hc1 in Hshape1, Hcross1.
  destruct Hcross1 as [Hon1 Hother1]; [by vm_compute|].
  assert (metadata_ first = metadata_ ds) as Hmd by (by rewrite Hshape1).
  set (on := with_frameCounter first (Z.of_nat N)).
  set (penultimate := with_frameCounter first 1).
  assert (adjustN cx true N ds = Returns on) as HonN.
  { replace N with (S (N - 1)) at 1 by lia. cbn [adjustN]. rewrite Hfirst.
    unfold mbind, outcome_bind.
    rewrite adjustN_enable by (rewrite ?Hmd, ?Hc1; try done; lia).
    unfold on. rewrite Hc1. do 2 f_equal. lia. }
  assert (adjustN cx false (N - 1) on = Returns penultimate) as Hpen.
  { rewrite adjustN_disable by (unfold on; simpl; rewrite ?Hmd; try done; lia).
    unfold on, penultimate. simpl. do 2 f_equal. lia. }
  destruct (adjustEnterAndLeaveFrameTrapsState_core cx penultimate false) as
    (off & Hoff & Hc2 & Hshape2 & _ & Hcross2);
    [unfold penultimate; simpl; by rewrite Hmd|done
    |unfold penultimate; simpl; by rewrite Hmd
    |unfold penultimate; simpl; by rewrite Hmd|].
  change (enterAndLeaveFrameTrapsCounter_ penultimate) with 1 in Hc2, Hcross2.
  change (u32 (1 - 1)) with 0 in Hc2. rewrite Hc2 in Hshape2, Hcross2.
  destruct Hcross2 as [Hoff2 Hother2]; [by vm_compute|].
  change (metadata_ penultimate) with (metadata_ first) in Hoff2, Hother2.
  change (code_ penultimate) with (code_ first) in Hother2.
  rewrite Hmd in Hoff2, Hother2.
  exists on, off. split; [exact HonN|]. split.
  { replace N with (N - 1 + 1)%nat at 1 by lia. rewrite adjustN_app, Hpen.
    cbn [adjustN]. rewrite Hoff. reflexivity. }
  split; [reflexivity|]. split; [exact Hc2|]. split.
  { intros cs Hin Hsel. split.
    - change (siteEnabled on cs) with (siteEnabled first cs).
      rewrite (Hon1 cs Hin Hsel). reflexivity.
    - rewrite (Hoff2 cs Hin Hsel). reflexivity. }
  split.
  { intros other Hsel. split.
    - change (code_ on) with (code_ first). by apply Hother1.
    - rewrite (Hother2 other Hsel). by apply Hother1. }
  split.
  { intros Hoffs.
    assert (code_ off = code_ ds) as Hcode.
    { apply map_eq. intros o.
      destruct (selectedAt isFrameSite (callSites (metadata_ ds)) o) eqn:Hsel.
      - apply selectedAt_true in Hsel as (cs & Hin & Hcs & <-).
        pose proof (Hoff2 cs Hin Hcs) as H1. pose proof (Hoffs cs Hin Hcs) as H2.
        unfold siteEnabled, trapEnabled in H1, H2.
        change (0 <? 0) with false in H1.
        apply bool_decide_eq_false in H1, H2.
        destruct (code_ off !! _); [destruct H1; eauto|].
        destruct (code_ ds !! _); [destruct H2; eauto|]. done.
      - rewrite (Hother2 o Hsel). by apply Hother1. }
    rewrite Hshape2, Hcode. unfold penultimate. rewrite Hshape1.
    destruct ds. simpl in *. by subst. }
  unfold adjustEnterAndLeaveFrameTrapsState, MOZ_ASSERT.
  replace (metadata_ off) with (metadata_ ds)
    by (rewrite Hshape2; unfold penultimate; simpl; by rewrite Hmd).
  by rewrite Hd, Hc2.
Qed.

Lemma adjustEnterAndLeaveFrameTrapsState_balanced_witness :
  ∃ on off,
    adjustN cx_ok true 3 debugState_example = Returns on
    ∧ adjustN cx_ok false 3 on = Returns off
    ∧ enterAndLeaveFrameTrapsCounter_ on = 3
    ∧ off = debugState_example.
Proof.
  destruct (adjustEnterAndLeaveFrameTrapsState_balanced cx_ok debugState_example 3)
    as (on & off & H1 & H2 & H3 & _ & _ & _ & H7 & _);
    [reflexivity|discriminate|repeat constructor; discriminate|reflexivity|lia
    |reflexivity|].
  exists on, off. split; [exact H1|]. split; [exact H2|]. split; [exact H3|].
  apply H7. intros cs _ _. reflexivity.
Defined.

(** ** More on the offset search *)

Lemma searchLineByOffset_unfold cx sm offset :
  exprlocs_ sm <> [] ->
  sortedByOffsetExprLocIndices_ sm = Some (buildSortedIndices (exprlocs_ sm))
  ∨ (sortedByOffsetExprLocIndices_ sm = None ∧ cx_oom cx = false) ->
  searchLineByOffset cx sm offset
  = match BinarySearchIf_loop (buildSortedIndices (exprlocs_ sm))
            (lookupFn (exprlocs_ sm) offset)
            (length (exprlocs_ sm) - 0) 0 (length (exprlocs_ sm)) with
    | Returns r =>
      vec_at (buildSortedIndices (exprlocs_ sm))
        (if (length (exprlocs_ sm) <=? r.2)%nat
         then (length (exprlocs_ sm) - 1)%nat else r.2)
        (fun exprlocIndex => Returns (withSortedIndices sm, Some exprlocIndex))
    | AssertionFailure => AssertionFailure
    end.
Proof.
  intros Hne Hidx. unfold searchLineByOffset, MOZ_ASSERT.
  rewrite (bool_decide_eq_false_2 _ Hne). simpl negb. cbv iota zeta.
  unfold BinarySearchIf, MOZ_ASSERT. simpl (0 <=? _)%nat. cbv iota.
  destruct Hidx as [Hb|[Hb Hoom]]; rewrite Hb.
  - simpl. rewrite Hb. simpl.
    replace (withSortedIndices sm) with sm; [done|].
    unfold withSortedIndices. rewrite <- Hb. symmetry. apply GeneratedSourceMap_eta.
  - rewrite Hoom. reflexivity.
Qed.

Lemma offsetAt_lookup exprlocs i loc :
  exprlocs !! i = Some loc -> offsetAt exprlocs i = loc_offset loc.
Proof. intros H. unfold offsetAt. by rewrite H. Qed.

(** The three-way answer of [lookupFn], on the offset of the entry. *)
Lemma lookupFn_offsetAt exprlocs offset i :
  i ∈ buildSortedIndices exprlocs ->
  lookupFn exprlocs offset i
  = Returns (if offset =? offsetAt exprlocs i then 0
             else if offset <? offsetAt exprlocs i then -1 else 1).
Proof.
  intros Hi. apply buildSortedIndices_elem in Hi.
  destruct (lookup_lt_is_Some_2 _ _ Hi) as [loc Hloc].
  by rewrite (lookupFn_Returns _ _ _ _ Hloc), (offsetAt_lookup _ _ _ Hloc).
Qed.

(** X14.  When some recorded offset is at or above the queried one,
    [searchLineByOffset] returns an entry of the least such offset: the entry
    at the queried offset itself when it is recorded, and otherwise the
    nearest one above it. *)
Theorem searchLineByOffset_least_upper cx sm offset :
  exprlocs_ sm <> [] ->
  sortedByOffsetExprLocIndices_ sm = Some (buildSortedIndices (exprlocs_ sm))
  ∨ (sortedByOffsetExprLocIndices_ sm = None ∧ cx_oom cx = false) ->
  (∃ loc, loc ∈ exprlocs_ sm ∧ offset ≤ loc_offset loc) ->
  ∃ exprlocIndex found,
    searchLineByOffset cx sm offset = Returns (withSortedIndices sm, Some exprlocIndex)
    ∧ exprlocs_ sm !! exprlocIndex = Some found
    ∧ offset ≤ loc_offset found
    ∧ (∀ loc, loc ∈ exprlocs_ sm -> offset ≤ loc_offset loc ->
              loc_offset found ≤ loc_offset loc)
    ∧ (∀ loc, loc ∈ exprlocs_ sm -> loc_offset loc = offset ->
              loc_offset found = offset).
Proof.
  intros Hne Hidx (above & Habove & Hle).
  set (exprlocs := exprlocs_ sm) in *.
  set (n := length exprlocs).
  set (sorted := buildSortedIndices exprlocs).
  set (f := fun i => if offset =? offsetAt exprlocs i then 0
                     else if offset <? offsetAt exprlocs i then -1 else 1).
  assert (length sorted = n) as Hlen by apply buildSortedIndices_length.
  pose proof (buildSortedIndices_sorted exprlocs) as Hsorted. fold sorted in Hsorted.
  assert (∀ i, f i < 0 ↔ offset < offsetAt exprlocs i) as Hneg.
  { intros i. unfold f. destruct (Z.eqb_spec offset (offsetAt exprlocs i)); [lia|].
    destruct (Z.ltb_spec offset (offsetAt exprlocs i)); lia. }
  assert (∀ i, 0 < f i ↔ offsetAt exprlocs i < offset) as Hpos.
  { intros i. unfold f. destruct (Z.eqb_spec offset (offsetAt exprlocs i)); [lia|].
    destruct (Z.ltb_spec offset (offsetAt exprlocs i)); lia. }
  assert (∀ i, f i = 0 ↔ offsetAt exprlocs i = offset) as Hzero.
  { intros i. unfold f. destruct (Z.eqb_spec offset (offsetAt exprlocs i)); [lia|].
    destruct (Z.ltb_spec offset (offsetAt exprlocs i)); lia. }
  (* where an entry of the sequence sits in the sorted order *)
  assert (∀ loc, loc ∈ exprlocs ->
            ∃ p k, sorted !! p = Some k ∧ exprlocs !! k = Some loc
                   ∧ offsetAt exprlocs k = loc_offset loc) as Hpos_of.
  { intros loc Hloc. apply list_elem_of_lookup in Hloc as [k Hk].
    assert (k ∈ sorted) as Hks
      by (apply buildSortedIndices_elem; by eapply lookup_lt_Some).
    apply list_elem_of_lookup in Hks as [p Hp].
    exists p, k. split; [done|]. split; [done|]. by apply offsetAt_lookup. }
  rewrite (searchLineByOffset_unfold cx sm offset Hne Hidx). fold exprlocs sorted n.
  rewrite (BinarySearchIf_loop_ext sorted _ (fun i => Returns (f i)))
    by (intros i Hi; by apply lookupFn_offsetAt).
  destruct (BinarySearchIf_loop_spec sorted f (n - 0) 0 n)
    as (fd & m & -> & Hm & Hfound & Hnot); [| |lia|lia|intros; lia| |].
  { intros i j x y Hij Hx Hy Hfx. apply Hneg. apply Hneg in Hfx.
    pose proof (Sorted_key_lookup (offsetAt exprlocs) sorted i j x y Hsorted Hij Hx Hy).
    lia. }
  { intros i j x y Hij Hx Hy Hfy. apply Hpos. apply Hpos in Hfy.
    pose proof (Sorted_key_lookup (offsetAt exprlocs) sorted i j x y Hsorted Hij Hx Hy).
    lia. }
  { intros i x Hi Hx. apply lookup_lt_Some in Hx. lia. }
  simpl snd.
  assert (∃ idx, sorted !! m = Some idx ∧ offset ≤ offsetAt exprlocs idx
                 ∧ (∀ p k, sorted !! p = Some k -> offset ≤ offsetAt exprlocs k ->
                           offsetAt exprlocs idx ≤ offsetAt exprlocs k))
    as (idx & Hidx' & Hge & Hleast).
  { destruct fd.
    - destruct (Hfound eq_refl) as (idx & Hm' & Hf0). apply Hzero in Hf0.
      exists idx. split; [done|]. split; [lia|]. intros; lia.
    - destruct (Hnot eq_refl) as [Hlo Hhi].
      destruct (Hpos_of above Habove) as (p & k & Hp & Hk & Hoff).
      assert (m ≤ p)%nat as Hmp.
      { destruct (decide (m ≤ p)%nat); [done|].
        specialize (Hlo p k ltac:(lia) Hp). apply Hpos in Hlo. lia. }
      destruct (lookup_lt_is_Some_2 sorted m) as [idx Hm'].
      { apply lookup_lt_Some in Hp. lia. }
      exists idx. split; [done|]. split.
      { specialize (Hhi m idx (le_n _) Hm'). apply Hneg in Hhi. lia. }
      intros p' k' Hp' Hk'.
      assert (m ≤ p')%nat as Hmp'.
      { destruct (decide (m ≤ p')%nat); [done|].
        specialize (Hlo p' k' ltac:(lia) Hp'). apply Hpos in Hlo. lia. }
      exact (Sorted_key_lookup (offsetAt exprlocs) sorted m p' idx k' Hsorted Hmp'
               Hm' Hp'). }
  assert (m < n)%nat as Hmn by (apply lookup_lt_Some in Hidx'; lia).
  replace (n <=? m)%nat with false by (symmetry; apply Nat.leb_gt; lia).
  unfold vec_at. rewrite Hidx'.
  assert (idx < n)%nat as Hin
    by (apply buildSortedIndices_elem; by eapply list_elem_of_lookup_2).
  destruct (lookup_lt_is_Some_2 exprlocs idx Hin) as [found Hfd].
  pose proof (offsetAt_lookup _ _ _ Hfd) as Hoff.
  exists idx, found. split; [done|]. split; [done|]. split; [lia|]. split.
  - intros loc Hloc Hlocge.
    destruct (Hpos_of loc Hloc) as (p & k & Hp & Hk & Hkoff).
    assert (offset ≤ offsetAt exprlocs k) as Hk' by lia.
    specialize (Hleast p k Hp Hk'). lia.
  - intros loc Hloc Heq.
    destruct (Hpos_of loc Hloc) as (p & k & Hp & Hk & Hkoff).
    assert (offset ≤ offsetAt exprlocs k) as Hk' by lia.
    specialize (Hleast p k Hp Hk'). lia.
Qed.

Lemma searchLineByOffset_least_upper_witness :
  ∃ exprlocIndex found,
    searchLineByOffset cx_ok sourceMap_example 4
    = Returns (withSortedIndices sourceMap_example, Some exprlocIndex)
    ∧ exprlocs_ sourceMap_example !! exprlocIndex = Some found
    ∧ 4 ≤ loc_offset found
    ∧ (∀ loc, loc ∈ exprlocs_ sourceMap_example -> 4 ≤ loc_offset loc ->
              loc_offset found ≤ loc_offset loc).
Proof.
  destruct (searchLineByOffset_least_upper cx_ok sourceMap_example 4)
    as (i & found & H1 & H2 & H3 & H4 & _);
    [discriminate|right; split; reflexivity| |].
  - exists {| loc_offset := 5; loc_lineno := 1; loc_column := 1 |}.
    split; [apply list_elem_of_here|simpl; lia].
  - exists i, found. split; [exact H1|]. split; [exact H2|]. split; [exact H3|exact H4].
Defined.

Lemma searchLineByOffset_in_bounds cx sm offset :
  exprlocs_ sm <> [] ->
  sortedByOffsetExprLocIndices_ sm = Some (buildSortedIndices (exprlocs_ sm))
  ∨ (sortedByOffsetExprLocIndices_ sm = None ∧ cx_oom cx = false) ->
  ∃ exprlocIndex loc,
    searchLineByOffset cx sm offset = Returns (withSortedIndices sm, Some exprlocIndex)
    ∧ exprlocs_ sm !! exprlocIndex = Some loc.
Proof.
  intros Hne Hidx. rewrite (searchLineByOffset_unfold cx sm offset Hne Hidx).
  set (n := length (exprlocs_ sm)).
  set (sorted := buildSortedIndices (exprlocs_ sm)).
  assert (0 < n)%nat as Hn by (unfold n; destruct (exprlocs_ sm); simpl; [done|lia]).
  assert (length sorted = n) as Hlen by apply buildSortedIndices_length.
  destruct (BinarySearchIf_loop_bounds sorted (lookupFn (exprlocs_ sm) offset)
              (n - 0) 0 n) as (found & m & -> & Hm); [lia| |].
  { intros i Hi. rewrite lookupFn_offsetAt by done. eauto. }
  simpl snd.
  set (match_ := if (n <=? m)%nat then (n - 1)%nat else m).
  assert (match_ < n)%nat as Hmatch.
  { unfold match_. destruct (Nat.leb_spec n m); lia. }
  destruct (lookup_lt_is_Some_2 sorted match_) as [idx Hidx']; [lia|].
  unfold vec_at. rewrite Hidx'.
  assert (idx < n)%nat as Hin
    by (apply buildSortedIndices_elem; by eapply list_elem_of_lookup_2).
  destruct (lookup_lt_is_Some_2 (exprlocs_ sm) idx Hin) as [loc Hloc].
  by exists idx, loc.
Qed.

(** X15.  The offset index is built on first use and kept.  On a map with
    entries and no index yet, a search whose allocation fails reports failure
    and leaves the map as it was, so a later search can still build the
    index; a search whose allocation succeeds stores the index, and from then
    on every search, whatever the allocator does, gives the answer the first
    one would have given for that offset. *)
Theorem searchLineByOffset_index_lazy cx sm offset :
  exprlocs_ sm <> [] ->
  sortedByOffsetExprLocIndices_ sm = None ->
  (cx_oom cx = true -> searchLineByOffset cx sm offset = Returns (sm, None))
  ∧ (cx_oom cx = false ->
     ∃ exprlocIndex,
       searchLineByOffset cx sm offset
       = Returns (withSortedIndices sm, Some exprlocIndex)
       ∧ ∀ cx' offset',
           searchLineByOffset cx' (withSortedIndices sm) offset'
           = searchLineByOffset cx sm offset').
Proof.
  intros Hne Hnone. split.
  - intros Hoom. unfold searchLineByOffset, MOZ_ASSERT.
    rewrite (bool_decide_eq_false_2 _ Hne). simpl negb. cbv iota zeta.
    by rewrite Hnone, Hoom.
  - intros Hoom.
    destruct (searchLineByOffset_in_bounds cx sm offset Hne) as (idx & loc & Hs & _);
      [right; by split|].
    exists idx. split; [done|]. intros cx' offset'.
    rewrite (searchLineByOffset_unfold cx sm offset' Hne) by (right; by split).
    rewrite (searchLineByOffset_unfold cx' (withSortedIndices sm) offset' Hne)
      by (by left).
    reflexivity.
Qed.

Lemma searchLineByOffset_index_lazy_witness :
  searchLineByOffset cx_failing sourceMap_example 4 = Returns (sourceMap_example, None)
  ∧ searchLineByOffset cx_failing (withSortedIndices sourceMap_example) 4
    = searchLineByOffset cx_ok sourceMap_example 4.
Proof.
  split.
  - apply (searchLineByOffset_index_lazy cx_failing sourceMap_example 4);
      [discriminate|reflexivity|reflexivity].
  - destruct (searchLineByOffset_index_lazy cx_ok sourceMap_example 4) as [_ H];
      [discriminate|reflexivity|].
    destruct (H eq_refl) as (i & _ & Hlater). apply Hlater.
Defined.

Section SourceMapLookups.

Variable BinaryToText : JSContext -> list Z -> Rendering.

(** X16.  With debugging enabled and a source map that has entries,
    [getOffsetLocation] reports [found] with the line and column of the entry
    that [searchLineByOffset] selects for the offset (the index is built or
    can be built); the only change to the state is that the map now carries
    its index. *)
Theorem getOffsetLocation_found cx ds sm offset :
  debugEnabled (metadata_ ds) = true ->
  maybeSourceMap_ ds = Some sm ->
  exprlocs_ sm <> [] ->
  sortedByOffsetExprLocIndices_ sm = Some (buildSortedIndices (exprlocs_ sm))
  ∨ (sortedByOffsetExprLocIndices_ sm = None ∧ cx_oom cx = false) ->
  ∃ exprlocIndex loc,
    searchLineByOffset cx sm offset = Returns (withSortedIndices sm, Some exprlocIndex)
    ∧ exprlocs_ sm !! exprlocIndex = Some loc
    ∧ getOffsetLocation BinaryToText cx ds offset
      = Returns (with_sourceMap ds (Some (withSortedIndices sm)), true,
                 Some (loc_lineno loc, loc_column loc)).
Proof.
  intros Hd Hsm Hne Hidx.
  destruct (searchLineByOffset_in_bounds cx sm offset Hne Hidx) as (idx & loc & Hs & Hloc).
  exists idx, loc. split; [done|]. split; [done|].
  unfold getOffsetLocation. rewrite Hd. simpl negb. cbv iota.
  rewrite ensureSourceMap_has_map by (unfold hasSourceMap; by rewrite Hsm).
  unfold mbind at 1, outcome_bind at 1. simpl. rewrite Hsm.
  rewrite (bool_decide_eq_false_2 _ Hne). rewrite Hs.
  unfold mbind, outcome_bind, vec_at. simpl. by rewrite Hloc.
Qed.

(** X17.  A render that fails is reported once.  When [BinaryToText] fails on
    bytecode within the ceiling, [ensureSourceMap] returns [false] but the map
    it had installed before rendering stays, holding whatever the renderer
    recorded; every later [ensureSourceMap] then succeeds without rendering
    again, and [totalSourceLines] serves the recorded count. *)
Theorem failed_render_keeps_map cx ds bytes :
  maybeBytecode_ ds = Some bytes ->
  Z.of_nat (length bytes) ≤ TooBig ->
  maybeSourceMap_ ds = None ->
  cx_oom cx = false ->
  render_ok (BinaryToText cx bytes) = false ->
  ∃ ds' sm,
    ensureSourceMap BinaryToText cx ds = Returns (ds', false)
    ∧ createText BinaryToText cx ds = Returns (ds', None)
    ∧ maybeSourceMap_ ds' = Some sm
    ∧ exprlocs_ sm = render_exprlocs (BinaryToText cx bytes)
    ∧ totalLines_ sm = render_totalLines (BinaryToText cx bytes)
    ∧ sortedByOffsetExprLocIndices_ sm = None
    ∧ sameButSourceMap ds ds'
    ∧ (∀ cx', ensureSourceMap BinaryToText cx' ds' = Returns (ds', true))
    ∧ (debugEnabled (metadata_ ds) = true ->
       ∀ cx', totalSourceLines BinaryToText cx' ds'
              = Returns (ds', true, render_totalLines (BinaryToText cx bytes))).
Proof.
  intros Hb Hle Hmap Hoom Hfail.
  set (sm := {| exprlocs_ := render_exprlocs (BinaryToText cx bytes);
                sortedByOffsetExprLocIndices_ := None;
                totalLines_ := render_totalLines (BinaryToText cx bytes) |}).
  assert (createText BinaryToText cx ds = Returns (with_sourceMap ds (Some sm), None))
    as Hct.
  { unfold createText. rewrite Hb, (proj2 (Z.ltb_ge _ _) Hle), Hoom. cbv zeta.
    by rewrite Hfail. }
  assert (∀ cx', ensureSourceMap BinaryToText cx' (with_sourceMap ds (Some sm))
                 = Returns (with_sourceMap ds (Some sm), true)) as Hagain.
  { intros cx'. by apply ensureSourceMap_has_map. }
  exists (with_sourceMap ds (Some sm)), sm.
  split.
  { unfold ensureSourceMap, hasSourceMap, hasBytecode. rewrite Hmap, Hb. simpl.
    by rewrite Hct. }
  split; [done|]. split; [done|]. split; [done|]. split; [done|]. split; [done|].
  split; [apply sameButSourceMap_with|]. split; [done|].
  intros Hd cx'. unfold totalSourceLines. rewrite Hagain. simpl. by rewrite Hd.
Qed.

(** X18.  The first location query builds the source map and later ones reuse
    it.  With debugging enabled, bytecode within the ceiling, no map yet and
    a render that succeeds, [totalSourceLines] returns the renderer's line
    count and installs the map, changing nothing else; after that it returns
    the same count from the stored map even when the allocator fails. *)
Theorem totalSourceLines_lazy cx ds bytes :
  debugEnabled (metadata_ ds) = true ->
  maybeBytecode_ ds = Some bytes ->
  Z.of_nat (length bytes) ≤ TooBig ->
  maybeSourceMap_ ds = None ->
  cx_oom cx = false ->
  render_ok (BinaryToText cx bytes) = true ->
  linesSorted 0 (render_exprlocs (BinaryToText cx bytes)) = true ->
  ∃ ds',
    totalSourceLines BinaryToText cx ds
    = Returns (ds', true, render_totalLines (BinaryToText cx bytes))
    ∧ sameButSourceMap ds ds'
    ∧ hasSourceMap ds' = true
    ∧ ∀ cx', totalSourceLines BinaryToText cx' ds'
             = Returns (ds', true, render_totalLines (BinaryToText cx bytes)).
Proof.
  intros Hd Hb Hle Hmap Hoom Hok Hsorted.
  set (sm := {| exprlocs_ := render_exprlocs (BinaryToText cx bytes);
                sortedByOffsetExprLocIndices_ := None;
                totalLines_ := render_totalLines (BinaryToText cx bytes) |}).
  assert (ensureSourceMap BinaryToText cx ds = Returns (with_sourceMap ds (Some sm), true))
    as Hens.
  { unfold ensureSourceMap, hasSourceMap, hasBytecode. rewrite Hmap, Hb. simpl.
    unfold createText, MOZ_ASSERT. rewrite Hb, (proj2 (Z.ltb_ge _ _) Hle), Hoom.
    cbv zeta. by rewrite Hok, Hsorted. }
  exists (with_sourceMap ds (Some sm)).
  split.
  { unfold totalSourceLines. rewrite Hd. simpl negb. cbv iota. by rewrite Hens. }
  split; [apply sameButSourceMap_with|]. split; [done|].
  intros cx'. unfold totalSourceLines.
  rewrite ensureSourceMap_has_map by done. simpl. by rewrite Hd.
Qed.

(** What the constructor asserts stays true: a reachable state of a module
    compiled for debugging has its bytecode. *)
Lemma reachable_debugEnabled_bytecode ds :
  reachable BinaryToText ds ->
  debugEnabled (metadata_ ds) = true -> is_Some (maybeBytecode_ ds).
Proof.
  induction 1 as [code metadata maybeBytecode ds Hnew|ds ds' _ IH Hstep]; intros Hd.
  - unfold DebugState_new, MOZ_ASSERT in Hnew.
    destruct (debugEnabled metadata) eqn:Hmd.
    + destruct maybeBytecode as [bytes|]; simpl in Hnew.
      * injection Hnew as <-. simpl. eauto.
      * done.
    + simpl in Hnew. injection Hnew as <-. simpl in Hd. congruence.
  - destruct (step_keeps _ _ _ Hstep) as (Hm & Hb & _).
    rewrite Hb. apply IH. by rewrite <- Hm.
Qed.

(** X19.  Location queries when the text is unavailable.  A reachable state
    of a module compiled for debugging always has its bytecode, so with
    debugging enabled the text is unavailable only when the bytecode is over
    the ceiling.  Then no source map exists, and each of the three location
    queries first builds (and drops) the "too big" message: it succeeds with
    nothing to report when that allocation succeeds and fails when it does
    not, and in both cases leaves the state as it was. *)
Theorem source_queries_when_unavailable ds :
  reachable BinaryToText ds ->
  debugEnabled (metadata_ ds) = true ->
  (∃ bytes, maybeBytecode_ ds = Some bytes)
  ∧ (∀ bytes, maybeBytecode_ ds = Some bytes -> TooBig < Z.of_nat (length bytes) ->
     maybeSourceMap_ ds = None
     ∧ ∀ cx offset lineno offsets,
         totalSourceLines BinaryToText cx ds = Returns (ds, negb (cx_oom cx), 0)
         ∧ getOffsetLocation BinaryToText cx ds offset
           = Returns (ds, negb (cx_oom cx), None)
         ∧ getLineOffsets BinaryToText cx ds lineno offsets
           = Returns (ds, negb (cx_oom cx), offsets)).
Proof.
  intros Hr Hd. split; [exact (reachable_debugEnabled_bytecode ds Hr Hd)|].
  intros bytes Hb Hbig.
  pose proof (no_source_map_when_too_big _ _ (reachable_sourceMapInv _ _ Hr) Hb Hbig)
    as Hmap.
  split; [done|]. intros cx offset lineno offsets.
  assert (ensureSourceMap BinaryToText cx ds = Returns (ds, negb (cx_oom cx))) as Hens.
  { unfold ensureSourceMap, hasSourceMap, hasBytecode. rewrite Hmap, Hb. simpl.
    unfold createText, MOZ_ASSERT, hasSourceMap.
    rewrite Hb, (proj2 (Z.ltb_lt _ _) Hbig), Hmap.
    by destruct (cx_oom cx). }
  unfold totalSourceLines, getOffsetLocation, getLineOffsets.
  rewrite Hd, Hens. unfold mbind, outcome_bind. simpl.
  destruct (cx_oom cx); simpl; by rewrite ?Hmap.
Qed.

End SourceMapLookups.

Lemma getOffsetLocation_found_witness :
  ∃ exprlocIndex loc,
    searchLineByOffset cx_ok sourceMap_example 4
    = Returns (withSortedIndices sourceMap_example, Some exprlocIndex)
    ∧ exprlocs_ sourceMap_example !! exprlocIndex = Some loc
    ∧ getOffsetLocation BinaryToText_example cx_ok debugState_built 4
      = Returns (with_sourceMap debugState_built
                   (Some (withSortedIndices sourceMap_example)), true,
                 Some (loc_lineno loc, loc_column loc)).
Proof.
  apply (getOffsetLocation_found BinaryToText_example cx_ok debugState_built
           sourceMap_example 4);
    [reflexivity|reflexivity|discriminate|right; split; reflexivity].
Defined.

Lemma failed_render_keeps_map_witness :
  ∃ ds' sm,
    ensureSourceMap BinaryToText_failing cx_ok debugState_example = Returns (ds', false)
    ∧ maybeSourceMap_ ds' = Some sm
    ∧ (∀ cx', ensureSourceMap BinaryToText_failing cx' ds' = Returns (ds', true)).
Proof.
  destruct (failed_render_keeps_map BinaryToText_failing cx_ok debugState_example
              [0; 97; 115; 109])
    as (ds' & sm & H1 & _ & H3 & _ & _ & _ & _ & H8 & _);
    [reflexivity|vm_compute; discriminate|reflexivity|reflexivity|reflexivity|].
  exists ds', sm. split; [exact H1|]. split; [exact H3|exact H8].
Defined.

Lemma totalSourceLines_lazy_witness :
  ∃ ds',
    totalSourceLines BinaryToText_example cx_ok debugState_example = Returns (ds', true, 2)
    ∧ ∀ cx', totalSourceLines BinaryToText_example cx' ds' = Returns (ds', true, 2).
Proof.
  destruct (totalSourceLines_lazy BinaryToText_example cx_ok debugState_example
              [0; 97; 115; 109])
    as (ds' & H1 & _ & _ & H4);
    [reflexivity|reflexivity|vm_compute; discriminate|reflexivity|reflexivity
    |reflexivity|reflexivity|].
  exists ds'. split; [exact H1|exact H4].
Defined.

Lemma source_queries_when_unavailable_witness :
  maybeSourceMap_ debugState_toobig = None
  ∧ totalSourceLines BinaryToText_example cx_failing debugState_toobig
    = Returns (debugState_toobig, false, 0)
  ∧ getOffsetLocation BinaryToText_example cx_ok debugState_toobig 4
    = Returns (debugState_toobig, true, None)
  ∧ getLineOffsets BinaryToText_example cx_failing debugState_toobig 1 []
    = Returns (debugState_toobig, false, []).
Proof.
  destruct (source_queries_when_unavailable BinaryToText_example debugState_toobig)
    as [_ H]; [apply debugState_toobig_reachable|reflexivity|].
  assert (TooBig < Z.of_nat (length (repeat 0 (Z.to_nat (TooBig + 1))))) as Hbig
    by (vm_compute; reflexivity).
  destruct (H _ eq_refl Hbig) as [Hmap Hq].
  split; [exact Hmap|]. split; [|split].
  - exact (proj1 (Hq cx_failing 0 0 [])).
  - exact (proj1 (proj2 (Hq cx_ok 4 0 []))).
  - exact (proj2 (proj2 (Hq cx_failing 0 1 []))).
Defined.

(** ** The display URL *)

Lemma hexDigit_code digit :
  0 ≤ digit < 16 ->
  Z.of_nat (Ascii.nat_of_ascii (hexDigit digit))
  = if digit <? 10 then digit + 48 else digit + 87.
Proof.
  intros Hd. unfold hexDigit. rewrite Ascii.nat_ascii_embedding.
  - destruct (Z.ltb_spec digit 10); lia.
  - destruct (Z.ltb_spec digit 10); lia.
Qed.

Lemma hexDigit_isHexChar digit : 0 ≤ digit < 16 -> isHexChar (hexDigit digit).
Proof.
  intros Hd. unfold isHexChar. cbv zeta. rewrite (hexDigit_code _ Hd).
  destruct (Z.ltb_spec digit 10); lia.
Qed.

Lemma hexDigit_inj digit1 digit2 :
  0 ≤ digit1 < 16 -> 0 ≤ digit2 < 16 ->
  hexDigit digit1 = hexDigit digit2 -> digit1 = digit2.
Proof.
  intros H1 H2 Heq.
  pose proof (hexDigit_code _ H1) as E1. pose proof (hexDigit_code _ H2) as E2.
  rewrite Heq in E1. rewrite E1 in E2.
  destruct (Z.ltb_spec digit1 10), (Z.ltb_spec digit2 10); lia.
Qed.

Lemma isByte_digits byte :
  isByte byte -> 0 ≤ byte / 16 < 16 ∧ 0 ≤ byte mod 16 < 16.
Proof.
  unfold isByte. intros Hb. split.
  - split; [apply Z.div_pos; lia|apply Z.div_lt_upper_bound; lia].
  - apply Z.mod_pos_bound. lia.
Qed.

Lemma hexDump_inj hash1 hash2 :
  Forall isByte hash1 -> Forall isByte hash2 ->
  hexDump hash1 = hexDump hash2 -> hash1 = hash2.
Proof.
  intros H1. revert hash2.
  induction H1 as [|b1 rest1 Hb1 _ IH]; intros hash2 H2 Heq.
  - by destruct hash2.
  - destruct H2 as [|b2 rest2 Hb2 H2]; [done|].
    simpl in Heq. injection Heq as Hd1 Hd2 Hrest.
    destruct (isByte_digits _ Hb1) as [? ?]. destruct (isByte_digits _ Hb2) as [? ?].
    apply hexDigit_inj in Hd1; [|done..]. apply hexDigit_inj in Hd2; [|done..].
    f_equal; [|by apply IH].
    rewrite (Z.div_mod b1 16), (Z.div_mod b2 16) by lia. lia.
Qed.

Lemma append_inv_head (prefix s1 s2 : string) :
  (prefix ++ s1)%string = (prefix ++ s2)%string -> s1 = s2.
Proof. induction prefix as [|c prefix IH]; simpl; [done|]. intros [=]. auto. Qed.

Lemma hexDump_length hash :
  String.length (hexDump hash) = (2 * length hash)%nat.
Proof. induction hash as [|b rest IH]; simpl; [done|]. rewrite IH. lia. Qed.

Lemma hexDump_isHexChar hash :
  Forall isByte hash -> stringForall isHexChar (hexDump hash).
Proof.
  induction 1 as [|b rest Hb _ IH]; simpl; [done|].
  destruct (isByte_digits _ Hb) as [? ?].
  split; [by apply hexDigit_isHexChar|]. split; [by apply hexDigit_isHexChar|done].
Qed.

Section DisplayURL.

Variable EncodeURI : JSContext -> string -> EncodeURIResult.

(** X20.  The URL tells module hashes apart: for the same file name and
    context, two hashes that give the same URL are the same hash. *)
Theorem debugDisplayURL_distinguishes_hashes cx filename hash1 hash2 url :
  Forall isByte hash1 -> Forall isByte hash2 ->
  debugDisplayURL EncodeURI cx filename hash1 = Some url ->
  debugDisplayURL EncodeURI cx filename hash2 = Some url ->
  hash1 = hash2.
Proof.
  intros Hb1 Hb2 H1 H2. unfold debugDisplayURL in H1, H2.
  destruct (cx_oom cx); [done|]. cbv zeta in H1, H2.
  destruct (match filename with
            | Some f =>
              match EncodeURI cx f with
              | Encoded filenamePrefix => Some ("wasm:" ++ filenamePrefix ++ ":")%string
              | EncodeFailed isExceptionPending =>
                if negb isExceptionPending then None else Some "wasm:"%string
              end
            | None => Some "wasm:"%string
            end) as [result|]; [|done].
  apply hexDump_inj; [done..|]. apply (append_inv_head result). congruence.
Qed.

(** X21.  The shape of the URL and when there is none.  The call returns no
    string exactly when allocation fails or [EncodeURI] fails without leaving
    an exception pending; a file name that cannot be encoded (exception
    pending) is dropped, giving the URL of a module without a file name.
    Every URL is ["wasm:"], then either nothing or the encoded file name and
    a colon, then the hash as two lower-case hexadecimal digits a byte. *)
Theorem debugDisplayURL_shape cx filename hash :
  Forall isByte hash ->
  (debugDisplayURL EncodeURI cx filename hash = None
   ↔ cx_oom cx = true
     ∨ ∃ f, filename = Some f ∧ EncodeURI cx f = EncodeFailed false)
  ∧ (∀ f, filename = Some f -> EncodeURI cx f = EncodeFailed true ->
          debugDisplayURL EncodeURI cx filename hash
          = debugDisplayURL EncodeURI cx None hash)
  ∧ (∀ url, debugDisplayURL EncodeURI cx filename hash = Some url ->
       ∃ name, url = ("wasm:" ++ name ++ hexDump hash)%string
               ∧ (name = EmptyString
                  ∨ ∃ f filenamePrefix,
                      filename = Some f ∧ EncodeURI cx f = Encoded filenamePrefix
                      ∧ name = (filenamePrefix ++ ":")%string)
               ∧ String.length (hexDump hash) = (2 * length hash)%nat
               ∧ stringForall isHexChar (hexDump hash)).
Proof.
  intros Hb. unfold debugDisplayURL. split; [|split].
  - destruct (cx_oom cx); [split; [by left|done]|].
    destruct filename as [f|]; cbv zeta.
    + destruct (EncodeURI cx f) as [enc|[|]] eqn:E; simpl.
      * split; [done|]. intros [?|(f' & ? & ?)]; [done|]. congruence.
      * split; [done|]. intros [?|(f' & ? & ?)]; [done|]. congruence.
      * split; [|done]. intros _. right. by exists f.
    + split; [done|]. by intros [?|(f' & ? & ?)].
  - intros f -> E. destruct (cx_oom cx); [done|]. cbv zeta. by rewrite E.
  - intros url H. destruct (cx_oom cx); [done|]. cbv zeta in H.
    assert (String.length (hexDump hash) = (2 * length hash)%nat
            ∧ stringForall isHexChar (hexDump hash)) as Hdump
      by (split; [apply hexDump_length|by apply hexDump_isHexChar]).
    destruct filename as [f|].
    + destruct (EncodeURI cx f) as [enc|[|]] eqn:E; simpl in H; [| |done].
      * exists (enc ++ ":")%string. split; [by simplify_eq|].
        split; [|done]. right. by exists f, enc.
      * exists EmptyString. split; [by simplify_eq|]. split; [by left|done].
    + exists EmptyString. simpl in H. split; [by simplify_eq|]. split; [by left|done].
Qed.

End DisplayURL.

Lemma debugDisplayURL_distinguishes_hashes_witness :
  debugDisplayURL EncodeURI_example cx_ok (Some "a.wasm"%string) [ 171; 0; 9; 255 ]
  = Some "wasm:a.wasm:ab0009ff"%string
  ∧ ∀ hash, Forall isByte hash ->
            debugDisplayURL EncodeURI_example cx_ok (Some "a.wasm"%string) hash
            = Some "wasm:a.wasm:ab0009ff"%string ->
            hash = [ 171; 0; 9; 255 ].
Proof.
  split; [reflexivity|]. intros hash Hb Hurl.
  apply (debugDisplayURL_distinguishes_hashes EncodeURI_example cx_ok (Some "a.wasm"%string)
           hash [ 171; 0; 9; 255 ] "wasm:a.wasm:ab0009ff"%string);
    [exact Hb|repeat constructor; unfold isByte; lia|exact Hurl|reflexivity].
Defined.

Lemma debugDisplayURL_shape_witness :
  debugDisplayURL EncodeURI_example cx_ok (Some EmptyString) [ 171; 0; 9; 255 ]
  = debugDisplayURL EncodeURI_example cx_ok None [ 171; 0; 9; 255 ]
  ∧ ∃ name, "wasm:a.wasm:ab0009ff"%string
            = ("wasm:" ++ name ++ hexDump [ 171; 0; 9; 255 ])%string.
Proof.
  assert (Forall isByte [ 171; 0; 9; 255 ]) as Hb
    by (repeat constructor; unfold isByte; lia).
  split.
  - exact (proj1 (proj2 (debugDisplayURL_shape EncodeURI_example cx_ok (Some EmptyString)
                           [ 171; 0; 9; 255 ] Hb)) EmptyString eq_refl eq_refl).
  - destruct (proj2 (proj2 (debugDisplayURL_shape EncodeURI_example cx_ok
                              (Some "a.wasm"%string) [ 171; 0; 9; 255 ] Hb))
                _ eq_refl) as (name & Hurl & _).
    by exists name.
Defined.

Section SourceMapSafety.

Variable BinaryToText : JSContext -> list Z -> Rendering.

(** X22.  Once a source map is present and its index is absent or the one
    the search builds (as in every reachable state), the location queries
    fail no assertion: every vector access of [getOffsetLocation],
    [getLineOffsets] and [totalSourceLines] is in range, for every offset and
    line number, whether or not the entries are in line order and whatever
    the allocator does. *)
Theorem source_queries_in_bounds cx ds sm :
  maybeSourceMap_ ds = Some sm ->
  indexValid sm ->
  (∀ offset, ∃ ds' ok found,
     getOffsetLocation BinaryToText cx ds offset = Returns (ds', ok, found))
  ∧ (∀ lineno offsets, ∃ ok offsets',
       getLineOffsets BinaryToText cx ds lineno offsets = Returns (ds, ok, offsets'))
  ∧ ∃ count, totalSourceLines BinaryToText cx ds = Returns (ds, true, count).
Proof.
  intros Hsm Hvalid.
  assert (ensureSourceMap BinaryToText cx ds = Returns (ds, true)) as Hens
    by (apply ensureSourceMap_has_map; unfold hasSourceMap; by rewrite Hsm).
  split; [|split].
  - intros offset. unfold getOffsetLocation.
    destruct (debugEnabled (metadata_ ds)); simpl; [|eauto].
    rewrite Hens. unfold mbind at 1, outcome_bind at 1. simpl. rewrite Hsm.
    case_bool_decide as Hne; [eauto|].
    destruct Hvalid as [Hnone|Hbuilt].
    + destruct (cx_oom cx) eqn:Hoom.
      * assert (searchLineByOffset cx sm offset = Returns (sm, None)) as ->.
        { unfold searchLineByOffset, MOZ_ASSERT.
          rewrite (bool_decide_eq_false_2 _ Hne). simpl negb. cbv iota zeta.
          by rewrite Hnone, Hoom. }
        unfold mbind, outcome_bind. simpl. eauto.
      * destruct (searchLineByOffset_in_bounds cx sm offset Hne)
          as (idx & loc & -> & Hloc); [right; by split|].
        unfold mbind, outcome_bind, vec_at. simpl. rewrite Hloc. eauto.
    + destruct (searchLineByOffset_in_bounds cx sm offset Hne)
        as (idx & loc & -> & Hloc); [by left|].
      unfold mbind, outcome_bind, vec_at. simpl. rewrite Hloc. eauto.
  - intros lineno offsets.
    destruct (debugEnabled (metadata_ ds)) eqn:Hd.
    + rewrite (getLineOffsets_with_map BinaryToText _ _ _ _ _ Hd Hsm).
      unfold BinarySearchIf, MOZ_ASSERT. simpl (0 <=? _)%nat. cbv iota.
      destruct (BinarySearchIf_loop_bounds (exprlocs_ sm)
                  (fun loc => Returns (LineComparator lineno loc))
                  (length (exprlocs_ sm) - 0) 0 (length (exprlocs_ sm)))
        as (found & m & -> & Hm); [lia|eauto|].
      unfold mbind at 1, outcome_bind at 1. simpl.
      destruct found; simpl; [|eauto].
      destruct (rewindMatch_spec (exprlocs_ sm) lineno m) as (first & -> & _); [lia|].
      unfold mbind, outcome_bind. cbv zeta. eauto.
    + unfold getLineOffsets. rewrite Hd. simpl. eauto.
  - unfold totalSourceLines.
    destruct (debugEnabled (metadata_ ds)); simpl; [|eauto].
    rewrite Hens. unfold mbind, outcome_bind. simpl. eauto.
Qed.

End SourceMapSafety.

Lemma source_queries_in_bounds_witness :
  (∃ ok offsets',
     getLineOffsets BinaryToText_example cx_failing debugState_built (2 ^ 32 + 1) []
     = Returns (debugState_built, ok, offsets'))
  ∧ ∃ ds' ok found,
      getOffsetLocation BinaryToText_example cx_failing debugState_built 4
      = Returns (ds', ok, found).
Proof.
  destruct (source_queries_in_bounds BinaryToText_example cx_failing debugState_built
              sourceMap_example eq_refl (or_introl eq_refl)) as (Hloc & Hline & _).
  split; [apply Hline|apply Hloc].
Defined.
